(** * isoautomate-go: the acquisition engine, the transport and the
      session lifecycle of the Go SDK, embedded in Rocq.

    The repository carries two generations of the client:
    - [Client] (client.go, transport.go and the Acquire/Release file):
      the claim runs inside one Lua script ([EVAL]) and a command is
      answered through a blocking pop ([BLPOP]) behind a retry wrapper;
    - [BrowserClient] (the earlier file): the claim is an [SPOP] followed
      by an [SADD], and a command is answered by polling a key with [GET].

    Both talk to a Redis store.  The store, the remote workers, the clock,
    the random source and the profile file are the [World] that every
    function below threads explicitly. *)

From Stdlib Require Import ZArith Lia Ascii.
From Equations Require Import Equations.
From Equations.Prop Require Import Logic.
From stdpp Require Import base strings list gmap sets.

Local Open Scope Z_scope.

(** ** Errors *)

(** Go's [error] values that the SDK creates or receives.  Comparison with
    [==] in the source ([err == redis.Nil]) is equality of constructors. *)
Inductive error : Type :=
| redis_Nil                          (* redis.Nil: no value available *)
| context_DeadlineExceeded           (* context.DeadlineExceeded *)
| redis_failure (msg : string)       (* any other error of the store client *)
| json_failure (msg : string)        (* encoding/json *)
| BrowserError (Message : string)    (* *BrowserError, from NewBrowserError *)
| errors_New (msg : string).         (* errors.New / fmt.Errorf *)

Global Instance error_eq_dec : EqDecision error.
Proof. solve_decision. Defined.

(** [err.Error()], also what [%v] prints. *)
Definition Error (e : error) : string :=
  match e with
  | redis_Nil => "redis: nil"
  | context_DeadlineExceeded => "context deadline exceeded"
  | redis_failure msg => msg
  | json_failure msg => msg
  | BrowserError Message => "isoAutomate Error: " +:+ Message
  | errors_New msg => msg
  end.

(** [NewBrowserError] after [fmt.Sprintf] has built the message. *)
Definition NewBrowserError (Message : string) : error := BrowserError Message.

(** ** JSON values and Go's [(value, error)] results *)

Inductive jvalue : Type :=
| JString (s : string)
| JBool (b : bool)
| JNumber (z : Z)
| JNull.

Global Instance jvalue_eq_dec : EqDecision jvalue.
Proof. solve_decision. Defined.

(** [map[string]interface{}] *)
Abbreviation jmap := (gmap string jvalue).

(** [res[key].(string)] with the comma-ok form. *)
Definition string_field (res : option jmap) (key : string) : option string :=
  match res with
  | Some m => match m !! key with Some (JString s) => Some s | _ => None end
  | None => None
  end.

(** ** The world *)

(** What the environment does with one call to the store. *)
Inductive reply : Type :=
| Served                        (* the store executes the call *)
| Failed (e : error)            (* the call fails with [e]; nothing is changed *)
| Answered (raw : list string). (* a worker's answer reaches a waiting pop or read *)

(** What the client did, as seen from outside, in order. *)
Inductive event : Type :=
| EvSMembers (key : string)
| EvSPop (key : string)
| EvSAdd (key member : string)
| EvEval (keys args : list string)
| EvRPush (key data : string)
| EvBLPop (key : string) (timeout : Z)
| EvGet (key : string)
| EvDel (key : string)
| EvSleep (d : Z).

Global Instance event_eq_dec : EqDecision event.
Proof. solve_decision. Defined.

Record World : Type := mkWorld {
  sets : gmap string (gset string);   (* Redis keys holding sets *)
  lists : gmap string (list string);  (* Redis keys holding lists *)
  strs : gmap string string;          (* Redis keys holding strings *)
  replies : list reply;               (* one per store call, then [Served] *)
  rng : list nat;                     (* random draws, then 0 *)
  uuids : nat;                        (* UUIDs generated so far *)
  clock : Z;                          (* nanoseconds *)
  trace : list event;                 (* newest last *)
  files : gmap string string          (* local files, by path *)
}.

Definition set_sets (v : gmap string (gset string)) (w : World) : World :=
  mkWorld v (lists w) (strs w) (replies w) (rng w) (uuids w) (clock w) (trace w) (files w).
Definition set_lists (v : gmap string (list string)) (w : World) : World :=
  mkWorld (sets w) v (strs w) (replies w) (rng w) (uuids w) (clock w) (trace w) (files w).
Definition set_strs (v : gmap string string) (w : World) : World :=
  mkWorld (sets w) (lists w) v (replies w) (rng w) (uuids w) (clock w) (trace w) (files w).
Definition set_replies (v : list reply) (w : World) : World :=
  mkWorld (sets w) (lists w) (strs w) v (rng w) (uuids w) (clock w) (trace w) (files w).
Definition set_rng (v : list nat) (w : World) : World :=
  mkWorld (sets w) (lists w) (strs w) (replies w) v (uuids w) (clock w) (trace w) (files w).
Definition set_uuids (v : nat) (w : World) : World :=
  mkWorld (sets w) (lists w) (strs w) (replies w) (rng w) v (clock w) (trace w) (files w).
Definition set_clock (v : Z) (w : World) : World :=
  mkWorld (sets w) (lists w) (strs w) (replies w) (rng w) (uuids w) v (trace w) (files w).
Definition set_files (v : gmap string string) (w : World) : World :=
  mkWorld (sets w) (lists w) (strs w) (replies w) (rng w) (uuids w) (clock w) (trace w) v.

(** Record one event. *)
Definition emit (e : event) (w : World) : World :=
  mkWorld (sets w) (lists w) (strs w) (replies w) (rng w) (uuids w) (clock w)
          (trace w ++ [e]) (files w).

(** The environment's verdict on the next store call. *)
Definition next_reply (w : World) : reply * World :=
  match replies w with
  | [] => (Served, w)
  | r :: rs => (r, set_replies rs w)
  end.

(** The next random draw. *)
Definition draw (w : World) : nat * World :=
  match rng w with
  | [] => (0%nat, w)
  | r :: rs => (r, set_rng rs w)
  end.

(** [time.Sleep(d)] *)
Definition time_Sleep (d : Z) (w : World) : World :=
  emit (EvSleep d) (set_clock (clock w + d) w).

(** ** Redis protocol constants (config.go) *)

Definition RedisPrefix : string := "ISOAUTOMATE:".
Definition WorkersSet : string := RedisPrefix +:+ "workers".

(** ** Durations (package time), in nanoseconds *)

Definition Millisecond : Z := 1000000.
Definition Second : Z := 1000000000.

(** A [time.Duration] is an [int64]: a product that leaves its range wraps
    around. *)
Definition wrap64 (z : Z) : Z := (z + 2 ^ 63) mod 2 ^ 64 - 2 ^ 63.

(** ** Store commands *)

Definition smembers (key : string) (w : World) : gset string := sets w !!! key.

(** One uniformly chosen member of a non-empty set. *)
Definition pick (s : gset string) (w : World) : option string * World :=
  match elements s with
  | [] => (None, w)
  | members =>
      let '(r, w1) := draw w in
      (members !! (r mod length members)%nat, w1)
  end.

(** [SPOP key] on the store itself: remove and return a random member. *)
Definition spop (key : string) (w : World) : option string * World :=
  match pick (smembers key w) w with
  | (Some x, w1) =>
      (Some x, set_sets (<[key := smembers key w ∖ {[x]}]> (sets w1)) w1)
  | (None, w1) => (None, w1)
  end.

(** [SADD key member] on the store itself. *)
Definition sadd (key member : string) (w : World) : World :=
  set_sets (<[key := smembers key w ∪ {[member]}]> (sets w)) w.

(** [c.R.SMembers(ctx, key).Result()] *)
Definition SMembers (key : string) (w : World) : World * (list string * option error) :=
  let '(r, w1) := next_reply (emit (EvSMembers key) w) in
  match r with
  | Failed e => (w1, ([], Some e))
  | _ => (w1, (elements (smembers key w1), None))
  end.

(** [c.R.SPop(ctx, key).Result()]: [redis.Nil] on an empty set. *)
Definition SPop (key : string) (w : World) : World * (string * option error) :=
  let '(r, w1) := next_reply (emit (EvSPop key) w) in
  match r with
  | Failed e => (w1, ("", Some e))
  | _ => match spop key w1 with
         | (Some x, w2) => (w2, (x, None))
         | (None, w2) => (w2, ("", Some redis_Nil))
         end
  end.

(** [c.R.SAdd(ctx, key, member)] *)
Definition SAdd (key member : string) (w : World) : World * option error :=
  let '(r, w1) := next_reply (emit (EvSAdd key member) w) in
  match r with
  | Failed e => (w1, Some e)
  | _ => (sadd key member w1, None)
  end.

(** [c.R.RPush(ctx, key, data).Err()] *)
Definition RPush (key data : string) (w : World) : World * option error :=
  let '(r, w1) := next_reply (emit (EvRPush key data) w) in
  match r with
  | Failed e => (w1, Some e)
  | _ => (set_lists (<[key := (lists w1 !!! key) ++ [data]]> (lists w1)) w1, None)
  end.

(** [c.R.BLPop(ctx, timeout, key).Result()]: the reply is [key; value];
    when nothing arrives the call returns [redis.Nil] after [timeout].
    The server counts the wait in whole seconds, which is what go-redis
    sends it: the wait modelled here is that of a [timeout] of a whole
    positive number of seconds, and the statements on how long a pop
    waits are made for such timeouts. *)
Definition BLPop (key : string) (timeout : Z) (w : World)
  : World * (list string * option error) :=
  let '(r, w1) := next_reply (emit (EvBLPop key timeout) w) in
  match r with
  | Failed e => (w1, ([], Some e))
  | Answered raw => (w1, (raw, None))
  | Served =>
      match lists w1 !!! key with
      | v :: rest => (set_lists (<[key := rest]> (lists w1)) w1, ([key; v], None))
      | [] => (set_clock (clock w1 + timeout) w1, ([], Some redis_Nil))
      end
  end.

(** [c.rdb.Get(ctx, key).Result()]: [redis.Nil] when the key is absent. *)
Definition Get (key : string) (w : World) : World * (string * option error) :=
  let '(r, w1) := next_reply (emit (EvGet key) w) in
  match r with
  | Failed e => (w1, ("", Some e))
  | Answered (v :: _) => (w1, (v, None))
  | _ => match strs w1 !! key with
         | Some v => (w1, (v, None))
         | None => (w1, ("", Some redis_Nil))
         end
  end.

(** [c.rdb.Del(ctx, key)] *)
Definition Del (key : string) (w : World) : World * option error :=
  let '(r, w1) := next_reply (emit (EvDel key) w) in
  match r with
  | Failed e => (w1, Some e)
  | _ => (set_strs (delete key (strs w1)) (set_lists (delete key (lists w1)) w1), None)
  end.

(** ** Libraries the SDK calls *)

(** [uuid.New()] rendered in hex and [encoding/json].  They are kept
    abstract: every statement below holds for all of their behaviours. *)
Class Libraries : Type := {
  uuid_Hex : nat -> string;                       (* the n-th UUID drawn *)
  json_Marshal : forall A : Type, A -> string + error;
  json_Unmarshal : string -> jmap + error
}.

Definition uuid_New `{Libraries} (w : World) : string * World :=
  (uuid_Hex (uuids w), set_uuids (S (uuids w)) w).

(** ** The machine the SDK runs on *)

(** [redis.Options], the fields the SDK sets. *)
Record Options : Type := mkOptions {
  Addr : string;
  Password : string;
  DB : Z;
  TLS : bool        (* TLSConfig set, with InsecureSkipVerify *)
}.

(** Packages [encoding/base64], [time], [path/filepath], [os], [strconv],
    [godotenv] and [redis.ParseURL].  They are kept abstract: every
    statement below holds for all of their behaviours.  A path can be
    written or not, a directory made or not, whatever the files are. *)
Class Platform : Type := {
  base64_DecodeString : string -> string + error;
  time_Format : string -> Z -> string;           (* layout, nanoseconds *)
  filepath_Join : string -> string -> string;
  filepath_Dir : string -> string;
  filepath_Abs : string -> string;
  os_Getwd : string;
  os_MkdirAll : string -> option error;
  os_WriteFile_error : string -> option error;
  strconv_Atoi : string -> Z * option error;
  redis_ParseURL : string -> Options + error;
  (* the variables once the file's have been added: kept, or overridden *)
  godotenv_Load : string -> gmap string string -> World -> gmap string string;
  godotenv_Overload : string -> gmap string string -> World -> gmap string string
}.

Section OnPlatform.
Context `{Platform}.

(** [os.WriteFile(path, data, 0644)] *)
Definition os_WriteFile (path data : string) (w : World) : World * option error :=
  match os_WriteFile_error path with
  | Some err => (w, Some err)
  | None => (set_files (<[path := data]> (files w)) w, None)
  end.

(** [os.Getenv(key)]: empty when unset. *)
Definition os_Getenv (env : gmap string string) (key : string) : string :=
  default "" (env !! key).

End OnPlatform.

(** ** Shuffling the worker list *)

(** [workers[i], workers[j] = workers[j], workers[i]], positions from 0. *)
Definition swap (i j : nat) (l : list string) : list string :=
  match l !! i, l !! j with
  | Some x, Some y => <[i := y]> (<[j := x]> l)
  | _, _ => l
  end.

(** The loop of the Lua script,
    [for i = #workers, 2, -1 do local j = math.random(i) ... end],
    with [i] counting positions from 1 as Lua does; Go's
    [rand.Shuffle(n, swap)] runs the same loop from [n - 1] down to 1 with
    [j] drawn from [0, i]. *)
Fixpoint shuffle_from (i : nat) (workers : list string) (w : World)
  : list string * World :=
  match i with
  | S (S _ as i') =>
      let '(r, w1) := draw w in
      let j := S (r mod i)%nat in
      shuffle_from i' (swap (i - 1) (j - 1) workers) w1
  | _ => (workers, w)
  end.

Definition shuffle (workers : list string) (w : World) : list string * World :=
  shuffle_from (length workers) workers w.

(** Key names, as the script and both clients build them. *)
Definition free_key (prefix worker browserType : string) : string :=
  prefix +:+ worker +:+ ":" +:+ browserType +:+ ":free".
Definition busy_key (prefix worker browserType : string) : string :=
  prefix +:+ worker +:+ ":" +:+ browserType +:+ ":busy".

(** * The current client: [Client] *)

Module Client.

(** types.go *)
Record Session : Type := mkSession {
  BrowserID : string;
  WorkerName : string;
  BrowserType : string;
  Video : bool;
  Record_ : bool;
  ProfileID : string
}.

(** [TaskPayload], fields under their JSON names; the last four carry
    [omitempty], so a zero value is an absent field on the wire. *)
Record TaskPayload : Type := mkTaskPayload {
  task_id : string;
  browser_id : string;
  worker_name : string;
  action : string;
  args : option jmap;
  result_key : string;
  video : bool;
  record : bool;
  profile_id : string;
  browser_type : string
}.

Definition set_video (v : bool) (p : TaskPayload) : TaskPayload :=
  mkTaskPayload (task_id p) (browser_id p) (worker_name p) (action p) (args p)
                (result_key p) v (record p) (profile_id p) (browser_type p).
Definition set_record (v : bool) (p : TaskPayload) : TaskPayload :=
  mkTaskPayload (task_id p) (browser_id p) (worker_name p) (action p) (args p)
                (result_key p) (video p) v (profile_id p) (browser_type p).
Definition set_profile_id (v : string) (p : TaskPayload) : TaskPayload :=
  mkTaskPayload (task_id p) (browser_id p) (worker_name p) (action p) (args p)
                (result_key p) (video p) (record p) v (browser_type p).
Definition set_browser_type (v : string) (p : TaskPayload) : TaskPayload :=
  mkTaskPayload (task_id p) (browser_id p) (worker_name p) (action p) (args p)
                (result_key p) (video p) (record p) (profile_id p) v.

(** client.go; the connection [R] and [ctx] live in the [World]. *)
Record t : Type := mkClient {
  Session_ : option Session;     (* c.Session, nil when no browser is held *)
  SessionData : option jmap;
  VideoURL : string;
  RecordURL : string;
  InitSent : bool
}.

Definition set_Session (v : option Session) (c : t) : t :=
  mkClient v (SessionData c) (VideoURL c) (RecordURL c) (InitSent c).
Definition set_SessionData (v : option jmap) (c : t) : t :=
  mkClient (Session_ c) v (VideoURL c) (RecordURL c) (InitSent c).
Definition set_VideoURL (v : string) (c : t) : t :=
  mkClient (Session_ c) (SessionData c) v (RecordURL c) (InitSent c).
Definition set_RecordURL (v : string) (c : t) : t :=
  mkClient (Session_ c) (SessionData c) (VideoURL c) v (InitSent c).
Definition set_InitSent (v : bool) (c : t) : t :=
  mkClient (Session_ c) (SessionData c) (VideoURL c) (RecordURL c) v.

(** What [New] returns once connected. *)
Definition fresh : t := mkClient None (Some ∅) "" "" false.

Definition DefaultRPCWait : Z := 60 * Second.

(** ** transport.go *)

Definition maxAttempts : nat := 3.

(** [time.Duration(float64(time.Second) * backoffFactor * (1 << (attempt - 1)))]
    with [backoffFactor = 0.2]: 0.2 s, 0.4 s, 0.8 s.  The float product is
    exact on these three values. *)
Definition backoff (attempt : nat) : Z :=
  200 * Millisecond * 2 ^ (Z.of_nat attempt - 1).

(** The loop of [executeWithRetry], entered with [attempt] retries behind
    it.  [op] is the closure; [X] holds the variables it captures and
    assigns. *)
Equations? retry_loop {X : Type} (op : X -> World -> World * (X * option error))
    (attempt : nat) (x : X) (w : World)
  : World * (X * option error) by wf (maxAttempts - attempt)%nat lt :=
  retry_loop op attempt x w with op x w := {
    | (w1, (x1, None)) => (w1, (x1, None))
    | (w1, (x1, Some err))
        with decide (err ≠ redis_Nil ∧ (attempt < maxAttempts)%nat) := {
        | left _ =>
            retry_loop op (S attempt) x1 (time_Sleep (backoff (S attempt)) w1)
        | right _ => (w1, (x1, Some err)) } }.
Proof. unfold maxAttempts in *. lia. Qed.

Definition executeWithRetry {X : Type}
    (op : X -> World -> World * (X * option error)) (x : X) (w : World)
  : World * (X * option error) :=
  retry_loop op 0 x w.

(** The closure around [RPush]: it captures nothing it assigns. *)
Definition push_op (queue data : string) (_ : unit) (w : World)
  : World * (unit * option error) :=
  let '(w1, err) := RPush queue data w in (w1, (tt, err)).

(** The closure around [BLPop]: it assigns [resultRaw]. *)
Definition pop_op (resultKey : string) (timeout : Z) (_ : list string) (w : World)
  : World * (list string * option error) :=
  BLPop resultKey timeout w.

(** The errors [SendWithTimeout] builds. *)
Definition not_acquired_error (action : string) : error :=
  NewBrowserError
    ("Cannot perform action '" +:+ action +:+ "': Browser session not acquired.").
Definition timeout_error : error :=
  NewBrowserError "Timeout waiting for worker response".
Definition rpc_error (e : error) : error :=
  NewBrowserError ("Redis RPC Error: " +:+ Error e).

Section WithLibraries.
Context `{Libraries} `{Platform}.

(** Steps 2 and 3 of [SendWithTimeout]: the payload and its init flags. *)
Definition build_payload (c : t) (s : Session) (taskID action : string)
    (args : option jmap) (resultKey : string) : TaskPayload :=
  let payload :=
    mkTaskPayload taskID (BrowserID s) (WorkerName s) action args resultKey
                  false false "" "" in
  if InitSent c then payload
  else
    let p1 := if Video s then set_video true payload else payload in
    let p2 := if Record_ s then set_record true p1 else p1 in
    if bool_decide (ProfileID s ≠ "")
    then set_browser_type (BrowserType s) (set_profile_id (ProfileID s) p2)
    else p2.

Definition SendWithTimeout (action : string) (args : option jmap) (timeout : Z)
    (c : t) (w : World) : t * World * (option jmap * option error) :=
  match Session_ c with
  | None => (c, w, (None, Some (not_acquired_error action)))
  | Some s =>
      let '(taskID, w0) := uuid_New w in
      let resultKey := RedisPrefix +:+ "result:" +:+ taskID in
      let queue := RedisPrefix +:+ WorkerName s +:+ ":tasks" in
      let payload := build_payload c s taskID action args resultKey in
      match json_Marshal TaskPayload payload with
      | inr err =>
          (c, w0, (None, Some (NewBrowserError
             ("Failed to serialize task payload: " +:+ Error err))))
      | inl data =>
          let '(w1, (_, err)) := executeWithRetry (push_op queue data) tt w0 in
          match err with
          | Some e => (c, w1, (None, Some e))
          | None =>
              let '(w2, (resultRaw, err)) :=
                executeWithRetry (pop_op resultKey timeout) [] w1 in
              match err with
              | Some e =>
                  if bool_decide (e = redis_Nil ∨ e = context_DeadlineExceeded)
                  then (c, w2, (None, Some timeout_error))
                  else (c, w2, (None, Some (rpc_error e)))
              | None =>
                  match resultRaw with
                  | _ :: raw1 :: _ =>
                      match json_Unmarshal raw1 with
                      | inr e =>
                          (c, w2, (None, Some (NewBrowserError
                             ("Failed to parse worker response: " +:+ Error e))))
                      | inl resp => (set_InitSent true c, w2, (Some resp, None))
                      end
                  | _ =>
                      (c, w2, (None, Some (NewBrowserError "Invalid response from Redis")))
                  end
              end
          end
      end
  end.

Definition Send (action : string) (args : option jmap) (c : t) (w : World)
  : t * World * (option jmap * option error) :=
  SendWithTimeout action args DefaultRPCWait c w.

(** ** The Acquire/Release file *)

(** The [profile interface{}] argument, by dynamic type. *)
Inductive profile_arg : Type :=
| profile_nil
| profile_string (pStr : string)
| profile_bool (pBool : bool)
| profile_other.

(** [filepath.Join(cwd, ".iso_profiles")] and
    [filepath.Join(profileStore, "default_profile.id")]. *)
Definition profileStore : string := filepath_Join os_Getwd ".iso_profiles".
Definition idFile : string := filepath_Join profileStore "default_profile.id".

(** Step 1 of [Acquire].  The outcomes of [os.MkdirAll] and of
    [os.WriteFile] are dropped, as in the source: when the file cannot be
    written the ID is used all the same and nothing is stored. *)
Definition resolve_profile (profile : profile_arg) (w : World) : string * World :=
  match profile with
  | profile_string pStr => (pStr, w)
  | profile_bool true =>
      let _ := os_MkdirAll profileStore in
      match files w !! idFile with
      | Some data => (data, w)
      | None =>
          let '(u, w1) := uuid_New w in
          let profileID := "user_" +:+ String.substring 0 8 u in
          let '(w2, _) := os_WriteFile idFile profileID w1 in
          (profileID, w2)
      end
  | _ => ("", w)
  end.

(** The second loop of the script: the first worker whose free set yields
    a member gives it up to its busy set. *)
Fixpoint claim_first (prefix browserType : string) (workers : list string)
    (w : World) : option (list string) * World :=
  match workers with
  | [] => (None, w)
  | worker :: rest =>
      match spop (free_key prefix worker browserType) w with
      | (Some bid, w1) =>
          (Some [worker; bid], sadd (busy_key prefix worker browserType) bid w1)
      | (None, w1) => claim_first prefix browserType rest w1
      end
  end.

(** [luaScript]: SMEMBERS, shuffle, then SPOP and SADD on the first worker
    that has a free browser.  The store runs a script as one command. *)
Definition luaScript (KEYS ARGV : list string) (w : World)
  : option (list string) * World :=
  match KEYS, ARGV with
  | [k1], [a1; a2] =>
      let '(workers, w1) := shuffle (elements (smembers k1 w)) w in
      claim_first a1 a2 workers w1
  | _, _ => (None, w)
  end.

(** [c.R.Eval(ctx, script, keys, args...).Result()].  A script that
    returns [nil] sends a nil reply, which go-redis hands to the caller as
    the error [redis.Nil], as it does for [SPOP], [GET] and [BLPOP]. *)
Definition Eval (script : list string -> list string -> World -> option (list string) * World)
    (keys args : list string) (w : World)
  : World * (option (list string) * option error) :=
  let '(r, w1) := next_reply (emit (EvEval keys args) w) in
  match r with
  | Failed e => (w1, (None, Some e))
  | _ =>
      let '(result, w2) := script keys args w1 in
      match result with
      | Some reply => (w2, (Some reply, None))
      | None => (w2, (None, Some redis_Nil))
      end
  end.

Definition no_browsers (browserType : string) : error :=
  NewBrowserError ("No browsers available for type: '" +:+ browserType +:+ "'. Check workers.").
Definition lua_error (e : error) : error :=
  NewBrowserError ("Redis Lua Error: " +:+ Error e).

(** The map a successful [Acquire] returns. *)
Definition acquired (workerName bid : string) : jmap :=
  <["status" := JString "ok"]>
    (<["browser_id" := JString bid]> {["worker" := JString workerName]}).

Definition Acquire (browserType : string) (video : bool) (profile : profile_arg)
    (record : bool) (c : t) (w : World) : t * World * (option jmap * option error) :=
  let '(profileID, w0) := resolve_profile profile w in
  let c0 := set_InitSent false c in
  let '(w1, (result, err)) :=
    Eval luaScript [WorkersSet] [RedisPrefix; browserType] w0 in
  match err with
  | Some e => (c0, w1, (None, Some (lua_error e)))
  | None =>
      match result with
      | None => (c0, w1, (None, Some (no_browsers browserType)))
      | Some (workerName :: bid :: _) =>
          let c1 :=
            set_Session (Some (mkSession bid workerName browserType video record profileID)) c0 in
          let '(c2, w2) :=
            if bool_decide (profileID ≠ "") || video || record
            then let '(c', w', _) := Send "get_title" None c1 w1 in (c', w')
            else (c1, w1) in
          (c2, w2, (Some (acquired workerName bid), None))
      | Some _ => (c0, w1, (None, Some (NewBrowserError "Invalid Lua response format")))
      end
  end.

(** How a call ends: Go returns [(map, error)], or the goroutine panics. *)
Inductive outcome : Type :=
| Returned (res : option jmap) (err : option error)
| Panicked (msg : string).

Definition not_acquired : jmap :=
  <["status" := JString "error"]> {["error" := JString "not_acquired"]}.

(** A teardown command of [Release]: on success the URL under [field],
    when it is a string, is stored by [store]. *)
Definition teardown (action : string) (timeout : Z) (field : string)
    (store : string -> t -> t) (c : t) (w : World) : t * World :=
  let '(c1, w1, (res, err)) := SendWithTimeout action None timeout c w in
  match err with
  | None =>
      match string_field res field with
      | Some url => (store url c1, w1)
      | None => (c1, w1)
      end
  | Some _ => (c1, w1)
  end.

Definition Release (c : t) (w : World) : t * World * outcome :=
  match Session_ c with
  | None => (c, w, Returned (Some not_acquired) None)
  | Some s =>
      let '(c4, w4, out) :=
        let '(c1, w1) :=
          if Video s
          then teardown "stop_video" (120 * Second) "video_url" set_VideoURL c w
          else (c, w) in
        match Session_ c1 with
        | None => (c1, w1, Panicked "nil pointer dereference")
        | Some s1 =>
            let '(c2, w2) :=
              if Record_ s1
              then teardown "stop_record" (60 * Second) "record_url" set_RecordURL c1 w1
              else (c1, w1) in
            let '(c3, w3, (res, err)) := Send "release_browser" None c2 w2 in
            match err with
            | Some e =>
                (c3, w3,
                 Returned (Some (<["status" := JString "error"]>
                                   {["error" := JString (Error e)]}))
                          (Some e))
            | None => (set_SessionData res c3, w3, Returned res None)
            end
        end in
      (* defer func() { c.Session = nil }() *)
      (set_Session None c4, w4, out)
  end.

End WithLibraries.

End Client.

(** * The earlier client: [BrowserClient] *)

Module BrowserClient.

Record Session : Type := mkSession {
  BrowserID : string;
  WorkerName : string;
  BrowserType : string;
  Record_ : bool
}.

(** [CommandPayload], fields under their JSON names. *)
Record CommandPayload : Type := mkCommandPayload {
  task_id : string;
  browser_id : string;
  worker_name : string;
  browser_type : string;
  action : string;
  args : jmap;
  result_key : string
}.

(** [rdb] and [ctx] live in the [World]. *)
Record t : Type := mkClient {
  Session_ : option Session;
  VideoURL : string;
  SessionData : option jmap
}.

Definition set_Session (v : option Session) (c : t) : t :=
  mkClient v (VideoURL c) (SessionData c).
Definition set_VideoURL (v : string) (c : t) : t :=
  mkClient (Session_ c) v (SessionData c).
Definition set_SessionData (v : option jmap) (c : t) : t :=
  mkClient (Session_ c) (VideoURL c) v.

(** What [NewClient] returns. *)
Definition fresh : t := mkClient None "" None.

Definition no_workers : error := errors_New "no workers found in isoFleet".
Definition no_available (browserType : string) : error :=
  errors_New ("no available browsers for type: " +:+ browserType).

Section WithLibraries.
Context `{Libraries}.

(** The polling loop of [Send]: [for time.Since(start) < timeout { ... }].
    Time passes in [time.Sleep] only. *)
Equations? poll (resultKey : string) (start timeout : Z) (w : World)
  : World * (option jmap * option error)
  by wf (Z.to_nat ((start + timeout - clock w) / (50 * Millisecond) + 1)) lt :=
  poll resultKey start timeout w with decide (clock w - start < timeout) := {
    | right _ =>
        (w, (None, Some (errors_New "timeout waiting for worker response")))
    | left _ with inspect (Get resultKey w) := {
        | exist _ (w1, (val, Some e)) _ with decide (e = redis_Nil) := {
            | left _ =>
                poll resultKey start timeout (time_Sleep (50 * Millisecond) w1)
            | right _ => (w1, (None, Some e)) }
        | exist _ (w1, (val, None)) _ =>
            let '(w2, _) := Del resultKey w1 in
            match json_Unmarshal val with
            | inr e => (w2, (None, Some e))
            | inl res => (w2, (Some res, None))
            end } }.
Proof.
  assert (clock w1 = clock w) as Hclock.
  { match goal with Heq : Get _ _ = _ |- _ => revert Heq end.
    unfold Get, next_reply, emit, set_replies. simpl.
    repeat case_match; intros Heq;
      repeat match goal with
             | E : (_, _) = (_, _) |- _ => inversion E; clear E; subst
             end; reflexivity. }
  unfold time_Sleep, emit, set_clock; simpl. rewrite Hclock. unfold Millisecond.
  replace (start + timeout - (clock w + 50 * 1000000))
    with ((start + timeout - clock w) + (-1) * (50 * 1000000)) by lia.
  rewrite Z.div_add by lia.
  assert (0 <= (start + timeout - clock w) / (50 * 1000000))
    by (apply Z.div_pos; lia).
  lia.
Qed.

Definition Send (action : string) (args : option jmap) (timeoutSeconds : Z)
    (c : t) (w : World) : t * World * (option jmap * option error) :=
  match Session_ c with
  | None => (c, w, (None, Some (errors_New "session not acquired")))
  | Some s =>
      let args := match args with None => ∅ | Some a => a end in
      let '(taskIDHex, w0) := uuid_New w in
      let resultKey := RedisPrefix +:+ "result:" +:+ taskIDHex in
      let queue := RedisPrefix +:+ WorkerName s +:+ ":tasks" in
      let payload :=
        mkCommandPayload taskIDHex (BrowserID s) (WorkerName s) (BrowserType s)
                         action args resultKey in
      let jsonBytes :=
        match json_Marshal CommandPayload payload with
        | inl data => data
        | inr _ => ""
        end in
      let '(w1, _) := RPush queue jsonBytes w0 in
      let start := clock w1 in
      (* time.Duration(timeoutSeconds) * time.Second *)
      let timeout := wrap64 (timeoutSeconds * Second) in
      let '(w2, r) := poll resultKey start timeout w1 in
      (c, w2, r)
  end.

(** The [for _, worker := range workers] loop of [Acquire]. *)
Fixpoint claim_loop (browserType : string) (record : bool) (workers : list string)
    (c : t) (w : World) : t * World * option error :=
  match workers with
  | [] => (c, w, Some (no_available browserType))
  | worker :: rest =>
      let freeKey := free_key RedisPrefix worker browserType in
      let '(w1, (bid, err)) := SPop freeKey w in
      match err with
      | Some _ => claim_loop browserType record rest c w1
      | None =>
          let '(w2, _) := SAdd (busy_key RedisPrefix worker browserType) bid w1 in
          let c1 := set_Session (Some (mkSession bid worker browserType record)) c in
          let '(c2, w3) :=
            if record
            then let '(c', w', _) := Send "start_recording" None 5 c1 w2 in (c', w')
            else (c1, w2) in
          (c2, w3, None)
      end
  end.

Definition Acquire (browserType : string) (record : bool) (c : t) (w : World)
  : t * World * option error :=
  let '(w1, (workers, err)) := SMembers WorkersSet w in
  if bool_decide (err ≠ None ∨ length workers = 0%nat)
  then (c, w1, Some no_workers)
  else
    let '(workers', w2) := shuffle workers w1 in
    claim_loop browserType record workers' c w2.

Definition Release (c : t) (w : World) : t * World * (option jmap * option error) :=
  match Session_ c with
  | None => (c, w, (None, Some (errors_New "no active session")))
  | Some s =>
      let '(c1, w1) :=
        if Record_ s
        then
          let '(c', w', (res, _)) := Send "stop_recording" None 120 c w in
          match string_field res "video_url" with
          | Some v => (set_VideoURL v c', w')
          | None => (c', w')
          end
        else (c, w) in
      let '(c2, w2, (res, err)) := Send "release_browser" None 60 c1 w1 in
      (set_Session None (set_SessionData res c2), w2, (res, err))
  end.

End WithLibraries.

End BrowserClient.

(** * Helpers, actions and the constructor *)

(** ** Package strings, on byte strings *)

(** [strings.ReplaceAll(s, old, new)] for a one-byte [old]. *)
Fixpoint strings_ReplaceAll (s : string) (old : Ascii.ascii) (new : string) : string :=
  match s with
  | EmptyString => EmptyString
  | String b rest =>
      (if Ascii.eqb b old then new else String b EmptyString)
        +:+ strings_ReplaceAll rest old new
  end.

(** [strings.NewReplacer(old1, new1, ...).Replace(s)] for one-byte [old]s:
    each byte is replaced by the first pair that names it. *)
Fixpoint replacement (b : Ascii.ascii) (pairs : list (Ascii.ascii * string)) : string :=
  match pairs with
  | [] => String b EmptyString
  | (old, new) :: rest => if Ascii.eqb b old then new else replacement b rest
  end.

Fixpoint Replacer_Replace (pairs : list (Ascii.ascii * string)) (s : string) : string :=
  match s with
  | EmptyString => EmptyString
  | String b rest => replacement b pairs +:+ Replacer_Replace pairs rest
  end.

(** [if len(s) > 20 { return s[:20] }; return s] *)
Definition first20 (s : string) : string :=
  if (20 <? String.length s)%nat then String.substring 0 20 s else s.

(** utils.go: [cleanSelector]. *)
Definition cleanSelector (s : string) : string :=
  let s := strings_ReplaceAll s "#"%char "" in
  let s := strings_ReplaceAll s "."%char "" in
  let s := strings_ReplaceAll s " "%char "_" in
  first20 s.

(** The same cleaning as [BrowserClient.handleAssertion] writes it. *)
Definition selectorClean (selector : string) : string :=
  first20 (Replacer_Replace [("#"%char, ""); ("."%char, ""); (" "%char, "_")] selector).

(** The bytes that [cleanSelector] takes out. *)
Definition special (b : Ascii.ascii) : Prop :=
  b = "#"%char ∨ b = "."%char ∨ b = " "%char.

(** What the three replacements do to one byte. *)
Definition cleaned (b : Ascii.ascii) : list Ascii.ascii :=
  if Ascii.eqb b "#" then []
  else if Ascii.eqb b "." then []
  else if Ascii.eqb b " " then ["_"%char]
  else [b].

(** ** Files the helpers save *)

Section WithPlatform.
Context `{Platform}.

Definition ScreenshotFolder : string := "screenshots".
Definition AssertionFolder : string := filepath_Join ScreenshotFolder "failures".

(** utils.go: [saveFileDecoded]. *)
Definition saveFileDecoded (pathStr base64Data : string) (w : World)
  : World * option error :=
  match os_MkdirAll (filepath_Dir pathStr) with
  | Some err => (w, Some err)
  | None =>
      match base64_DecodeString base64Data with
      | inr err => (w, Some (errors_New ("failed to decode base64: " +:+ Error err)))
      | inl data => os_WriteFile pathStr data w
      end
  end.

(** utils.go: [LoadEnv]. *)
Definition LoadEnv (customPath : string) (env : gmap string string) (w : World)
  : gmap string string :=
  if bool_decide (customPath ≠ "") then godotenv_Overload customPath env w
  else godotenv_Load (filepath_Join os_Getwd ".env") env w.

(** utils.go: [SaveBase64File]. *)
Definition SaveBase64File (base64Data outputPath : string) (w : World)
  : World * (string * option error) :=
  match base64_DecodeString base64Data with
  | inr err =>
      (w, ("", Some (NewBrowserError ("Failed to decode base64 data: " +:+ Error err))))
  | inl data =>
      match os_MkdirAll (filepath_Dir outputPath) with
      | Some err =>
          (w, ("", Some (NewBrowserError ("Failed to create directory: " +:+ Error err))))
      | None =>
          match os_WriteFile outputPath data w with
          | (w1, Some err) =>
              (w1, ("", Some (NewBrowserError ("Failed to write file: " +:+ Error err))))
          | (w1, None) => (w1, (filepath_Abs outputPath, None))
          end
      end
  end.

End WithPlatform.

(** The maps the actions build for their callers. *)
Definition error_map (msg : string) : jmap :=
  <["status" := JString "error"]> {["error" := JString msg]}.
Definition path_map (path : string) : jmap :=
  <["status" := JString "ok"]> {["path" := JString path]}.

(** * Connecting: client.go *)

(** [Config] *)
Record Config : Type := mkConfig {
  RedisURL : string;
  RedisHost : string;
  RedisPort : string;
  RedisPassword : string;
  RedisDB : Z;
  RedisSSL : bool;
  EnvFile : string
}.

(** [rdb.Ping(ctx).Err()]: a store call on no key; the trace, which lists
    the commands on keys, does not show it. *)
Definition Ping (w : World) : World * option error :=
  let '(r, w1) := next_reply w in
  match r with
  | Failed e => (w1, Some e)
  | _ => (w1, None)
  end.

Section Connecting.
Context `{Platform}.

(** Step 4 of [New], on the options step 3 settled on. *)
Definition connect (opts : Options) (w : World)
  : World * (option (Options * Client.t) * option error) :=
  match Ping w with
  | (w1, Some err) =>
      (w1, (None, Some (NewBrowserError ("Failed to connect to Redis: " +:+ Error err))))
  | (w1, None) => (w1, (Some (opts, Client.fresh), None))
  end.

(** [New]: the environment it leaves, the world, and the client with the
    options of its connection. *)
Definition New (cfg : Config) (env : gmap string string) (w : World)
  : gmap string string * World * (option (Options * Client.t) * option error) :=
  let env := LoadEnv (EnvFile cfg) env w in
  let host := if bool_decide (RedisHost cfg = "") then os_Getenv env "REDIS_HOST"
              else RedisHost cfg in
  let port := if bool_decide (RedisPort cfg = "") then os_Getenv env "REDIS_PORT"
              else RedisPort cfg in
  let port := if bool_decide (port = "") then "6379" else port in
  let password := if bool_decide (RedisPassword cfg = "") then os_Getenv env "REDIS_PASSWORD"
                  else RedisPassword cfg in
  let db := if bool_decide (RedisDB cfg = 0 ∧ os_Getenv env "REDIS_DB" ≠ "")
            then (strconv_Atoi (os_Getenv env "REDIS_DB")).1
            else RedisDB cfg in
  let useSSL :=
    if bool_decide (RedisSSL cfg = false
                    ∧ (os_Getenv env "REDIS_SSL" = "true" ∨ os_Getenv env "REDIS_SSL" = "1"))
    then true else RedisSSL cfg in
  if bool_decide (RedisURL cfg ≠ "" ∨ os_Getenv env "REDIS_URL" ≠ "")
  then
    let url := if bool_decide (RedisURL cfg = "") then os_Getenv env "REDIS_URL"
               else RedisURL cfg in
    match redis_ParseURL url with
    | inr err =>
        (env, w, (None, Some (NewBrowserError ("Invalid Redis URL: " +:+ Error err))))
    | inl opts => let '(w1, r) := connect opts w in (env, w1, r)
    end
  else if bool_decide (host = "")
  then (env, w, (None, Some (NewBrowserError "Missing Redis Configuration (Host)")))
  else
    let '(w1, r) := connect (mkOptions (host +:+ ":" +:+ port) password db useSSL) w in
    (env, w1, r).

End Connecting.

(** * Actions of [Client]: utils.go *)

Module Actions.
Section WithLibraries.
Context `{Libraries} `{Platform}.

(** [saveBase64Result] *)
Definition saveBase64Result (res : option jmap) (keyName outputPath : string)
    (w : World) : World * (option jmap * option error) :=
  if bool_decide (string_field res "status" = Some "ok")
  then
    match string_field res keyName with
    | Some b64 =>
        match SaveBase64File b64 outputPath w with
        | (w1, (_, Some err)) => (w1, (Some (error_map (Error err)), None))
        | (w1, (absPath, None)) => (w1, (Some (path_map absPath), None))
        end
    | None => (w, (res, None))
    end
  else (w, (res, None)).

(** [Screenshot] *)
Definition Screenshot (filename selector : string) (c : Client.t) (w : World)
  : Client.t * World * (option jmap * option error) :=
  let '(filename, w0) :=
    if bool_decide (filename = "")
    then
      let timestamp := time_Format "20060102_150405" (clock w) in
      let '(u, w') := uuid_New w in
      (filepath_Join ScreenshotFolder
         (timestamp +:+ "_" +:+ String.substring 0 4 u +:+ ".png"), w')
    else (filename, w) in
  let args : jmap := {["name" := JString "temp.png"]} in
  let args := if bool_decide (selector ≠ "") then <["selector" := JString selector]> args
              else args in
  let '(c1, w1, (res, err)) := Client.Send "save_screenshot" (Some args) c w0 in
  match err with
  | Some e => (c1, w1, (None, Some e))
  | None =>
      let '(w2, r) := saveBase64Result res "image_base64" filename w1 in
      (c1, w2, r)
  end.

(** [handleAssertion].  [args] is the map literal of the calling
    assertion.  Making the folder, whose outcome the source drops, and what
    is printed are left out. *)
Definition handleAssertion (action : string) (args : jmap) (c : Client.t) (w : World)
  : Client.t * World * (option jmap * option error) :=
  let args := match args !! "screenshot" with
              | Some _ => args
              | None => <["screenshot" := JBool true]> args
              end in
  let '(c1, w1, (res, err)) := Client.Send action (Some args) c w in
  match err with
  | Some e => (c1, w1, (None, Some e))
  | None =>
      if bool_decide (string_field res "status" = Some "fail")
      then
        let w2 :=
          match string_field res "screenshot_base64" with
          | Some b64 =>
              let selector := match args !! "selector" with
                              | Some (JString s) => cleanSelector s
                              | _ => "unknown"
                              end in
              let timestamp := time_Format "150405" (clock w1) in
              let filename :=
                "FAIL_" +:+ action +:+ "_" +:+ selector +:+ "_" +:+ timestamp +:+ ".png" in
              let path := filepath_Join AssertionFolder filename in
              match base64_DecodeString b64 with
              | inl data => (os_WriteFile path data w1).1
              | inr _ => w1
              end
          | None => w1
          end in
        let errMsg := match string_field res "error" with
                      | Some e => e
                      | None => "Unknown assertion error"
                      end in
        (c1, w2, (res, Some (NewBrowserError ("Assertion Failed: " +:+ errMsg))))
      else (c1, w1, (res, None))
  end.

End WithLibraries.
End Actions.

(** * Actions of [BrowserClient] *)

Module BrowserActions.
Section WithLibraries.
Context `{Libraries} `{Platform}.

(** [handleAssertion]: the error only. *)
Definition handleAssertion (action : string) (args : jmap) (c : BrowserClient.t)
    (w : World) : BrowserClient.t * World * option error :=
  let args := <["screenshot" := JBool true]> args in
  let '(c1, w1, (res, _)) := BrowserClient.Send action (Some args) 45 c w in
  if bool_decide (string_field res "status" = Some "fail")
  then
    let w2 :=
      match string_field res "screenshot_base64" with
      | Some b64 =>
          let selector := match args !! "selector" with
                          | Some (JString s) => s
                          | _ => "unknown"
                          end in
          let timestamp := time_Format "150405" (clock w1) in
          let fname :=
            "FAIL_" +:+ action +:+ "_" +:+ selectorClean selector +:+ "_"
              +:+ timestamp +:+ ".png" in
          let path := filepath_Join AssertionFolder fname in
          (saveFileDecoded path b64 w1).1
      | None => w1
      end in
    (c1, w2,
     Some (match string_field res "error" with
           | Some errMsg => errors_New errMsg
           | None => errors_New "assertion failed"
           end))
  else (c1, w1, None).

(** [if v, ok := res["value"].(string); ok { return v, nil }; return "", err] *)
Definition string_value (res : option jmap) (err : option error)
  : string * option error :=
  match string_field res "value" with
  | Some v => (v, None)
  | None => ("", err)
  end.

(** [GetText] *)
Definition GetText (selector : string) (c : BrowserClient.t) (w : World)
  : BrowserClient.t * World * (string * option error) :=
  let selector := if bool_decide (selector = "") then "body" else selector in
  let '(c1, w1, (res, err)) :=
    BrowserClient.Send "get_text" (Some {["selector" := JString selector]}) 60 c w in
  (c1, w1, string_value res err).

(** [GetTitle] *)
Definition GetTitle (c : BrowserClient.t) (w : World)
  : BrowserClient.t * World * (string * option error) :=
  let '(c1, w1, (res, err)) := BrowserClient.Send "get_title" None 60 c w in
  (c1, w1, string_value res err).

(** [IsElementVisible] *)
Definition IsElementVisible (selector : string) (c : BrowserClient.t) (w : World)
  : BrowserClient.t * World * (bool * option error) :=
  let '(c1, w1, (res, err)) :=
    BrowserClient.Send "is_element_visible" (Some {["selector" := JString selector]})
      60 c w in
  (c1, w1,
   match res with
   | Some m => match m !! "value" with
               | Some (JBool v) => (v, None)
               | _ => (false, err)
               end
   | None => (false, err)
   end).

End WithLibraries.
End BrowserActions.

(** * Vocabulary of the statements *)

(** ** The retry policy, in the words of the specification *)

(** Up to three further attempts, 0.2 s, 0.4 s and 0.8 s apart. *)
Definition policy_delays : list Z :=
  [200 * Millisecond; 400 * Millisecond; 800 * Millisecond].

(** The attempts the policy makes, each with what it returned: an attempt
    is followed by another one, after the next delay, when it failed with
    something other than "no value available" and a delay is left. *)
Fixpoint attempts_from {X : Type} (op : X -> World -> World * (X * option error))
    (delays : list Z) (x : X) (w : World) : list (World * (X * option error)) :=
  let r := op x w in
  r :: match r, delays with
       | (w1, (x1, Some e)), d :: ds =>
           if decide (e = redis_Nil) then []
           else attempts_from op ds x1 (time_Sleep d w1)
       | _, _ => []
       end.

Definition attempts {X : Type} (op : X -> World -> World * (X * option error))
    (x : X) (w : World) : list (World * (X * option error)) :=
  attempts_from op policy_delays x w.

Definition succeeded {X : Type} (r : World * (X * option error)) : Prop :=
  r.2.2 = None.
Definition failed_with {X : Type} (r : World * (X * option error)) (e : error) : Prop :=
  r.2.2 = Some e.

(** ** The worker pool *)

Definition pool (w : World) : list string := elements (smembers WorkersSet w).
Definition free_of (browserType worker : string) (w : World) : gset string :=
  smembers (free_key RedisPrefix worker browserType) w.
Definition busy_of (browserType worker : string) (w : World) : gset string :=
  smembers (busy_key RedisPrefix worker browserType) w.

(** The free instances of one browser type, over the whole pool. *)
Definition free_total (browserType : string) (w : World) : nat :=
  sum_list ((fun worker => size (free_of browserType worker w)) <$> pool w).

(** The sets once [bid] has moved from [worker]'s free set to its busy set. *)
Definition moved (prefix browserType worker bid : string)
    (ss : gmap string (gset string)) : gmap string (gset string) :=
  <[busy_key prefix worker browserType :=
      (ss !!! busy_key prefix worker browserType) ∪ {[bid]}]>
    (<[free_key prefix worker browserType :=
         (ss !!! free_key prefix worker browserType) ∖ {[bid]}]> ss).

(** No instance ID is free under two workers. *)
Definition ids_unique (browserType : string) (w : World) : Prop :=
  forall worker1 worker2 bid,
    worker1 ∈ pool w -> worker2 ∈ pool w ->
    bid ∈ free_of browserType worker1 w -> bid ∈ free_of browserType worker2 w ->
    worker1 = worker2.

(** ** The environment *)

(** The reply the next store call will get. *)
Definition verdict (w : World) : reply := default Served (head (replies w)).

(** The world once a store call has been logged and its reply taken. *)
Definition after (e : event) (w : World) : World :=
  set_replies (tail (replies w)) (emit e w).

(** The store answers every call. *)
Definition no_faults (w : World) : Prop :=
  Forall (fun r => forall e, r ≠ Failed e) (replies w).

(** [w'] comes from [w] by steps that leave the sets and the random source
    alone and use up replies. *)
Definition settled (w w' : World) : Prop :=
  sets w' = sets w ∧ rng w' = rng w ∧ replies w' `suffix_of` replies w.

(** [w'] comes from [w] by steps that only add to the trace. *)
Definition grows (w w' : World) : Prop := trace w `prefix_of` trace w'.

Definition chars (s : string) : list Ascii.ascii := String.list_ascii_of_string s.

(** ** Callers *)

(** Callers served one after another. *)
Fixpoint each {A R : Type} (step : A -> World -> R * World) (callers : list A)
    (w : World) : list R * World :=
  match callers with
  | [] => ([], w)
  | a :: rest =>
      let '(r, w1) := step a w in
      let '(rs, w2) := each step rest w1 in
      (r :: rs, w2)
  end.

(** What the caller can read off the map [Client.Acquire] returned. *)
Definition claim_of (r : option jmap * option error) : option (string * string) :=
  match r with
  | (Some m, None) =>
      match m !! "worker", m !! "browser_id" with
      | Some (JString worker), Some (JString bid) => Some (worker, bid)
      | _, _ => None
      end
  | _ => None
  end.

(** What the caller of [BrowserClient.Acquire] holds afterwards. *)
Definition held (r : BrowserClient.t * option error) : option (string * string) :=
  match r.2 with
  | None =>
      (fun s => (BrowserClient.WorkerName s, BrowserClient.BrowserID s))
        <$> BrowserClient.Session_ r.1
  | Some _ => None
  end.

(** The error of [Client.Acquire] when its script finds nothing free: the
    "Redis Lua Error" around [redis.Nil]. *)
Definition nothing_free : error := Client.lua_error redis_Nil.

Definition client_caller : Type := Client.t * bool * Client.profile_arg * bool.
Definition browser_caller : Type := BrowserClient.t * bool.

Definition client_acquire `{Libraries} `{Platform} (browserType : string) (a : client_caller)
    (w : World) : (Client.t * (option jmap * option error)) * World :=
  let '(c, video, profile, record) := a in
  let '(c', w', r) := Client.Acquire browserType video profile record c w in
  ((c', r), w').

Definition client_claim (x : Client.t * (option jmap * option error))
  : option (string * string) :=
  claim_of x.2.

Definition browser_acquire `{Libraries} (browserType : string) (a : browser_caller)
    (w : World) : (BrowserClient.t * option error) * World :=
  let '(b, record) := a in
  let '(b', w', err) := BrowserClient.Acquire browserType record b w in
  ((b', err), w').

(** ** Callers of [BrowserClient.Acquire] whose store calls interleave *)

(** Where a caller of [BrowserClient.Acquire] stands between two store
    calls. *)
Inductive acquiring : Type :=
| Starting                                   (* before SMEMBERS *)
| Scanning (workers : list string)           (* before the SPOP on the first of [workers] *)
| Adding (worker bid : string)               (* popped [bid], before the SADD *)
| Finished (err : option error) (got : option (string * string)).

(** One store call of [BrowserClient.Acquire] and what the caller does up to
    its next one. *)
Definition acquire_step (browserType : string) (st : acquiring) (w : World)
  : acquiring * World :=
  match st with
  | Starting =>
      let '(w1, (workers, err)) := SMembers WorkersSet w in
      if bool_decide (err ≠ None ∨ length workers = 0%nat)
      then (Finished (Some BrowserClient.no_workers) None, w1)
      else let '(workers', w2) := shuffle workers w1 in (Scanning workers', w2)
  | Scanning [] => (Finished (Some (BrowserClient.no_available browserType)) None, w)
  | Scanning (worker :: rest) =>
      let '(w1, (bid, err)) := SPop (free_key RedisPrefix worker browserType) w in
      match err with
      | Some _ =>
          match rest with
          | [] => (Finished (Some (BrowserClient.no_available browserType)) None, w1)
          | _ => (Scanning rest, w1)
          end
      | None => (Adding worker bid, w1)
      end
  | Adding worker bid =>
      let '(w1, _) := SAdd (busy_key RedisPrefix worker browserType) bid w in
      (Finished None (Some (worker, bid)), w1)
  | Finished err got => (Finished err got, w)
  end.

(** The instance a caller has popped. *)
Definition holding (st : acquiring) : option (string * string) :=
  match st with
  | Adding worker bid => Some (worker, bid)
  | Finished _ got => got
  | _ => None
  end.

Definition finished (st : acquiring) : bool :=
  match st with Finished _ _ => true | _ => false end.

(** Caller [i] makes its next store call. *)
Definition turn (browserType : string) (sys : list acquiring * World) (i : nat)
  : list acquiring * World :=
  match sys.1 !! i with
  | Some st =>
      let '(st', w') := acquire_step browserType st sys.2 in (<[i := st']> sys.1, w')
  | None => sys
  end.

(** The store serves the callers' calls in the order of [schedule]. *)
Definition interleave (browserType : string) (schedule : list nat)
    (sys : list acquiring * World) : list acquiring * World :=
  foldl (turn browserType) sys schedule.

(** One caller making [n] store calls with nobody in between. *)
Fixpoint alone (browserType : string) (n : nat) (st : acquiring) (w : World)
  : acquiring * World :=
  match n with
  | O => (st, w)
  | S n' =>
      let '(st', w') := acquire_step browserType st w in alone browserType n' st' w'
  end.

(** The store calls a caller still has to make, at most. *)
Definition rank (w0 : World) (st : acquiring) : nat :=
  match st with
  | Starting => 3 + length (pool w0)
  | Scanning workers => 2 + length workers
  | Adding _ _ => 1
  | Finished _ _ => 0
  end.

(** The error of a caller of [BrowserClient.Acquire] that finds nothing. *)
Definition refusal (browserType : string) (w0 : World) : error :=
  if decide (pool w0 = []) then BrowserClient.no_workers
  else BrowserClient.no_available browserType.

(** [w'] has the pool of [w] and free sets within those of [w]. *)
Definition shrunk (browserType : string) (w w' : World) : Prop :=
  pool w' = pool w
  ∧ forall worker, free_of browserType worker w' ⊆ free_of browserType worker w.

(** A scanning caller scans workers of the pool. *)
Definition sound (w0 : World) (st : acquiring) : Prop :=
  match st with
  | Scanning workers => workers ⊆ pool w0
  | _ => True
  end.

(** Instances in hand are distinct, were free at the start and are free no
    more. *)
Definition exclusive (browserType : string) (w0 : World)
    (sys : list acquiring * World) : Prop :=
  shrunk browserType w0 sys.2
  ∧ NoDup (omap holding sys.1)
  ∧ (forall worker bid, (worker, bid) ∈ omap holding sys.1 ->
       worker ∈ pool w0 ∧ bid ∈ free_of browserType worker w0
       ∧ (bid ∉ free_of browserType worker sys.2))
  ∧ Forall (sound w0) sys.1.

(** A caller has found nothing free under the workers it is done with. *)
Definition thorough (browserType : string) (w0 w : World) (st : acquiring) : Prop :=
  match st with
  | Starting | Adding _ _ => True
  | Scanning workers =>
      workers ≠ []
      ∧ forall worker, worker ∈ pool w0 -> worker ∉ workers ->
                       free_of browserType worker w = ∅
  | Finished None (Some _) => True
  | Finished (Some e) None =>
      e = refusal browserType w0
      ∧ forall worker, worker ∈ pool w0 -> free_of browserType worker w = ∅
  | Finished _ _ => False
  end.

(** When the store answers every call, each instance free at the start is
    still free or in a caller's hand. *)
Definition counted (browserType : string) (w0 : World)
    (sys : list acquiring * World) : Prop :=
  no_faults sys.2
  ∧ (free_total browserType sys.2 + length (omap holding sys.1))%nat
    = free_total browserType w0
  ∧ Forall (thorough browserType w0 sys.2) sys.1.

(** ** Vocabulary of the further properties *)

(** [w'] comes from [w] by steps that leave every list but the one under
    [key] alone, and the strings, files and UUID count too. *)
Definition aside (key : string) (w w' : World) : Prop :=
  (forall k, k ≠ key -> lists w' !!! k = lists w !!! k)
  ∧ strs w' = strs w ∧ files w' = files w ∧ uuids w' = uuids w.

(** [w'] comes from [w] by logging events that all satisfy [P]. *)
Definition logged (P : event -> Prop) (w w' : World) : Prop :=
  exists evs, trace w' = trace w ++ evs ∧ Forall P evs.

Definition is_sleep (e : event) : Prop := exists d, e = EvSleep d.

(** The reads that [BrowserClient.Send] still has to make at time [now]
    when no answer comes. *)
Definition polls_left (start timeout now : Z) : nat :=
  Z.to_nat ((start + timeout - now + (50 * Millisecond - 1)) / (50 * Millisecond)).

(** One read that finds nothing, and the sleep after it. *)
Definition idle_poll (resultKey : string) : list event :=
  [EvGet resultKey; EvSleep (50 * Millisecond)].

(** The error of [BrowserClient.Send] when the timeout has passed. *)
Definition timed_out : error := errors_New "timeout waiting for worker response".

(** [w'] has the clock, the strings and the UUID count of [w], and the
    replies of [w] less those used up. *)
Definition steady (w w' : World) : Prop :=
  clock w' = clock w ∧ strs w' = strs w ∧ uuids w' = uuids w
  ∧ replies w' `suffix_of` replies w.

(** No worker answers: the store serves every call, and nothing is or
    comes under a result key. *)
Definition unanswered `{Libraries} (w : World) : Prop :=
  replies w = []
  ∧ forall n, lists w !!! (RedisPrefix +:+ "result:" +:+ uuid_Hex n) = [].

(** The queue of [worker] is not a result key. *)
Definition queue_apart `{Libraries} (worker : string) : Prop :=
  forall n, RedisPrefix +:+ worker +:+ ":tasks" ≠ RedisPrefix +:+ "result:" +:+ uuid_Hex n.

(** No worker answers the earlier client: the store serves every call and
    nothing is stored under a result key. *)
Definition unread `{Libraries} (w : World) : Prop :=
  replies w = []
  ∧ forall n, strs w !! (RedisPrefix +:+ "result:" +:+ uuid_Hex n) = None.

(** [w'] holds the same sets and random draws as [w]. *)
Definition same_store (w w' : World) : Prop := sets w' = sets w ∧ rng w' = rng w.

(** The store calls among the events, and the time slept. *)
Fixpoint store_calls (evs : list event) : nat :=
  match evs with
  | [] => 0
  | EvSleep _ :: rest => store_calls rest
  | _ :: rest => S (store_calls rest)
  end.

Fixpoint slept (evs : list event) : Z :=
  match evs with
  | [] => 0
  | EvSleep d :: rest => d + slept rest
  | _ :: rest => slept rest
  end.

(** The back-off still ahead after [attempt] retries. *)
Definition backoff_ahead (attempt : nat) : Z :=
  match attempt with
  | 0%nat => 1400 * Millisecond
  | 1%nat => 1200 * Millisecond
  | 2%nat => 800 * Millisecond
  | _ => 0
  end.

(** ** Sample libraries, pools and clients *)

Definition sample_libraries : Libraries := {|
  uuid_Hex n := "5f2b9c1e" +:+ String.string_of_list_ascii (replicate n (Ascii.ascii_of_nat 48));
  json_Marshal A _ := inl "{}";
  json_Unmarshal raw :=
    if bool_decide (raw = "") then inr (json_failure "unexpected end of JSON input")
    else inl {["status" := JString raw]}
|}.

Definition world_of (ss : gmap string (gset string)) (rs : list reply) : World :=
  mkWorld ss ∅ ∅ rs [] 0 0 [] ∅.

(** No worker at all. *)
Definition no_worker_sets : gmap string (gset string) := ∅.

(** One worker, one free chrome. *)
Definition one_free_sets : gmap string (gset string) :=
  {[ WorkersSet := {["w1"]};
     free_key RedisPrefix "w1" "chrome" := {["b1"]} ]}.

(** One worker, its only chrome busy. *)
Definition none_free_sets : gmap string (gset string) :=
  {[ WorkersSet := {["w1"]};
     busy_key RedisPrefix "w1" "chrome" := {["b1"]} ]}.

(** Two workers, three free chromes. *)
Definition three_free_sets : gmap string (gset string) :=
  {[ WorkersSet := {["w1"; "w2"]};
     free_key RedisPrefix "w1" "chrome" := {["b1"]};
     free_key RedisPrefix "w2" "chrome" := {["b2"; "b3"]} ]}.

(** A client holding [b1] of [w1], video on, nothing sent yet. *)
Definition filming : Client.t :=
  Client.mkClient (Some (Client.mkSession "b1" "w1" "chrome" true false ""))
                  (Some ∅) "" "" false.

(** A client holding [b1] of [w1], no flags. *)
Definition plain : Client.t :=
  Client.mkClient (Some (Client.mkSession "b1" "w1" "chrome" false false ""))
                  (Some ∅) "" "" false.

Definition recording : BrowserClient.t :=
  BrowserClient.mkClient (Some (BrowserClient.mkSession "b1" "w1" "chrome" false)) "" None.

(** Nobody answers: every pop and read runs into its timeout. *)
Definition quiet_world : World := world_of one_free_sets [].

(** The store serves two calls and fails the third. *)
Definition lost_world : World :=
  world_of one_free_sets
    [Served; Served; Failed (redis_failure "connection reset by peer")].

(** The store serves two calls, then a worker answers the pop. *)
Definition answering_world : World :=
  world_of one_free_sets
    [Served; Served; Answered ["ISOAUTOMATE:result:5f2b9c1e"; "ok"]].

(** The store fails four calls in a row. *)
Definition failing_world : World :=
  world_of one_free_sets
    [Failed (redis_failure "i/o timeout"); Failed (redis_failure "i/o timeout");
     Failed (redis_failure "i/o timeout"); Failed (redis_failure "i/o timeout")].

Definition four_callers : list client_caller :=
  replicate 4 (Client.fresh, false, Client.profile_nil, false).
Definition two_browsers : list browser_caller :=
  replicate 2 (BrowserClient.fresh, false).

(** Four callers taking turns, five store calls each. *)
Definition round_robin : list nat := concat (replicate 5 [0; 1; 2; 3]%nat).

(** A machine whose file system accepts everything, with base64 read as
    the bytes themselves and an environment file that adds nothing. *)
Definition sample_platform : Platform := {|
  base64_DecodeString s :=
    if bool_decide (s = "!") then inr (errors_New "illegal base64 data at input byte 0")
    else inl s;
  time_Format layout t := "120000";
  filepath_Join a b := a +:+ "/" +:+ b;
  filepath_Dir p := ".";
  filepath_Abs p := "/home/user/" +:+ p;
  os_Getwd := "/home/user";
  os_MkdirAll d := None;
  os_WriteFile_error p := None;
  strconv_Atoi s :=
    if bool_decide (s = "3") then (3, None) else (0, Some (errors_New "invalid syntax"));
  redis_ParseURL url := inr (errors_New "redis: invalid URL scheme");
  godotenv_Load path env w := env;
  godotenv_Overload path env w := env
|}.

(** A host is given; the database and TLS are left to the environment. *)
Definition sample_config : Config := mkConfig "" "cache.internal" "" "" 0 false "".
Definition sample_env : gmap string string :=
  {[ "REDIS_HOST" := "localhost"; "REDIS_DB" := "3"; "REDIS_SSL" := "1" ]}.

(** The answer to the first task is already stored. *)
Definition answered_world : World :=
  mkWorld one_free_sets ∅ {[ "ISOAUTOMATE:result:5f2b9c1e" := "ok" ]} [] [] 0 0 [] ∅.

(** * Supporting facts *)

(** One turn of the loop of [executeWithRetry]. *)
Lemma retry_loop_step {X : Type} (op : X -> World -> World * (X * option error))
    (attempt : nat) (x : X) (w : World) :
  Client.retry_loop op attempt x w =
  match op x w with
  | (w1, (x1, None)) => (w1, (x1, None))
  | (w1, (x1, Some err)) =>
      if decide (err ≠ redis_Nil ∧ (attempt < Client.maxAttempts)%nat)
      then Client.retry_loop op (S attempt) x1
             (time_Sleep (Client.backoff (S attempt)) w1)
      else (w1, (x1, Some err))
  end.
Proof.
  rewrite Client.retry_loop_equation_1.
  destruct (op x w) as [w1 [x1 [err|]]]; simpl; [|reflexivity].
  destruct (decide _); reflexivity.
Qed.

(** Whatever the closure and the sleeps preserve, the wrapper preserves. *)
Lemma retry_loop_preserves {X : Type} (R : World -> World -> Prop)
    (op : X -> World -> World * (X * option error)) :
  (forall w, R w w) ->
  (forall w1 w2 w3, R w1 w2 -> R w2 w3 -> R w1 w3) ->
  (forall x w, R w (op x w).1) ->
  (forall d w, R w (time_Sleep d w)) ->
  forall attempt x w, R w (Client.retry_loop op attempt x w).1.
Proof.
  intros Hrefl Htrans Hop Hsleep attempt.
  remember (Client.maxAttempts - attempt)%nat as k eqn:Hk.
  revert attempt Hk. induction k as [|k IH]; intros attempt Hk x w;
    rewrite retry_loop_step; pose proof (Hop x w) as Hstep;
    destruct (op x w) as [w1 [x1 [err|]]]; simpl in Hstep; try exact Hstep;
    destruct (decide _) as [[_ Hlt]|_]; try exact Hstep.
  - lia.
  - eapply Htrans; [exact Hstep|]. eapply Htrans; [apply Hsleep|].
    apply IH. lia.
Qed.

Lemma backoff_values :
  Client.backoff 1 = 200 * Millisecond ∧ Client.backoff 2 = 400 * Millisecond
  ∧ Client.backoff 3 = 800 * Millisecond.
Proof. repeat split; reflexivity. Qed.

Lemma retry_loop_attempts {X : Type} (op : X -> World -> World * (X * option error))
    (attempt : nat) (x : X) (w : World) :
  (attempt <= Client.maxAttempts)%nat ->
  last (attempts_from op (drop attempt policy_delays) x w)
  = Some (Client.retry_loop op attempt x w).
Proof.
  unfold Client.maxAttempts. intros Hle.
  remember (3 - attempt)%nat as k eqn:Hk.
  revert attempt Hle Hk x w. induction k as [|k IH]; intros attempt Hle Hk x w.
  - assert (attempt = 3%nat) as -> by lia. simpl.
    rewrite retry_loop_step. destruct (op x w) as [w1 [x1 [e|]]]; simpl; [|reflexivity].
    destruct (decide _) as [[_ Hlt]|_]; [unfold Client.maxAttempts in Hlt; lia|reflexivity].
  - rewrite retry_loop_step.
    assert (exists d, drop attempt policy_delays = d :: drop (S attempt) policy_delays
                      ∧ d = Client.backoff (S attempt)) as (d & -> & ->).
    { destruct attempt as [|[|[|?]]]; try lia; eexists; split; reflexivity. }
    cbn [attempts_from].
    destruct (op x w) as [w1 [x1 [e|]]]; [|reflexivity].
    destruct (decide (e = redis_Nil)) as [->|Hne].
    + destruct (decide _) as [[Hn _]|_]; [congruence|reflexivity].
    + destruct (decide _) as [_|Hn].
      * rewrite <- IH by lia.
        destruct (attempts_from op _ x1 _) eqn:E; [|reflexivity].
        destruct (drop (S attempt) policy_delays); simpl in E; discriminate.
      * exfalso. apply Hn. unfold Client.maxAttempts. split; [exact Hne|lia].
Qed.

Lemma attempts_from_length {X : Type} (op : X -> World -> World * (X * option error))
    (delays : list Z) (x : X) (w : World) :
  (1 <= length (attempts_from op delays x w) <= S (length delays))%nat.
Proof.
  revert x w. induction delays as [|d ds IH]; intros x w; simpl.
  - destruct (op x w) as [w1 [x1 [e|]]]; simpl; lia.
  - destruct (op x w) as [w1 [x1 [e|]]]; simpl; [|lia].
    destruct (decide _); simpl; [lia|]. specialize (IH x1 (time_Sleep d w1)). lia.
Qed.

(** Every attempt that is followed by another one failed, and not with
    [redis.Nil]. *)
Lemma attempts_from_retried {X : Type} (op : X -> World -> World * (X * option error))
    (delays : list Z) (x : X) (w : World) (i : nat) (r : World * (X * option error)) :
  attempts_from op delays x w !! i = Some r ->
  (S i < length (attempts_from op delays x w))%nat ->
  exists e, r.2.2 = Some e ∧ e ≠ redis_Nil.
Proof.
  revert delays x w. induction i as [|i IH]; intros delays x w.
  - destruct delays as [|d ds]; simpl;
      destruct (op x w) as [w1 [x1 [e|]]]; simpl; try lia.
    destruct (decide _); simpl; [lia|]. intros [= <-] _. eauto.
  - destruct delays as [|d ds]; simpl;
      destruct (op x w) as [w1 [x1 [e|]]]; simpl; try done.
    destruct (decide _); simpl; [done|]. intros Hr Hlen.
    apply (IH ds x1 (time_Sleep d w1)); [exact Hr|lia].
Qed.

(** The last attempt is the only one that can have succeeded or met
    [redis.Nil]. *)
Lemma attempts_from_final {X : Type} (op : X -> World -> World * (X * option error))
    (delays : list Z) (x : X) (w : World) (r : World * (X * option error)) :
  r ∈ attempts_from op delays x w ->
  r.2.2 = None ∨ r.2.2 = Some redis_Nil ->
  last (attempts_from op delays x w) = Some r.
Proof.
  intros [i Hi]%list_elem_of_lookup Hr.
  destruct (decide (S i < length (attempts_from op delays x w))%nat) as [Hlt|Hge].
  - destruct (attempts_from_retried op delays x w i r Hi Hlt) as (e & He & Hne).
    destruct Hr as [Hr|Hr]; rewrite He in Hr; congruence.
  - pose proof (lookup_lt_Some _ _ _ Hi) as Hlen.
    rewrite last_lookup.
    replace (Init.Nat.pred (length (attempts_from op delays x w))) with i by lia.
    exact Hi.
Qed.

Lemma attempts_from_all_failing {X : Type} (op : X -> World -> World * (X * option error))
    (delays : list Z) (x : X) (w : World) :
  Forall (fun r => exists e, r.2.2 = Some e ∧ e ≠ redis_Nil) (attempts_from op delays x w) ->
  length (attempts_from op delays x w) = S (length delays).
Proof.
  revert x w. induction delays as [|d ds IH]; intros x w; simpl.
  - destruct (op x w) as [w1 [x1 [e|]]]; reflexivity.
  - destruct (op x w) as [w1 [x1 [e|]]]; simpl.
    + destruct (decide _) as [->|Hne].
      * intros Hall. apply Forall_cons in Hall as [(e & [= <-] & Hne) _]. done.
      * intros Hall. apply Forall_cons in Hall as [_ Hall]. rewrite (IH _ _ Hall). done.
    + intros Hall. apply Forall_cons in Hall as [(e & ? & _) _]. done.
Qed.

Ltac retry_turn :=
  rewrite retry_loop_step;
  unfold Client.push_op, Client.pop_op, RPush, BLPop, next_reply, emit, set_replies;
  simpl;
  try (destruct (decide _) as [_|?Hn];
       [|exfalso; apply Hn; unfold Client.maxAttempts; split; [assumption|lia]]).

(** Four failures in a row: three sleeps, then the fourth error is returned. *)
Lemma push_four_failures (queue data : string) (w : World) (e1 e2 e3 e4 : error)
    (rest : list reply) :
  replies w = Failed e1 :: Failed e2 :: Failed e3 :: Failed e4 :: rest ->
  e1 ≠ redis_Nil -> e2 ≠ redis_Nil -> e3 ≠ redis_Nil ->
  exists w',
    Client.executeWithRetry (Client.push_op queue data) tt w = (w', (tt, Some e4))
    ∧ trace w' = trace w ++
        [EvRPush queue data; EvSleep (200 * Millisecond);
         EvRPush queue data; EvSleep (400 * Millisecond);
         EvRPush queue data; EvSleep (800 * Millisecond);
         EvRPush queue data]
    ∧ clock w' = clock w + 1400 * Millisecond
    ∧ replies w' = rest.
Proof.
  intros Hr H1 H2 H3. unfold Client.executeWithRetry.
  destruct w as [ss ls st rs rn uu cl tr fs]. simpl in Hr. subst rs.
  do 4 retry_turn.
  destruct (decide _) as [[_ Hlt]|_]; [unfold Client.maxAttempts in Hlt; lia|].
  eexists. split; [reflexivity|]. simpl.
  split; [rewrite <- !app_assoc; reflexivity|].
  split; [unfold Client.backoff, Millisecond; lia|reflexivity].
Qed.

Lemma pop_four_failures (key : string) (timeout : Z) (w : World) (e1 e2 e3 e4 : error)
    (rest : list reply) :
  replies w = Failed e1 :: Failed e2 :: Failed e3 :: Failed e4 :: rest ->
  e1 ≠ redis_Nil -> e2 ≠ redis_Nil -> e3 ≠ redis_Nil ->
  exists w',
    Client.executeWithRetry (Client.pop_op key timeout) [] w = (w', ([], Some e4))
    ∧ trace w' = trace w ++
        [EvBLPop key timeout; EvSleep (200 * Millisecond);
         EvBLPop key timeout; EvSleep (400 * Millisecond);
         EvBLPop key timeout; EvSleep (800 * Millisecond);
         EvBLPop key timeout]
    ∧ clock w' = clock w + 1400 * Millisecond
    ∧ replies w' = rest.
Proof.
  intros Hr H1 H2 H3. unfold Client.executeWithRetry.
  destruct w as [ss ls st rs rn uu cl tr fs]. simpl in Hr. subst rs.
  do 4 retry_turn.
  destruct (decide _) as [[_ Hlt]|_]; [unfold Client.maxAttempts in Hlt; lia|].
  eexists. split; [reflexivity|]. simpl.
  split; [rewrite <- !app_assoc; reflexivity|].
  split; [unfold Client.backoff, Millisecond; lia|reflexivity].
Qed.

Lemma grows_refl w : grows w w.
Proof. unfold grows. reflexivity. Qed.

Lemma grows_trans w1 w2 w3 : grows w1 w2 -> grows w2 w3 -> grows w1 w3.
Proof. unfold grows. intros. etrans; eassumption. Qed.

Lemma grows_sleep d w : grows w (time_Sleep d w).
Proof. unfold grows, time_Sleep, emit; simpl. apply prefix_app_r. reflexivity. Qed.

Lemma RPush_trace queue data w :
  trace (RPush queue data w).1 = trace w ++ [EvRPush queue data].
Proof.
  unfold RPush, next_reply, emit, set_replies, set_lists.
  repeat case_match; simplify_eq; reflexivity.
Qed.

Lemma BLPop_trace key timeout w :
  trace (BLPop key timeout w).1 = trace w ++ [EvBLPop key timeout].
Proof.
  unfold BLPop, next_reply, emit, set_replies, set_lists, set_clock.
  repeat case_match; simplify_eq; reflexivity.
Qed.

Lemma push_op_grows queue data x w : grows w (Client.push_op queue data x w).1.
Proof.
  unfold Client.push_op. pose proof (RPush_trace queue data w) as Ht.
  destruct (RPush queue data w) as [w1 err]. unfold grows. simpl in *.
  rewrite Ht. apply prefix_app_r. reflexivity.
Qed.

Lemma pop_op_grows key timeout x w : grows w (Client.pop_op key timeout x w).1.
Proof.
  unfold Client.pop_op, grows. rewrite BLPop_trace. apply prefix_app_r. reflexivity.
Qed.

Lemma retry_loop_grows {X : Type} (op : X -> World -> World * (X * option error))
    (attempt : nat) (x : X) (w : World) :
  (forall x w, grows w (op x w).1) ->
  grows w (Client.retry_loop op attempt x w).1.
Proof.
  intros Hop.
  apply (retry_loop_preserves grows);
    [apply grows_refl|apply grows_trans|exact Hop|apply grows_sleep].
Qed.

(** The first thing the push wrapper does is the push. *)
Lemma push_first_event queue data w :
  (trace w ++ [EvRPush queue data])
    `prefix_of` trace (Client.executeWithRetry (Client.push_op queue data) tt w).1.
Proof.
  unfold Client.executeWithRetry. rewrite retry_loop_step.
  unfold Client.push_op at 1. pose proof (RPush_trace queue data w) as Ht.
  destruct (RPush queue data w) as [w1 [e|]]; simpl in *; rewrite <- Ht;
    [|reflexivity].
  destruct (decide _); [|reflexivity].
  etrans; [|apply retry_loop_grows, push_op_grows].
  apply grows_sleep.
Qed.

Lemma chars_app (s1 s2 : string) : chars (s1 +:+ s2) = chars s1 ++ chars s2.
Proof. induction s1 as [|a s1 IH]; simpl; [reflexivity|]. unfold chars in *. simpl. by rewrite IH. Qed.

Lemma chars_inj (s1 s2 : string) : chars s1 = chars s2 -> s1 = s2.
Proof.
  intros Heq. rewrite <- (String.string_of_list_ascii_of_string s1),
    <- (String.string_of_list_ascii_of_string s2). unfold chars in Heq. by rewrite Heq.
Qed.

Lemma append_assoc (s1 s2 s3 : string) : (s1 +:+ s2) +:+ s3 = s1 +:+ s2 +:+ s3.
Proof. apply chars_inj. rewrite !chars_app. by rewrite app_assoc. Qed.

(** Two strings with endings of the same length are equal only if both
    the fronts and the endings are. *)
Lemma append_inj_ending (s1 s2 e1 e2 : string) :
  length (chars e1) = length (chars e2) ->
  s1 +:+ e1 = s2 +:+ e2 -> s1 = s2 ∧ e1 = e2.
Proof.
  intros Hlen Heq. apply (f_equal chars) in Heq. rewrite !chars_app in Heq.
  apply app_inj_2 in Heq as [? ?]; [|exact Hlen]. split; by apply chars_inj.
Qed.

Lemma free_key_split prefix worker ty :
  free_key prefix worker ty = (prefix +:+ worker +:+ ":" +:+ ty) +:+ ":free".
Proof. unfold free_key. by rewrite !append_assoc. Qed.

Lemma busy_key_split prefix worker ty :
  busy_key prefix worker ty = (prefix +:+ worker +:+ ":" +:+ ty) +:+ ":busy".
Proof. unfold busy_key. by rewrite !append_assoc. Qed.

Lemma free_key_inj prefix ty worker1 worker2 :
  free_key prefix worker1 ty = free_key prefix worker2 ty -> worker1 = worker2.
Proof.
  unfold free_key. intros Heq%(inj (String.app prefix)).
  by apply append_inj_ending in Heq as [? _].
Qed.

Lemma busy_key_inj prefix ty worker1 worker2 :
  busy_key prefix worker1 ty = busy_key prefix worker2 ty -> worker1 = worker2.
Proof.
  unfold busy_key. intros Heq%(inj (String.app prefix)).
  by apply append_inj_ending in Heq as [? _].
Qed.

Lemma free_key_not_busy prefix1 worker1 ty1 prefix2 worker2 ty2 :
  free_key prefix1 worker1 ty1 ≠ busy_key prefix2 worker2 ty2.
Proof.
  rewrite free_key_split, busy_key_split.
  intros Heq. by apply append_inj_ending in Heq as [_ ?].
Qed.

Lemma free_key_not_workers worker ty : free_key RedisPrefix worker ty ≠ WorkersSet.
Proof.
  rewrite free_key_split.
  change WorkersSet with ("ISOAUTOMATE:wo" +:+ "rkers").
  intros Heq. by apply append_inj_ending in Heq as [_ ?].
Qed.

Lemma busy_key_not_workers worker ty : busy_key RedisPrefix worker ty ≠ WorkersSet.
Proof.
  rewrite busy_key_split.
  change WorkersSet with ("ISOAUTOMATE:wo" +:+ "rkers").
  intros Heq. by apply append_inj_ending in Heq as [_ ?].
Qed.

Lemma delete_insert_same {A : Type} (l : list A) (j : nat) (x : A) :
  delete j (<[j:=x]> l) = delete j l.
Proof. revert j. induction l as [|a l IH]; intros [|j]; simpl; f_equal; auto. Qed.

Lemma swap_Permutation (i j : nat) (l : list string) : swap i j l ≡ₚ l.
Proof.
  unfold swap. destruct (l !! i) as [x|] eqn:Hi; [|reflexivity].
  destruct (l !! j) as [y|] eqn:Hj; [|reflexivity].
  destruct (decide (i = j)) as [->|Hne].
  { assert (x = y) as -> by congruence.
    rewrite list_insert_insert_eq. by rewrite list_insert_id. }
  assert (<[j:=x]> l !! i = Some x) as Hi' by (by rewrite list_lookup_insert_ne).
  pose proof (lookup_lt_Some _ _ _ Hi) as Hli.
  pose proof (lookup_lt_Some _ _ _ Hj) as Hlj.
  (* both lists are the same multiset: compare through deletions *)
  assert (l ≡ₚ y :: delete j l) as H1 by (by apply delete_Permutation).
  assert (<[j:=x]> l ≡ₚ x :: delete j l) as H2.
  { etrans; [apply (delete_Permutation _ j x); by apply list_lookup_insert_eq|].
    by rewrite delete_insert_same. }
  assert (<[j:=x]> l ≡ₚ x :: delete i (<[j:=x]> l)) as H3 by (by apply delete_Permutation).
  assert (<[i:=y]> (<[j:=x]> l) ≡ₚ y :: delete i (<[j:=x]> l)) as H4.
  { etrans; [apply (delete_Permutation _ i y); apply list_lookup_insert_eq;
             by rewrite length_insert|].
    by rewrite delete_insert_same. }
  etrans; [exact H4|]. etrans; [|symmetry; exact H1]. constructor.
  apply (Permutation_cons_inv (a := x)).
  etrans; [symmetry; exact H3|exact H2].
Qed.

Lemma shuffle_from_unfold (i : nat) (workers : list string) (w : World) :
  shuffle_from (S (S i)) workers w
  = let '(r, w1) := draw w in
    shuffle_from (S i) (swap (S (S i) - 1) (S (r mod S (S i))%nat - 1) workers) w1.
Proof. reflexivity. Qed.

(** Only the random source is used up. *)
Lemma draw_world (w : World) : (draw w).2 = set_rng (rng (draw w).2) w.
Proof. unfold draw. destruct w as [? ? ? ? [|r rs] ? ? ? ?]; reflexivity. Qed.

Lemma shuffle_from_spec (i : nat) (workers : list string) (w : World) :
  (shuffle_from i workers w).1 ≡ₚ workers
  ∧ (shuffle_from i workers w).2 = set_rng (rng (shuffle_from i workers w).2) w.
Proof.
  revert workers w. induction i as [|i IH]; intros workers w.
  { split; [done|]. by destruct w. }
  destruct i as [|i]. { split; [done|]. by destruct w. }
  rewrite shuffle_from_unfold.
  pose proof (draw_world w) as Hd. destruct (draw w) as [r w1]. simpl in Hd.
  match goal with
  | |- context [shuffle_from (S i) ?l ?w'] => destruct (IH l w') as [IH1 IH2]
  end.
  split; [etrans; [exact IH1|apply swap_Permutation]|].
  rewrite IH2 at 1. rewrite Hd. reflexivity.
Qed.

Lemma shuffle_spec (workers : list string) (w : World) :
  (shuffle workers w).1 ≡ₚ workers
  ∧ (shuffle workers w).2 = set_rng (rng (shuffle workers w).2) w.
Proof. apply shuffle_from_spec. Qed.

Lemma pick_spec (s : gset string) (w : World) :
  (pick s w).2 = set_rng (rng (pick s w).2) w
  ∧ match (pick s w).1 with
    | Some x => x ∈ s
    | None => s = ∅
    end.
Proof.
  unfold pick. destruct (elements s) as [|m ms] eqn:Hel.
  { split; [by destruct w|]. by apply elements_empty_inv in Hel as ->%leibniz_equiv. }
  pose proof (draw_world w) as Hd. destruct (draw w) as [r w1].
  cbn [fst snd] in *. split; [exact Hd|].
  destruct (lookup_lt_is_Some_2 (m :: ms) (r `mod` length (m :: ms))%nat) as [x Hx].
  { apply Nat.mod_upper_bound. simpl. lia. }
  rewrite Hx. apply elem_of_elements. rewrite Hel. eapply list_elem_of_lookup_2, Hx.
Qed.

Lemma spop_spec (key : string) (w : World) :
  match spop key w with
  | (Some x, w') =>
      x ∈ smembers key w
      ∧ w' = set_rng (rng w') (set_sets (<[key := smembers key w ∖ {[x]}]> (sets w)) w)
  | (None, w') => smembers key w = ∅ ∧ w' = w
  end.
Proof.
  unfold spop. pose proof (pick_spec (smembers key w) w) as [Hw Hx].
  destruct (pick (smembers key w) w) as [[x|] w1] eqn:Hp; simpl in *.
  - split; [exact Hx|]. rewrite Hw. reflexivity.
  - split; [exact Hx|]. unfold pick in Hp. rewrite Hx, elements_empty in Hp. congruence.
Qed.

Lemma claim_first_spec (prefix ty : string) (workers : list string) (w : World) :
  match Client.claim_first prefix ty workers w with
  | (None, w') =>
      w' = w ∧ forall worker, worker ∈ workers -> smembers (free_key prefix worker ty) w = ∅
  | (Some res, w') =>
      exists worker bid,
        res = [worker; bid] ∧ worker ∈ workers
        ∧ bid ∈ smembers (free_key prefix worker ty) w
        ∧ w' = set_rng (rng w') (set_sets (moved prefix ty worker bid (sets w)) w)
  end.
Proof.
  induction workers as [|worker rest IH]; simpl.
  { split; [done|]. intros ? ?%elem_of_nil. done. }
  pose proof (spop_spec (free_key prefix worker ty) w) as Hpop.
  destruct (spop (free_key prefix worker ty) w) as [[bid|] w1].
  - destruct Hpop as [Hin Hw1]. exists worker, bid.
    split; [done|]. split; [apply list_elem_of_here|]. split; [done|].
    rewrite Hw1. unfold sadd, moved, smembers, set_sets, set_rng; simpl.
    rewrite lookup_total_insert_ne by apply free_key_not_busy. reflexivity.
  - destruct Hpop as [Hempty ->].
    destruct (Client.claim_first prefix ty rest w) as [[res|] w'].
    + destruct IH as (worker' & bid & -> & Hin & Hbid & Hw').
      exists worker', bid. split; [done|]. split; [by apply list_elem_of_further|]. done.
    + destruct IH as [-> IH]. split; [done|].
      intros worker' [->|Hin]%elem_of_cons; [done|]. by apply IH.
Qed.

Lemma luaScript_spec (ty : string) (w : World) :
  match Client.luaScript [WorkersSet] [RedisPrefix; ty] w with
  | (None, w') =>
      w' = set_rng (rng w') w
      ∧ forall worker, worker ∈ pool w -> free_of ty worker w = ∅
  | (Some res, w') =>
      exists worker bid,
        res = [worker; bid] ∧ worker ∈ pool w ∧ bid ∈ free_of ty worker w
        ∧ w' = set_rng (rng w') (set_sets (moved RedisPrefix ty worker bid (sets w)) w)
  end.
Proof.
  unfold Client.luaScript.
  pose proof (shuffle_spec (elements (smembers WorkersSet w)) w) as [Hperm Hw1].
  destruct (shuffle (elements (smembers WorkersSet w)) w) as [workers w1].
  simpl in Hperm, Hw1.
  pose proof (claim_first_spec RedisPrefix ty workers w1) as Hclaim.
  destruct (Client.claim_first RedisPrefix ty workers w1) as [[res|] w'].
  - destruct Hclaim as (worker & bid & -> & Hin & Hbid & Hw').
    exists worker, bid. split; [done|].
    split; [unfold pool; by rewrite <- Hperm|].
    split; [rewrite Hw1 in Hbid; exact Hbid|].
    rewrite Hw'. rewrite Hw1. reflexivity.
  - destruct Hclaim as [-> Hempty]. split; [exact Hw1|].
    intros worker Hin. unfold pool in Hin. rewrite <- Hperm in Hin.
    specialize (Hempty worker Hin). rewrite Hw1 in Hempty. exact Hempty.
Qed.

Section Moved.
Variables (ty worker bid : string) (w w' : World).
Hypothesis Hsets : sets w' = moved RedisPrefix ty worker bid (sets w).

Lemma moved_pool : pool w' = pool w.
Proof.
  unfold pool, smembers. rewrite Hsets. unfold moved.
  rewrite lookup_total_insert_ne by apply busy_key_not_workers.
  rewrite lookup_total_insert_ne by apply free_key_not_workers. reflexivity.
Qed.

Lemma moved_free (worker' : string) :
  free_of ty worker' w'
  = if decide (worker' = worker) then free_of ty worker w ∖ {[bid]}
    else free_of ty worker' w.
Proof.
  unfold free_of, smembers. rewrite Hsets. unfold moved.
  rewrite lookup_total_insert_ne by (apply not_eq_sym, free_key_not_busy).
  destruct (decide (worker' = worker)) as [->|Hne].
  - by rewrite lookup_total_insert_eq.
  - rewrite lookup_total_insert_ne; [done|]. intros Heq%free_key_inj. done.
Qed.

Lemma moved_busy (worker' : string) :
  busy_of ty worker' w'
  = if decide (worker' = worker) then busy_of ty worker w ∪ {[bid]}
    else busy_of ty worker' w.
Proof.
  unfold busy_of, smembers. rewrite Hsets. unfold moved.
  destruct (decide (worker' = worker)) as [->|Hne].
  - by rewrite lookup_total_insert_eq.
  - rewrite lookup_total_insert_ne; [|intros Heq%busy_key_inj; done].
    rewrite lookup_total_insert_ne; [done|]. apply free_key_not_busy.
Qed.
End Moved.

Lemma sum_list_one_less (f g : string -> nat) (l : list string) (a : string) :
  NoDup l -> a ∈ l -> S (g a) = f a ->
  (forall b, b ≠ a -> g b = f b) ->
  S (sum_list (g <$> l)) = sum_list (f <$> l).
Proof.
  intros Hnd Hin Ha Hother. induction Hnd as [|b l Hb Hnd IH]; [by apply elem_of_nil in Hin|].
  simpl. apply elem_of_cons in Hin as [<-|Hin].
  - rewrite <- Ha.
    assert (list_fmap string nat g l = list_fmap string nat f l) as ->; [|lia].
    apply list_fmap_ext. intros i b Hb'. apply Hother.
    intros ->. apply Hb. eapply list_elem_of_lookup_2, Hb'.
  - rewrite (Hother b) by (intros ->; done). specialize (IH Hin).
    change (list_fmap string nat g l) with (g <$> l).
    change (list_fmap string nat f l) with (f <$> l). lia.
Qed.

Lemma moved_free_total (ty worker bid : string) (w w' : World) :
  sets w' = moved RedisPrefix ty worker bid (sets w) ->
  worker ∈ pool w -> bid ∈ free_of ty worker w ->
  S (free_total ty w') = free_total ty w.
Proof.
  intros Hsets Hin Hbid. unfold free_total.
  rewrite (moved_pool ty worker bid w w' Hsets).
  apply (sum_list_one_less _ _ _ worker).
  - apply (NoDup_elements (smembers WorkersSet w)).
  - exact Hin.
  - rewrite (moved_free ty worker bid w w' Hsets), decide_True by done.
    rewrite size_difference by (by apply singleton_subseteq_l).
    rewrite size_singleton.
    assert (size (free_of ty worker w) ≠ 0%nat); [|lia].
    intros Hz%size_empty_inv. set_solver.
  - intros b Hne. by rewrite (moved_free ty worker bid w w' Hsets), decide_False.
Qed.

Lemma free_total_zero (ty : string) (w : World) :
  (forall worker, worker ∈ pool w -> free_of ty worker w = ∅) <-> free_total ty w = 0%nat.
Proof.
  unfold free_total. induction (pool w) as [|a l IH]; simpl.
  { split; [done|]. intros _ ? ?%elem_of_nil. done. }
  split.
  - intros Hall. rewrite (Hall a) by apply list_elem_of_here. rewrite size_empty.
    simpl. apply IH. intros ? ?. apply Hall. by apply list_elem_of_further.
  - intros [Ha Hl]%Nat.eq_add_0 worker [->|Hin]%elem_of_cons.
    + by apply leibniz_equiv, size_empty_inv.
    + by apply IH.
Qed.

Lemma tail_suffix {A : Type} (l : list A) : tail l `suffix_of` l.
Proof. destruct l; [reflexivity|]. by apply suffix_cons_r. Qed.

Lemma settled_refl w : settled w w.
Proof. by repeat split. Qed.

Lemma settled_trans w1 w2 w3 : settled w1 w2 -> settled w2 w3 -> settled w1 w3.
Proof.
  intros (? & ? & ?) (? & ? & ?). repeat split; try congruence. by etrans.
Qed.

Lemma settled_no_faults w w' : settled w w' -> no_faults w -> no_faults w'.
Proof.
  intros (_ & _ & [k Hk]) Hnf. unfold no_faults in *. rewrite Hk in Hnf.
  by apply Forall_app in Hnf as [_ ?].
Qed.

Lemma next_reply_settled w : settled w (next_reply w).2.
Proof.
  unfold next_reply. destruct (replies w) as [|r rs] eqn:Hr; [apply settled_refl|].
  repeat split; simpl. rewrite Hr. by apply suffix_cons_r.
Qed.

Lemma settled_sleep d w : settled w (time_Sleep d w).
Proof. by repeat split. Qed.

Lemma RPush_settled queue data w : settled w (RPush queue data w).1.
Proof.
  unfold RPush. pose proof (next_reply_settled (emit (EvRPush queue data) w)) as Hn.
  destruct (next_reply _) as [r w1]. destruct r; exact Hn.
Qed.

Lemma BLPop_settled key timeout w : settled w (BLPop key timeout w).1.
Proof.
  unfold BLPop. pose proof (next_reply_settled (emit (EvBLPop key timeout) w)) as Hn.
  destruct (next_reply _) as [r w1]. destruct r; try exact Hn.
  destruct (lists w1 !!! key); exact Hn.
Qed.

Lemma push_op_settled queue data x w : settled w (Client.push_op queue data x w).1.
Proof.
  unfold Client.push_op. pose proof (RPush_settled queue data w) as Hs.
  destruct (RPush queue data w) as [w1 err]. exact Hs.
Qed.

Lemma pop_op_settled key timeout x w : settled w (Client.pop_op key timeout x w).1.
Proof. apply BLPop_settled. Qed.

Lemma retry_loop_settled {X : Type} (op : X -> World -> World * (X * option error))
    (attempt : nat) (x : X) (w : World) :
  (forall x w, settled w (op x w).1) ->
  settled w (Client.retry_loop op attempt x w).1.
Proof.
  intros Hop.
  apply (retry_loop_preserves settled);
    [apply settled_refl|apply settled_trans|exact Hop|apply settled_sleep].
Qed.

Lemma pool_sets w1 w2 : sets w1 = sets w2 -> pool w1 = pool w2.
Proof. unfold pool, smembers. by intros ->. Qed.

Lemma free_of_sets ty worker w1 w2 :
  sets w1 = sets w2 -> free_of ty worker w1 = free_of ty worker w2.
Proof. unfold free_of, smembers. by intros ->. Qed.

Lemma busy_of_sets ty worker w1 w2 :
  sets w1 = sets w2 -> busy_of ty worker w1 = busy_of ty worker w2.
Proof. unfold busy_of, smembers. by intros ->. Qed.

Lemma free_total_sets ty w1 w2 : sets w1 = sets w2 -> free_total ty w1 = free_total ty w2.
Proof.
  intros Hs. unfold free_total. rewrite (pool_sets _ _ Hs).
  apply (f_equal sum_list), list_fmap_ext. intros ? worker _. f_equal.
  by apply free_of_sets.
Qed.


Lemma next_reply_emit e w : next_reply (emit e w) = (verdict w, after e w).
Proof.
  unfold next_reply, verdict, after, emit, set_replies.
  destruct w as [? ? ? [|r rs] ? ? ? ? ?]; reflexivity.
Qed.

Lemma after_settled e w : settled w (after e w).
Proof. repeat split. apply tail_suffix. Qed.

Lemma no_faults_verdict w : no_faults w -> forall e, verdict w ≠ Failed e.
Proof.
  unfold no_faults, verdict. destruct (replies w) as [|r rs]; [done|].
  intros [Hr _]%Forall_cons. exact Hr.
Qed.

Lemma suffix_no_faults w w' :
  replies w' `suffix_of` replies w -> no_faults w -> no_faults w'.
Proof.
  intros [k Hk] Hnf. unfold no_faults in *. rewrite Hk in Hnf.
  by apply Forall_app in Hnf as [_ ?].
Qed.

Section Rounds.
Context {A R : Type}.
Variable step : A -> World -> R * World.
Variable claim : R -> option (string * string).
Variable refused : list string -> R -> Prop.
Variable ty : string.

(** One caller either finds every free set of the pool empty and is
    refused, or moves one instance from free to busy. *)
Hypothesis step_spec : forall a w,
  no_faults w ->
  let '(r, w') := step a w in
  no_faults w'
  ∧ ((claim r = None ∧ refused (pool w) r ∧ sets w' = sets w ∧ free_total ty w = 0%nat)
     ∨ (exists worker bid,
          claim r = Some (worker, bid) ∧ worker ∈ pool w ∧ bid ∈ free_of ty worker w
          ∧ sets w' = moved RedisPrefix ty worker bid (sets w))).

Lemma each_spec callers w :
  no_faults w ->
  let '(rs, w') := each step callers w in
  no_faults w'
  ∧ pool w' = pool w
  ∧ length (omap claim rs) = Nat.min (length callers) (free_total ty w)
  ∧ NoDup (omap claim rs)
  ∧ Forall (fun r => is_Some (claim r) ∨ refused (pool w) r) rs
  ∧ (forall worker bid, (worker, bid) ∈ omap claim rs ->
       worker ∈ pool w ∧ bid ∈ free_of ty worker w
       ∧ (bid ∉ free_of ty worker w') ∧ bid ∈ busy_of ty worker w')
  ∧ (forall worker, free_of ty worker w' ⊆ free_of ty worker w
                    ∧ busy_of ty worker w ⊆ busy_of ty worker w')
  ∧ (forall worker, free_of ty worker w' ∪ busy_of ty worker w'
                    = free_of ty worker w ∪ busy_of ty worker w).
Proof.
  revert w. induction callers as [|a rest IH]; intros w Hnf.
  { cbn [each]. split; [done|]. split; [done|]. split; [done|].
    split; [constructor|]. split; [constructor|].
    split; [intros ? ? ?%elem_of_nil; done|]. done. }
  cbn [each].
  pose proof (step_spec a w Hnf) as Hstep.
  destruct (step a w) as [r w1]. destruct Hstep as [Hnf1 Hstep].
  specialize (IH w1 Hnf1).
  destruct (each step rest w1) as [rs w2].
  destruct IH as (Hnf2 & Hpool & Hlen & Hnd & Hall & Hmem & Hmono & Hunion).
  cbn [omap list_omap]. fold (omap claim rs).
  destruct Hstep as [(Hr & Href & Hs1 & Hzero)|(worker & bid & Hr & Hin & Hbid & Hs1)];
    rewrite Hr.
  - (* nothing was free *)
    rewrite (free_total_sets ty w1 w Hs1) in *.
    rewrite (pool_sets w1 w Hs1) in *.
    split; [done|]. split; [done|]. split; [lia|]. split; [done|].
    split; [constructor; [by right|done]|].
    split.
    { intros worker bid Hc. destruct (Hmem worker bid Hc) as (? & ? & ? & ?).
      rewrite <- (free_of_sets ty worker w1 w Hs1). done. }
    split.
    { intros worker. rewrite <- (free_of_sets ty worker w1 w Hs1),
        <- (busy_of_sets ty worker w1 w Hs1). apply Hmono. }
    intros worker. rewrite <- (free_of_sets ty worker w1 w Hs1),
        <- (busy_of_sets ty worker w1 w Hs1). apply Hunion.
  - (* [bid] of [worker] was claimed *)
    pose proof (moved_free_total ty worker bid w w1 Hs1 Hin Hbid) as Hone.
    pose proof (moved_pool ty worker bid w w1 Hs1) as Hpool1.
    pose proof (moved_free ty worker bid w w1 Hs1) as Hfree1.
    pose proof (moved_busy ty worker bid w w1 Hs1) as Hbusy1.
    cbn [length].
    split; [done|]. split; [congruence|]. split; [lia|].
    split.
    { constructor; [|done]. intros Hc. destruct (Hmem worker bid Hc) as (_ & Hf & _).
      rewrite Hfree1, decide_True in Hf by done.
      apply elem_of_difference in Hf as [_ Hf]. apply Hf. by apply elem_of_singleton. }
    split.
    { constructor; [left; rewrite Hr; eauto|].
      rewrite <- Hpool1. exact Hall. }
    split.
    { intros worker' bid' [[= -> ->]|Hc]%elem_of_cons.
      - split; [done|]. split; [done|].
        destruct (Hmono worker) as [Hf Hb].
        rewrite Hfree1, decide_True in Hf by done.
        rewrite Hbusy1, decide_True in Hb by done.
        split.
        + intros Hx%Hf. apply elem_of_difference in Hx as [_ Hx].
          apply Hx. by apply elem_of_singleton.
        + apply Hb, elem_of_union. right. by apply elem_of_singleton.
      - destruct (Hmem worker' bid' Hc) as (Hp & Hf & Hnf' & Hb).
        split; [by rewrite <- Hpool1|]. split; [|done].
        rewrite Hfree1 in Hf. case_decide; [|done].
        subst worker'. by apply elem_of_difference in Hf as [? _]. }
    split.
    { intros worker'. destruct (Hmono worker') as [Hf Hb].
      rewrite Hfree1 in Hf. rewrite Hbusy1 in Hb. case_decide; [|done].
      subst worker'. split.
      - intros x Hx%Hf. by apply elem_of_difference in Hx as [? _].
      - intros x Hx. apply Hb, elem_of_union. by left. }
    intros worker'. rewrite Hunion, Hfree1, Hbusy1.
    case_decide; [subst worker'|done].
    apply set_eq. intros x. rewrite !elem_of_union, elem_of_difference, elem_of_singleton.
    destruct (decide (x = bid)) as [->|Hx]; tauto.
Qed.
End Rounds.

(** No ID in two free sets: then the IDs alone tell the claims apart. *)
Lemma claims_ids_distinct ty w (cs : list (string * string)) :
  ids_unique ty w -> NoDup cs ->
  (forall worker bid, (worker, bid) ∈ cs -> worker ∈ pool w ∧ bid ∈ free_of ty worker w) ->
  NoDup cs.*2.
Proof.
  intros Huniq Hnd Hmem. apply NoDup_fmap_2_strong; [|done].
  intros [w1 b1] [w2 b2] H1 H2. simpl. intros <-.
  destruct (Hmem _ _ H1) as [? ?]. destruct (Hmem _ _ H2) as [? ?].
  f_equal. by eapply Huniq.
Qed.

Lemma claim_of_acquired worker bid :
  claim_of (Some (Client.acquired worker bid), None) = Some (worker, bid).
Proof. unfold claim_of, Client.acquired. by simplify_map_eq. Qed.

Lemma Get_settled key w : settled w (Get key w).1.
Proof.
  unfold Get. pose proof (next_reply_settled (emit (EvGet key) w)) as Hn.
  destruct (next_reply _) as [r w1]. repeat case_match; exact Hn.
Qed.

Lemma Del_settled key w : settled w (Del key w).1.
Proof.
  unfold Del. pose proof (next_reply_settled (emit (EvDel key) w)) as Hn.
  destruct (next_reply _) as [r w1]. repeat case_match; exact Hn.
Qed.

Lemma after_no_faults e w : no_faults w -> no_faults (after e w).
Proof. apply settled_no_faults, after_settled. Qed.

(** The set commands when the store answers. *)
Lemma SMembers_unfold key w :
  SMembers key w
  = match verdict w with
    | Failed e => (after (EvSMembers key) w, ([], Some e))
    | _ => (after (EvSMembers key) w, (elements (smembers key w), None))
    end.
Proof. unfold SMembers. rewrite next_reply_emit. by destruct (verdict w). Qed.

Lemma SPop_served key w :
  (forall e, verdict w ≠ Failed e) ->
  SPop key w
  = match spop key (after (EvSPop key) w) with
    | (Some x, w2) => (w2, (x, None))
    | (None, w2) => (w2, ("", Some redis_Nil))
    end.
Proof.
  intros Hv. unfold SPop. rewrite next_reply_emit.
  destruct (verdict w) as [|e|raw]; try done. by destruct (Hv e).
Qed.

Lemma SAdd_served key member w :
  (forall e, verdict w ≠ Failed e) ->
  SAdd key member w = (sadd key member (after (EvSAdd key member) w), None).
Proof.
  intros Hv. unfold SAdd. rewrite next_reply_emit.
  destruct (verdict w) as [|e|raw]; try done. by destruct (Hv e).
Qed.

Section ClientFacts.
Context `{Libraries} `{Platform}.

(** A call of [SendWithTimeout] either succeeds and sets [InitSent], or
    fails and leaves the client as it was. *)
Lemma SendWithTimeout_client action args timeout c w :
  let '(c', _, (res, err)) := Client.SendWithTimeout action args timeout c w in
  (err = None ∧ c' = Client.set_InitSent true c ∧ is_Some res)
  ∨ (is_Some err ∧ c' = c ∧ res = None).
Proof.
  unfold Client.SendWithTimeout.
  repeat case_match; simplify_eq; eauto.
Qed.

Lemma SendWithTimeout_Session action args timeout c w :
  Client.Session_ (Client.SendWithTimeout action args timeout c w).1.1
  = Client.Session_ c.
Proof.
  pose proof (SendWithTimeout_client action args timeout c w) as Hc.
  destruct (Client.SendWithTimeout action args timeout c w) as [[c' w'] [res err]].
  simpl. destruct Hc as [(_ & -> & _)|(_ & -> & _)]; reflexivity.
Qed.

Lemma teardown_Session action timeout field store c w :
  (forall url c0, Client.Session_ (store url c0) = Client.Session_ c0) ->
  Client.Session_ (Client.teardown action timeout field store c w).1
  = Client.Session_ c.
Proof.
  intros Hstore. unfold Client.teardown.
  pose proof (SendWithTimeout_Session action None timeout c w) as Hs.
  destruct (Client.SendWithTimeout action None timeout c w) as [[c1 w1] [res err]].
  simpl in Hs. repeat case_match; simpl; rewrite ?Hstore; exact Hs.
Qed.

Lemma BrowserClient_Send_client action args timeoutSeconds b w :
  (BrowserClient.Send action args timeoutSeconds b w).1.1 = b.
Proof.
  unfold BrowserClient.Send. repeat case_match; reflexivity.
Qed.

(** [SendWithTimeout] on a live session, when the payload serialises:
    the payload of [build_payload] is what goes on the worker's queue. *)
Lemma SendWithTimeout_pushes action args timeout c w s data :
  Client.Session_ c = Some s ->
  json_Marshal Client.TaskPayload
    (Client.build_payload c s (uuid_Hex (uuids w)) action args
       (RedisPrefix +:+ "result:" +:+ uuid_Hex (uuids w))) = inl data ->
  (trace w ++ [EvRPush (RedisPrefix +:+ Client.WorkerName s +:+ ":tasks") data])
    `prefix_of` trace (Client.SendWithTimeout action args timeout c w).1.2.
Proof.
  intros Hs Hdata. unfold Client.SendWithTimeout. rewrite Hs.
  unfold uuid_New. rewrite Hdata.
  set (w0 := set_uuids _ w).
  pose proof (push_first_event (RedisPrefix +:+ Client.WorkerName s +:+ ":tasks") data w0)
    as Hpush.
  destruct (Client.executeWithRetry (Client.push_op _ data) tt w0) as [w1 [[] [e|]]];
    simpl in Hpush; [exact Hpush|].
  pose proof (retry_loop_grows
                (Client.pop_op (RedisPrefix +:+ "result:" +:+ uuid_Hex (uuids w)) timeout)
                0 [] w1 (pop_op_grows _ _)) as Hpop.
  fold (Client.executeWithRetry
          (Client.pop_op (RedisPrefix +:+ "result:" +:+ uuid_Hex (uuids w)) timeout) [] w1)
    in Hpop.
  destruct (Client.executeWithRetry (Client.pop_op _ timeout) [] w1) as [w2 [raw err]].
  simpl in Hpop. unfold grows in Hpop.
  assert ((trace w ++ [EvRPush (RedisPrefix +:+ Client.WorkerName s +:+ ":tasks") data])
            `prefix_of` trace w2) as Hall by (etrans; eassumption).
  repeat case_match; simpl; exact Hall.
Qed.

Lemma SendWithTimeout_settled action args timeout c w :
  settled w (Client.SendWithTimeout action args timeout c w).1.2.
Proof.
  unfold Client.SendWithTimeout. destruct (Client.Session_ c) as [s|]; [|apply settled_refl].
  unfold uuid_New. set (w0 := set_uuids _ w).
  assert (settled w w0) as Hinit by (by repeat split).
  destruct (json_Marshal _ _) as [data|err]; [|exact Hinit].
  unfold Client.executeWithRetry.
  pose proof (retry_loop_settled
                (Client.push_op (RedisPrefix +:+ Client.WorkerName s +:+ ":tasks") data)
                0 tt w0 (push_op_settled _ _)) as Hpush.
  destruct (Client.retry_loop (Client.push_op _ data) 0 tt w0) as [w1 [[] [e|]]];
    simpl in Hpush; [exact (settled_trans _ _ _ Hinit Hpush)|].
  pose proof (retry_loop_settled
                (Client.pop_op (RedisPrefix +:+ "result:" +:+ uuid_Hex (uuids w)) timeout)
                0 [] w1 (pop_op_settled _ _)) as Hpop.
  destruct (Client.retry_loop (Client.pop_op _ timeout) 0 [] w1) as [w2 [raw err]].
  simpl in Hpop.
  pose proof (settled_trans _ _ _ Hinit (settled_trans _ _ _ Hpush Hpop)) as Hall.
  repeat case_match; exact Hall.
Qed.

Lemma resolve_profile_settled profile w :
  settled w (Client.resolve_profile profile w).2
  ∧ replies (Client.resolve_profile profile w).2 = replies w
  ∧ trace (Client.resolve_profile profile w).2 = trace w
  ∧ clock (Client.resolve_profile profile w).2 = clock w.
Proof.
  unfold Client.resolve_profile, os_WriteFile, uuid_New.
  destruct profile as [|pStr|[|]|]; try (split; [apply settled_refl|done]).
  cbv zeta.
  destruct (files w !! Client.idFile); [split; [by repeat split|done]|].
  destruct (os_WriteFile_error Client.idFile); (split; [by repeat split|done]).
Qed.

(** The warm-up command of [Acquire], when it is sent. *)
Lemma warm_up_settled (flags : bool) c1 w2 :
  let '(c2, w3) :=
    if flags then let '(c', w', _) := Client.Send "get_title" None c1 w2 in (c', w')
    else (c1, w2) in
  settled w2 w3 ∧ Client.Session_ c2 = Client.Session_ c1.
Proof.
  destruct flags; [|split; [apply settled_refl|done]].
  unfold Client.Send.
  pose proof (SendWithTimeout_settled "get_title" None Client.DefaultRPCWait c1 w2) as Hq.
  pose proof (SendWithTimeout_Session "get_title" None Client.DefaultRPCWait c1 w2) as Hq'.
  destruct (Client.SendWithTimeout _ _ _ c1 w2) as [[c' w'] r']. done.
Qed.

(** Every way [Acquire] can end.  The claim itself is the one [EVAL]; a
    script that finds nothing free answers nil, which reaches [Acquire] as
    [redis.Nil]. *)
Lemma Acquire_outcome ty video profile record c w :
  let w0 := (Client.resolve_profile profile w).2 in
  let w1 := after (EvEval [WorkersSet] [RedisPrefix; ty]) w0 in
  let '(c', w', r) := Client.Acquire ty video profile record c w in
  replies w' `suffix_of` replies w
  ∧ ((exists e, verdict w0 = Failed e
        ∧ r = (None, Some (Client.lua_error e))
        ∧ c' = Client.set_InitSent false c ∧ w' = w1)
     ∨ ((forall e, verdict w0 ≠ Failed e)
        ∧ r = (None, Some (Client.lua_error redis_Nil))
        ∧ c' = Client.set_InitSent false c ∧ w' = set_rng (rng w') w1
        ∧ free_total ty w = 0%nat)
     ∨ ((forall e, verdict w0 ≠ Failed e)
        ∧ exists worker bid,
            r = (Some (Client.acquired worker bid), None)
            ∧ (exists s, Client.Session_ c' = Some s ∧ Client.WorkerName s = worker
                         ∧ Client.BrowserID s = bid ∧ Client.BrowserType s = ty)
            ∧ worker ∈ pool w ∧ bid ∈ free_of ty worker w
            ∧ sets w' = moved RedisPrefix ty worker bid (sets w))).
Proof.
  intros w0 w1. unfold Client.Acquire.
  pose proof (resolve_profile_settled profile w) as (Hset0 & _).
  subst w1 w0.
  destruct (Client.resolve_profile profile w) as [profileID w0]. cbn [snd] in *.
  unfold Client.Eval. rewrite next_reply_emit.
  pose proof (settled_trans _ _ _ Hset0
                (after_settled (EvEval [WorkersSet] [RedisPrefix; ty]) w0)) as Hset1.
  set (w1 := after _ w0) in *. clearbody w1.
  destruct Hset1 as (Hs1 & Hr1 & Hsuf1).
  assert (forall x : World * (option (list string) * option error),
            (forall e, verdict w0 ≠ Failed e) ->
            match verdict w0 with
            | Failed e => (w1, (None, Some e))
            | _ => x
            end = x) as Hskip.
  { intros x Hv. destruct (verdict w0) as [|e|raw]; try done. by destruct (Hv e). }
  assert ((exists e, verdict w0 = Failed e) ∨ (forall e, verdict w0 ≠ Failed e))
    as [[e He]|Hv'] by (destruct (verdict w0); eauto).
  { rewrite He. split; [exact Hsuf1|]. left. eauto. }
  rewrite Hskip by exact Hv'. clear Hskip.
  pose proof (luaScript_spec ty w1) as Hlua.
  destruct (Client.luaScript [WorkersSet] [RedisPrefix; ty] w1) as [[res|] w2].
  - destruct Hlua as (worker & bid & -> & Hin & Hbid & Hw2).
    assert (sets w2 = moved RedisPrefix ty worker bid (sets w)) as Hs2
      by (rewrite Hw2; simpl; by rewrite Hs1).
    assert (replies w2 = replies w1) as Hr2 by (rewrite Hw2; reflexivity).
    set (c1 := Client.set_Session _ _).
    pose proof (warm_up_settled (bool_decide (profileID ≠ "") || video || record) c1 w2)
      as Hwarm.
    destruct (if bool_decide (profileID ≠ "") || video || record then _ else _)
      as [c2 w3].
    destruct Hwarm as [(Hs3 & _ & Hsuf3) Hsess].
    split; [etrans; [exact Hsuf3|]; rewrite Hr2; exact Hsuf1|].
    right; right. split; [done|]. exists worker, bid. split; [done|].
    split; [eexists; split; [rewrite Hsess; reflexivity|done]|].
    split; [by rewrite <- (pool_sets _ _ Hs1)|].
    split; [by rewrite <- (free_of_sets _ _ _ _ Hs1)|].
    rewrite Hs3. exact Hs2.
  - destruct Hlua as [Hw2 Hempty].
    split; [rewrite Hw2; exact Hsuf1|].
    right; left. split; [done|]. split; [done|]. split; [done|].
    split; [exact Hw2|].
    apply free_total_zero. intros worker Hin.
    rewrite <- (free_of_sets _ _ _ _ Hs1). apply Hempty.
    by rewrite (pool_sets _ _ Hs1).
Qed.

Lemma poll_settled resultKey start timeout w :
  settled w (BrowserClient.poll resultKey start timeout w).1.
Proof.
  funelim (BrowserClient.poll resultKey start timeout w);
    try match goal with
        | E : Get ?k ?w = (?w1, _) |- _ =>
            assert (settled w w1)
              by (pose proof (Get_settled k w) as Hg; rewrite E in Hg; exact Hg)
        end.
  - apply settled_refl.
  - pose proof (Del_settled resultKey w1) as Hd.
    destruct (Del resultKey w1) as [w2 ?]. simpl in Hd.
    destruct (json_Unmarshal val); simpl; eapply settled_trans; eassumption.
  - eapply settled_trans; [eassumption|].
    eapply settled_trans; [apply settled_sleep|]. eassumption.
  - assumption.
Qed.

Lemma BrowserClient_Send_settled action args timeoutSeconds b w :
  settled w (BrowserClient.Send action args timeoutSeconds b w).1.2.
Proof.
  unfold BrowserClient.Send. destruct (BrowserClient.Session_ b) as [s|];
    [|apply settled_refl].
  unfold uuid_New. set (w0 := set_uuids _ w).
  assert (settled w w0) as Hw0 by (by repeat split). clearbody w0.
  match goal with
  | |- context [RPush ?q ?d w0] =>
      pose proof (RPush_settled q d w0) as Hp; destruct (RPush q d w0) as [w1 ?]
  end.
  simpl in Hp.
  match goal with
  | |- context [BrowserClient.poll ?k ?s ?t w1] =>
      pose proof (poll_settled k s t w1) as Hq;
      destruct (BrowserClient.poll k s t w1) as [w2 r]
  end.
  simpl in *. exact (settled_trans _ _ _ Hw0 (settled_trans _ _ _ Hp Hq)).
Qed.

Lemma claim_loop_spec ty record workers b w :
  no_faults w ->
  let '(b', w', err) := BrowserClient.claim_loop ty record workers b w in
  no_faults w'
  ∧ ((err = Some (BrowserClient.no_available ty) ∧ b' = b ∧ sets w' = sets w
      ∧ forall worker, worker ∈ workers -> free_of ty worker w = ∅)
     ∨ (exists worker bid,
          err = None
          ∧ BrowserClient.Session_ b' = Some (BrowserClient.mkSession bid worker ty record)
          ∧ worker ∈ workers ∧ bid ∈ free_of ty worker w
          ∧ sets w' = moved RedisPrefix ty worker bid (sets w))).
Proof.
  revert w. induction workers as [|worker rest IH]; intros w Hnf.
  { cbn [BrowserClient.claim_loop]. split; [done|]. left.
    repeat split; try done. intros ? ?%elem_of_nil. done. }
  cbn [BrowserClient.claim_loop].
  rewrite SPop_served by exact (no_faults_verdict _ Hnf).
  pose proof (after_no_faults (EvSPop (free_key RedisPrefix worker ty)) w Hnf) as Hnf1.
  pose proof (after_settled (EvSPop (free_key RedisPrefix worker ty)) w) as (Hs1 & _).
  set (w1 := after _ w) in *. clearbody w1.
  pose proof (spop_spec (free_key RedisPrefix worker ty) w1) as Hpop.
  destruct (spop (free_key RedisPrefix worker ty) w1) as [[bid|] w2].
  - destruct Hpop as [Hbid Hw2].
    assert (no_faults w2) as Hnf2 by (rewrite Hw2; exact Hnf1).
    rewrite SAdd_served by exact (no_faults_verdict _ Hnf2).
    set (w3 := sadd _ _ _).
    assert (sets w3 = moved RedisPrefix ty worker bid (sets w)) as Hs3.
    { subst w3. rewrite Hw2. unfold sadd, after, moved, smembers; simpl.
      rewrite lookup_total_insert_ne by apply free_key_not_busy. by rewrite Hs1. }
    assert (no_faults w3) as Hnf3.
    { subst w3.
      exact (after_no_faults (EvSAdd (busy_key RedisPrefix worker ty) bid) w2 Hnf2). }
    clearbody w3.
    set (b1 := BrowserClient.set_Session _ b).
    assert (exists b2 w4,
               (if record
                then let '(c', w', _) := BrowserClient.Send "start_recording" None 5 b1 w3
                     in (c', w')
                else (b1, w3)) = (b2, w4)
               ∧ settled w3 w4 ∧ b2 = b1) as (b2 & w4 & -> & Hset4 & ->).
    { destruct record; [|exists b1, w3; split; [done|]; split; [apply settled_refl|done]].
      pose proof (BrowserClient_Send_settled "start_recording" None 5 b1 w3) as Hq.
      pose proof (BrowserClient_Send_client "start_recording" None 5 b1 w3) as Hq'.
      destruct (BrowserClient.Send _ _ _ b1 w3) as [[c' w'] r']. eauto. }
    split; [by eapply settled_no_faults|]. right. exists worker, bid.
    split; [done|]. split; [done|]. split; [apply list_elem_of_here|].
    split; [unfold free_of, smembers in *; by rewrite <- Hs1|].
    destruct Hset4 as (-> & _). exact Hs3.
  - destruct Hpop as [Hempty ->].
    specialize (IH w1 Hnf1).
    destruct (BrowserClient.claim_loop ty record rest b w1) as [[b' w'] err].
    destruct IH as [Hnf' IH]. split; [done|].
    destruct IH as [(-> & -> & Hs' & Hall)|(worker' & bid & -> & Hsess & Hin & Hbid & Hs')].
    + left. split; [done|]. split; [done|]. split; [congruence|].
      intros worker' [->|Hin]%elem_of_cons.
      * unfold free_of, smembers in *. by rewrite <- Hs1.
      * rewrite <- (free_of_sets ty worker' w1 w Hs1). by apply Hall.
    + right. exists worker', bid. split; [done|]. split; [done|].
      split; [by apply list_elem_of_further|].
      split; [by rewrite <- (free_of_sets ty worker' w1 w Hs1)|].
      by rewrite <- Hs1.
Qed.

Lemma BrowserClient_Acquire_spec ty record b w :
  no_faults w ->
  let '(b', w', err) := BrowserClient.Acquire ty record b w in
  no_faults w'
  ∧ ((err = Some (if decide (pool w = []) then BrowserClient.no_workers
                  else BrowserClient.no_available ty)
      ∧ b' = b ∧ sets w' = sets w ∧ free_total ty w = 0%nat)
     ∨ (exists worker bid,
          err = None
          ∧ BrowserClient.Session_ b' = Some (BrowserClient.mkSession bid worker ty record)
          ∧ worker ∈ pool w ∧ bid ∈ free_of ty worker w
          ∧ sets w' = moved RedisPrefix ty worker bid (sets w))).
Proof.
  intros Hnf. unfold BrowserClient.Acquire. rewrite SMembers_unfold.
  pose proof (no_faults_verdict w Hnf) as Hv.
  pose proof (after_no_faults (EvSMembers WorkersSet) w Hnf) as Hnf1.
  pose proof (after_settled (EvSMembers WorkersSet) w) as (Hs1 & _).
  set (w1 := after _ w) in *. clearbody w1.
  fold (pool w).
  assert (match verdict w with
          | Failed e => (w1, ([], Some e))
          | _ => (w1, (pool w, None))
          end = (w1, (pool w, None))) as ->.
  { destruct (verdict w) as [|e|raw]; try done. by destruct (Hv e). }
  case_bool_decide as Hempty.
  - destruct Hempty as [?|Hlen]; [done|].
    apply length_zero_iff_nil in Hlen. split; [done|]. left.
    rewrite decide_True by done. split; [done|]. split; [done|]. split; [done|].
    unfold free_total. by rewrite Hlen.
  - assert (pool w ≠ []) as Hne.
    { intros Hp. apply Hempty. right. by rewrite Hp. }
    pose proof (shuffle_spec (pool w) w1) as [Hperm Hw2].
    destruct (shuffle (pool w) w1) as [workers w2]. cbn [fst snd] in *.
    assert (no_faults w2) as Hnf2 by (rewrite Hw2; exact Hnf1).
    assert (sets w2 = sets w) as Hs2 by (rewrite Hw2; exact Hs1).
    pose proof (claim_loop_spec ty record workers b w2 Hnf2) as Hloop.
    destruct (BrowserClient.claim_loop ty record workers b w2) as [[b' w'] err].
    destruct Hloop as [Hnf' Hloop]. split; [done|].
    destruct Hloop as [(-> & -> & Hs' & Hall)|(worker & bid & -> & Hsess & Hin & Hbid & Hs')].
    + left. rewrite decide_False by done. split; [done|]. split; [done|].
      split; [congruence|]. apply free_total_zero. intros worker Hin.
      rewrite <- (free_of_sets ty worker w2 w Hs2). apply Hall. by rewrite Hperm.
    + right. exists worker, bid. split; [done|]. split; [done|].
      split; [by rewrite <- Hperm|].
      split; [by rewrite <- (free_of_sets ty worker w2 w Hs2)|].
      by rewrite <- Hs2.
Qed.

End ClientFacts.

(** ** Callers of [BrowserClient.Acquire] whose store calls interleave *)

(** *** Lists updated in place *)

Lemma omap_insert_keep {A B : Type} (f : A -> option B) (l : list A) (i : nat) (x y : A) :
  l !! i = Some x -> f y = f x -> omap f (<[i:=y]> l) = omap f l.
Proof.
  revert i. induction l as [|a l IH]; intros [|i] Hi Hf; simplify_eq/=; [by rewrite Hf|].
  by rewrite (IH i).
Qed.

Lemma omap_insert_gain {A B : Type} (f : A -> option B) (l : list A) (i : nat)
    (x y : A) (c : B) :
  l !! i = Some x -> f x = None -> f y = Some c ->
  omap f (<[i:=y]> l) ≡ₚ c :: omap f l.
Proof.
  revert i. induction l as [|a l IH]; intros [|i] Hi Hx Hy; simplify_eq/=.
  - by rewrite Hx, Hy.
  - destruct (f a); [|by apply IH].
    rewrite (IH i) by done. apply Permutation_swap.
Qed.

(** *** What one store call does to the pool *)

Lemma shrunk_sets ty w w' : sets w' = sets w -> shrunk ty w w'.
Proof.
  intros Hs. split; [by apply pool_sets|].
  intros worker. by rewrite (free_of_sets ty worker w' w Hs).
Qed.

Section Popped.
Variables (ty worker bid : string) (w w' : World).
Hypothesis Hsets :
  sets w' = <[free_key RedisPrefix worker ty := free_of ty worker w ∖ {[bid]}]> (sets w).

Lemma popped_pool : pool w' = pool w.
Proof.
  unfold pool, smembers. rewrite Hsets.
  by rewrite lookup_total_insert_ne by apply free_key_not_workers.
Qed.

Lemma popped_free (worker' : string) :
  free_of ty worker' w'
  = if decide (worker' = worker) then free_of ty worker w ∖ {[bid]}
    else free_of ty worker' w.
Proof.
  unfold free_of at 1. unfold smembers. rewrite Hsets.
  destruct (decide (worker' = worker)) as [->|Hne].
  - by rewrite lookup_total_insert_eq.
  - rewrite lookup_total_insert_ne; [done|]. intros Heq%free_key_inj. done.
Qed.

Lemma popped_shrunk : shrunk ty w w'.
Proof.
  split; [apply popped_pool|]. intros worker'. rewrite popped_free.
  case_decide; [subst worker'|done]. intros x [? _]%elem_of_difference. done.
Qed.

Lemma popped_free_total :
  worker ∈ pool w -> bid ∈ free_of ty worker w ->
  S (free_total ty w') = free_total ty w.
Proof.
  intros Hin Hbid. unfold free_total. rewrite popped_pool.
  apply (sum_list_one_less _ _ _ worker).
  - apply (NoDup_elements (smembers WorkersSet w)).
  - exact Hin.
  - rewrite popped_free, decide_True by done.
    rewrite size_difference by (by apply singleton_subseteq_l).
    rewrite size_singleton.
    assert (size (free_of ty worker w) ≠ 0%nat); [|lia].
    intros Hz%size_empty_inv. apply (not_elem_of_empty (C:=gset string) bid).
    by apply Hz.
  - intros b Hne. by rewrite popped_free, decide_False.
Qed.
End Popped.

Lemma added_pool_free ty worker bid w w' :
  sets w' = <[busy_key RedisPrefix worker ty := busy_of ty worker w ∪ {[bid]}]> (sets w) ->
  pool w' = pool w ∧ forall worker', free_of ty worker' w' = free_of ty worker' w.
Proof.
  intros Hs. split.
  - unfold pool, smembers. rewrite Hs.
    by rewrite lookup_total_insert_ne by apply busy_key_not_workers.
  - intros worker'. unfold free_of, smembers. rewrite Hs.
    by rewrite lookup_total_insert_ne by (apply not_eq_sym, free_key_not_busy).
Qed.

(** The three set commands, whatever the store answers. *)
Lemma SMembers_cases key w :
  let '(w1, (members, err)) := SMembers key w in
  w1 = after (EvSMembers key) w
  ∧ ((exists e, err = Some e ∧ verdict w = Failed e)
     ∨ (err = None ∧ members = elements (smembers key w))).
Proof.
  rewrite SMembers_unfold. destruct (verdict w) as [|e|raw]; eauto 10.
Qed.

Lemma SPop_cases key w :
  let '(w1, (bid, err)) := SPop key w in
  replies w1 `suffix_of` replies w
  ∧ ((is_Some err ∧ sets w1 = sets w ∧ (no_faults w -> smembers key w = ∅))
     ∨ (err = None ∧ bid ∈ smembers key w
        ∧ sets w1 = <[key := smembers key w ∖ {[bid]}]> (sets w))).
Proof.
  unfold SPop. rewrite next_reply_emit.
  pose proof (after_settled (EvSPop key) w) as (Hs & _ & Hsuf).
  pose proof (spop_spec key (after (EvSPop key) w)) as Hpop.
  assert (smembers key (after (EvSPop key) w) = smembers key w) as Hm by done.
  destruct (verdict w) as [|e|raw] eqn:Hv.
  2: { split; [done|]. left. split; [eauto|]. split; [done|].
       intros Hnf. by destruct (no_faults_verdict w Hnf e). }
  all: destruct (spop key (after (EvSPop key) w)) as [[bid|] w2];
    [destruct Hpop as [Hin ->]; split; [done|]; right;
     split; [done|]; split; [by rewrite <- Hm|]; simpl; by rewrite Hm
    |destruct Hpop as [Hempty ->]; split; [done|]; left;
     split; [eauto|]; split; [done|]; intros _; by rewrite <- Hm].
Qed.

Lemma SAdd_cases key member w :
  let '(w1, err) := SAdd key member w in
  replies w1 `suffix_of` replies w
  ∧ (sets w1 = sets w
     ∨ sets w1 = <[key := smembers key w ∪ {[member]}]> (sets w)).
Proof.
  unfold SAdd. rewrite next_reply_emit.
  pose proof (after_settled (EvSAdd key member) w) as (Hs & _ & Hsuf).
  destruct (verdict w) as [|e|raw]; (split; [done|]); auto.
Qed.

Lemma alone_Finished ty n err got w : alone ty n (Finished err got) w = (Finished err got, w).
Proof. induction n as [|n IH]; simpl; [done|exact IH]. Qed.

Section Alone.
Context `{Libraries} `{Platform}.

(** The steps of the loop are the loop. *)
Lemma claim_loop_alone ty record workers b w :
  workers ≠ [] ->
  let '(b', w', err) := BrowserClient.claim_loop ty record workers b w in
  exists n w'',
    alone ty n (Scanning workers) w = (Finished err (held (b', err)), w'')
    ∧ settled w'' w' ∧ (record = false -> w'' = w').
Proof.
  revert w. induction workers as [|worker rest IH]; intros w Hne; [done|].
  cbn [BrowserClient.claim_loop].
  destruct (SPop (free_key RedisPrefix worker ty) w) as [w1 [bid [e|]]] eqn:Hpop.
  - destruct rest as [|worker' rest'].
    + cbn [BrowserClient.claim_loop]. exists 1%nat, w1. simpl. rewrite Hpop.
      split; [done|]. split; [apply settled_refl|done].
    + assert (worker' :: rest' ≠ []) as Hne' by done.
      specialize (IH w1 Hne').
      destruct (BrowserClient.claim_loop ty record (worker' :: rest') b w1) as [[b' w'] err].
      destruct IH as (n & w'' & Hn & Hs & Hw). exists (S n), w''.
      split; [|done]. cbn [alone acquire_step]. rewrite Hpop. exact Hn.
  - destruct (SAdd (busy_key RedisPrefix worker ty) bid w1) as [w2 r] eqn:Hadd.
    set (b1 := BrowserClient.set_Session _ b).
    assert (exists b2 w3,
               (if record
                then let '(c', w', _) := BrowserClient.Send "start_recording" None 5 b1 w2
                     in (c', w')
                else (b1, w2)) = (b2, w3)
               ∧ settled w2 w3 ∧ b2 = b1 ∧ (record = false -> w2 = w3))
      as (b2 & w3 & -> & Hs & -> & Hw).
    { destruct record.
      - pose proof (BrowserClient_Send_settled "start_recording" None 5 b1 w2) as Hq.
        pose proof (BrowserClient_Send_client "start_recording" None 5 b1 w2) as Hq'.
        destruct (BrowserClient.Send _ _ _ b1 w2) as [[c' w'] r']. cbn [fst snd] in *.
        exists c', w'. split; [done|]. split; [done|]. split; [done|]. intros [=].
      - exists b1, w2. split; [done|]. split; [apply settled_refl|done]. }
    exists 2%nat, w2. cbn [alone acquire_step]. rewrite Hpop.
    cbn [alone acquire_step]. rewrite Hadd.
    split; [done|]. split; [done|]. exact Hw.
Qed.

Lemma Acquire_alone ty record b w :
  let '(b', w', err) := BrowserClient.Acquire ty record b w in
  exists n w'',
    alone ty n Starting w = (Finished err (held (b', err)), w'')
    ∧ settled w'' w' ∧ (record = false -> w'' = w').
Proof.
  unfold BrowserClient.Acquire.
  destruct (SMembers WorkersSet w) as [w1 [workers err]] eqn:Hm.
  case_bool_decide as Hempty.
  - exists 1%nat, w1. cbn [alone acquire_step]. rewrite Hm.
    rewrite bool_decide_true by done. split; [done|]. split; [apply settled_refl|done].
  - destruct (shuffle workers w1) as [workers' w2] eqn:Hsh.
    assert (workers' ≠ []) as Hne.
    { pose proof (shuffle_spec workers w1) as [Hperm _]. rewrite Hsh in Hperm.
      cbn [fst] in Hperm. intros ->. apply Permutation_nil_l in Hperm.
      apply Hempty. right. by rewrite <- Hperm. }
    pose proof (claim_loop_alone ty record workers' b w2 Hne) as Hloop.
    destruct (BrowserClient.claim_loop ty record workers' b w2) as [[b' w'] err'].
    destruct Hloop as (n & w'' & Hn & Hs & Hw). exists (S n), w''.
    split; [|done]. cbn [alone acquire_step]. rewrite Hm.
    rewrite bool_decide_false by done. rewrite Hsh. exact Hn.
Qed.
End Alone.

(** *** One step of an acquiring caller *)

Lemma acquire_step_spec ty st w :
  let '(st', w') := acquire_step ty st w in
  replies w' `suffix_of` replies w
  ∧ match st with
    | Starting =>
        sets w' = sets w
        ∧ ((st' = Finished (Some BrowserClient.no_workers) None
            ∧ (no_faults w -> pool w = []))
           ∨ (exists workers, st' = Scanning workers ∧ workers ≡ₚ pool w ∧ workers ≠ []))
    | Scanning [] =>
        w' = w ∧ st' = Finished (Some (BrowserClient.no_available ty)) None
    | Scanning (worker :: rest) =>
        (sets w' = sets w
         ∧ (no_faults w -> free_of ty worker w = ∅)
         ∧ st' = match rest with
                 | [] => Finished (Some (BrowserClient.no_available ty)) None
                 | _ => Scanning rest
                 end)
        ∨ (exists bid, st' = Adding worker bid ∧ bid ∈ free_of ty worker w
             ∧ sets w' = <[free_key RedisPrefix worker ty :=
                             free_of ty worker w ∖ {[bid]}]> (sets w))
    | Adding worker bid =>
        st' = Finished None (Some (worker, bid))
        ∧ (sets w' = sets w
           ∨ sets w' = <[busy_key RedisPrefix worker ty :=
                           busy_of ty worker w ∪ {[bid]}]> (sets w))
    | Finished _ _ => st' = st ∧ w' = w
    end.
Proof.
  destruct st as [|[|worker rest]|worker bid|err got]; cbn [acquire_step].
  - pose proof (SMembers_cases WorkersSet w) as Hm.
    destruct (SMembers WorkersSet w) as [w1 [workers err]].
    destruct Hm as [-> Hm].
    pose proof (after_settled (EvSMembers WorkersSet) w) as (Hs & _ & Hsuf).
    case_bool_decide as Hc.
    + split; [done|]. split; [done|]. left. split; [done|].
      intros Hnf. destruct Hm as [(e & _ & Hv)|[-> ->]].
      { by destruct (no_faults_verdict w Hnf e). }
      destruct Hc as [?|Hlen]; [done|]. by apply nil_length_inv.
    + pose proof (shuffle_spec workers (after (EvSMembers WorkersSet) w)) as [Hp Hw].
      destruct (shuffle workers (after (EvSMembers WorkersSet) w)) as [workers' w2].
      simpl in Hp, Hw. rewrite Hw. split; [done|]. split; [done|]. right.
      destruct Hm as [(e & -> & _)|[-> ->]]; [by destruct Hc; left|].
      exists workers'. split; [done|]. split; [done|].
      intros ->. apply Permutation_nil_l in Hp. destruct Hc. right. by rewrite <- Hp.
  - done.
  - pose proof (SPop_cases (free_key RedisPrefix worker ty) w) as Hp.
    destruct (SPop (free_key RedisPrefix worker ty) w) as [w1 [bid err]].
    destruct Hp as [Hsuf [([e ->] & Hs & Hempty)|(-> & Hin & Hs)]].
    + destruct rest; (split; [done|]); left; done.
    + split; [done|]. right. by exists bid.
  - pose proof (SAdd_cases (busy_key RedisPrefix worker ty) bid w) as Ha.
    destruct (SAdd (busy_key RedisPrefix worker ty) bid w) as [w1 err].
    destruct Ha as [Hsuf Hs]. done.
  - done.
Qed.

(** *** What every schedule keeps *)

Lemma shrunk_trans ty w1 w2 w3 : shrunk ty w1 w2 -> shrunk ty w2 w3 -> shrunk ty w1 w3.
Proof.
  intros [Hp1 Hf1] [Hp2 Hf2]. split; [congruence|].
  intros worker. etrans; [apply Hf2|apply Hf1].
Qed.

Lemma shrunk_thorough ty w0 w w' st :
  shrunk ty w w' -> thorough ty w0 w st -> thorough ty w0 w' st.
Proof.
  intros [_ Hf].
  assert (forall worker, free_of ty worker w = ∅ -> free_of ty worker w' = ∅) as Hempty.
  { intros worker He. specialize (Hf worker). rewrite He in Hf.
    apply leibniz_equiv. apply equiv_empty. exact Hf. }
  destruct st as [|workers|worker bid|[e|] [c|]]; simpl; try done.
  - intros [? Hall]. split; [done|]. auto.
  - intros [? Hall]. split; [done|]. auto.
Qed.

Lemma step_shrunk ty st w :
  shrunk ty w (acquire_step ty st w).2.
Proof.
  pose proof (acquire_step_spec ty st w) as H.
  destruct (acquire_step ty st w) as [st' w']. simpl. destruct H as [_ H].
  destruct st as [|[|worker rest]|worker bid|err got].
  - destruct H as [Hs _]. by apply shrunk_sets.
  - destruct H as [-> _]. by apply shrunk_sets.
  - destruct H as [(Hs & _)|(bid & _ & _ & Hs)]; [by apply shrunk_sets|].
    by eapply popped_shrunk.
  - destruct H as [_ [Hs|Hs]]; [by apply shrunk_sets|].
    apply added_pool_free in Hs as [Hp Hf]. split; [done|]. intros ?. by rewrite Hf.
  - destruct H as [_ ->]. by apply shrunk_sets.
Qed.

Lemma turn_exclusive ty w0 sys i :
  exclusive ty w0 sys -> exclusive ty w0 (turn ty sys i).
Proof.
  destruct sys as [ts w]. unfold turn. cbn [fst snd].
  destruct (ts !! i) as [st|] eqn:Hi; [|done].
  intros (Hsh & Hnd & Hheld & Hsound).
  pose proof (step_shrunk ty st w) as Hstep.
  pose proof (acquire_step_spec ty st w) as H.
  destruct (acquire_step ty st w) as [st' w']. cbn [fst snd] in *.
  destruct H as [_ H].
  assert (Hsh' : shrunk ty w0 w') by (by eapply shrunk_trans).
  assert (Hgone : forall worker bid, (bid ∉ free_of ty worker w) -> (bid ∉ free_of ty worker w')).
  { intros worker bid Hn Hin. apply Hn. by apply (proj2 Hstep). }
  assert (Hst : sound w0 st) by (by eapply Forall_lookup_1 in Hsound).
  assert (Hquiet : holding st' = holding st -> sound w0 st' ->
            exclusive ty w0 (<[i:=st']> ts, w')).
  { intros Hh Hs'. unfold exclusive. cbn [fst snd].
    rewrite (omap_insert_keep holding ts i st st' Hi Hh).
    split; [done|]. split; [done|]. split.
    - intros worker bid Hin. destruct (Hheld _ _ Hin) as (? & ? & ?). auto.
    - by apply Forall_insert. }
  destruct st as [|[|worker rest]|worker bid|err got].
  - destruct H as [_ [[-> _]|(workers & -> & Hp & _)]]; apply Hquiet; try done.
    simpl. intros x Hx. rewrite Hp in Hx. by rewrite <- (proj1 Hsh).
  - destruct H as [_ ->]. by apply Hquiet.
  - destruct H as [(_ & _ & ->)|(bid & -> & Hin & Hs)].
    + destruct rest; apply Hquiet; try done. simpl in *.
      intros x Hx. apply Hst. by apply list_elem_of_further.
    + unfold exclusive. cbn [fst snd].
      pose proof (omap_insert_gain holding ts i _ (Adding worker bid) (worker, bid)
                    Hi eq_refl eq_refl) as Hperm.
      assert (Hw : worker ∈ pool w0) by (apply Hst, list_elem_of_here).
      split; [done|]. split; [|split].
      * rewrite Hperm. apply NoDup_cons. split; [|done].
        intros Hold. destruct (Hheld _ _ Hold) as (_ & _ & Hn). done.
      * intros worker' bid' Hin'. rewrite Hperm in Hin'.
        apply elem_of_cons in Hin' as [[= -> ->]|Hold].
        -- split; [done|]. split; [by apply (proj2 Hsh)|].
           rewrite (popped_free ty worker bid w w' Hs), decide_True by done.
           intros [_ Hn]%elem_of_difference. apply Hn. by apply elem_of_singleton.
        -- destruct (Hheld _ _ Hold) as (? & ? & ?). auto.
      * by apply Forall_insert.
  - destruct H as [-> _]. by apply Hquiet.
  - destruct H as [-> _]. by apply Hquiet.
Qed.

Lemma turn_counted ty w0 sys i :
  exclusive ty w0 sys -> counted ty w0 sys -> counted ty w0 (turn ty sys i).
Proof.
  destruct sys as [ts w]. unfold turn. cbn [fst snd].
  destruct (ts !! i) as [st|] eqn:Hi; [|done].
  intros (Hsh & Hnd & Hheld & Hsound) (Hnf & Hcount & Hth).
  pose proof (step_shrunk ty st w) as Hstep.
  pose proof (acquire_step_spec ty st w) as H.
  destruct (acquire_step ty st w) as [st' w']. cbn [fst snd] in *.
  destruct H as [Hsuf H].
  assert (Hnf' : no_faults w') by (by eapply suffix_no_faults).
  assert (Hst : sound w0 st) by (by eapply Forall_lookup_1 in Hsound).
  assert (Hst2 : thorough ty w0 w st) by (by eapply Forall_lookup_1 in Hth).
  assert (Hothers : Forall (thorough ty w0 w') ts).
  { eapply Forall_impl; [exact Hth|]. intros ?. by apply shrunk_thorough. }
  assert (Hquiet : holding st' = holding st -> free_total ty w' = free_total ty w ->
            thorough ty w0 w' st' -> counted ty w0 (<[i:=st']> ts, w')).
  { intros Hh Hft Hs'. unfold counted. cbn [fst snd].
    rewrite (omap_insert_keep holding ts i st st' Hi Hh), Hft.
    split; [done|]. split; [done|]. by apply Forall_insert. }
  destruct st as [|[|worker rest]|worker bid|err got].
  - destruct H as [Hs [[-> Hempty]|(workers & -> & Hp & Hne)]];
      (apply Hquiet; [done|by apply free_total_sets|]).
    + simpl. specialize (Hempty Hnf). rewrite (proj1 Hsh) in Hempty. unfold refusal.
      rewrite decide_True by done. split; [done|]. rewrite Hempty.
      intros ? ?%elem_of_nil. done.
    + simpl. split; [done|]. intros worker Hin Hnot. destruct Hnot.
      rewrite Hp. by rewrite (proj1 Hsh).
  - by destruct Hst2 as [? _].
  - destruct Hst2 as [_ Hrest].
    assert (Hw : worker ∈ pool w0) by (apply Hst, list_elem_of_here).
    destruct H as [(Hs & Hempty & ->)|(bid & -> & Hin & Hs)].
    + specialize (Hempty Hnf).
      assert (Hempty' : free_of ty worker w' = ∅)
        by (by rewrite (free_of_sets ty worker w' w Hs)).
      assert (Hall : forall worker', worker' ∈ pool w0 -> worker' ∉ rest ->
                free_of ty worker' w' = ∅).
      { intros worker' Hin Hnot. destruct (decide (worker' = worker)) as [->|Hne]; [done|].
        rewrite (free_of_sets ty worker' w' w Hs). apply Hrest; [done|].
        intros [?|?]%elem_of_cons; done. }
      destruct rest as [|worker2 rest];
        (apply Hquiet; [done|by apply free_total_sets|]); simpl.
      * split.
        -- unfold refusal. rewrite decide_False; [done|].
           intros Hp. rewrite Hp in Hw. by apply elem_of_nil in Hw.
        -- intros worker' Hin. apply Hall; [done|]. apply not_elem_of_nil.
      * split; [done|]. exact Hall.
    + unfold counted. cbn [fst snd]. split; [done|].
      pose proof (omap_insert_gain holding ts i _ (Adding worker bid) (worker, bid)
                    Hi eq_refl eq_refl) as Hperm.
      rewrite Hperm. cbn [length].
      assert (worker ∈ pool w) as Hw' by (by rewrite (proj1 Hsh)).
      pose proof (popped_free_total ty worker bid w w' Hs Hw' Hin).
      split; [lia|]. by apply Forall_insert.
  - destruct H as [-> Hs]. apply Hquiet; [done| |done].
    destruct Hs as [Hs|Hs]; [by apply free_total_sets|].
    apply added_pool_free in Hs as [Hp Hf]. unfold free_total. rewrite Hp.
    f_equal. apply list_fmap_ext. intros ? ? _. by rewrite Hf.
  - destruct H as [-> ->]. apply Hquiet; try done.
Qed.

Lemma interleave_snoc ty schedule i sys :
  interleave ty (schedule ++ [i]) sys = turn ty (interleave ty schedule sys) i.
Proof. unfold interleave. by rewrite foldl_app. Qed.

Lemma start_exclusive ty n w0 : exclusive ty w0 (replicate n Starting, w0).
Proof.
  assert (omap holding (replicate n Starting) = []) as Hnone.
  { induction n; [done|]. simpl. exact IHn. }
  unfold exclusive. cbn [fst snd]. rewrite Hnone.
  split; [by apply shrunk_sets|]. split; [apply NoDup_nil_2|]. split.
  - intros ? ? ?%elem_of_nil. done.
  - apply Forall_replicate. done.
Qed.

Lemma start_counted ty n w0 : no_faults w0 -> counted ty w0 (replicate n Starting, w0).
Proof.
  intros Hnf.
  assert (omap holding (replicate n Starting) = []) as Hnone.
  { induction n; [done|]. simpl. exact IHn. }
  unfold counted. cbn [fst snd]. rewrite Hnone. simpl.
  split; [done|]. split; [lia|]. apply Forall_replicate. done.
Qed.

Lemma interleave_exclusive ty schedule n w0 :
  exclusive ty w0 (interleave ty schedule (replicate n Starting, w0)).
Proof.
  induction schedule as [|i schedule IH] using rev_ind; [apply start_exclusive|].
  rewrite interleave_snoc. by apply turn_exclusive.
Qed.

Lemma interleave_counted ty schedule n w0 :
  no_faults w0 -> counted ty w0 (interleave ty schedule (replicate n Starting, w0)).
Proof.
  intros Hnf.
  induction schedule as [|i schedule IH] using rev_ind; [by apply start_counted|].
  rewrite interleave_snoc. apply turn_counted; [apply interleave_exclusive|done].
Qed.

Lemma turn_length ty sys i : length (turn ty sys i).1 = length sys.1.
Proof.
  unfold turn. destruct (sys.1 !! i); [|done].
  destruct (acquire_step ty a sys.2). simpl. by rewrite length_insert.
Qed.

Lemma interleave_length ty schedule sys :
  length (interleave ty schedule sys).1 = length sys.1.
Proof.
  induction schedule as [|i schedule IH] using rev_ind; [done|].
  rewrite interleave_snoc, turn_length. done.
Qed.

Lemma rank_finished w0 st : rank w0 st = 0%nat -> finished st = true.
Proof. by destruct st. Qed.

Lemma step_rank ty w0 st w :
  pool w = pool w0 -> (rank w0 (acquire_step ty st w).1 <= rank w0 st - 1)%nat.
Proof.
  intros Hpool. pose proof (acquire_step_spec ty st w) as H.
  destruct (acquire_step ty st w) as [st' w']. cbn [fst]. destruct H as [_ H].
  destruct st as [|[|worker rest]|worker bid|err got].
  - destruct H as [_ [[-> _]|(workers & -> & Hp & _)]]; simpl; [lia|].
    rewrite Hp, Hpool. lia.
  - destruct H as [_ ->]. simpl. lia.
  - destruct H as [(_ & _ & ->)|(bid & -> & _)]; [destruct rest|]; simpl; lia.
  - destruct H as [-> _]. simpl. lia.
  - destruct H as [-> _]. simpl. lia.
Qed.

Lemma interleave_rank ty schedule n w0 i st :
  (interleave ty schedule (replicate n Starting, w0)).1 !! i = Some st ->
  (rank w0 st <= 3 + length (pool w0) - count_occ Nat.eq_dec schedule i)%nat.
Proof.
  revert st. induction schedule as [|j schedule IH] using rev_ind; intros st.
  - simpl. intros [-> _]%lookup_replicate. simpl. lia.
  - rewrite interleave_snoc, count_occ_app. simpl.
    pose proof (interleave_exclusive ty schedule n w0) as ([Hpool _] & _).
    destruct (interleave ty schedule (replicate n Starting, w0)) as [ts w].
    unfold turn. cbn [fst snd] in *.
    destruct (ts !! j) as [stj|] eqn:Hj.
    + pose proof (step_rank ty w0 stj w Hpool) as Hr.
      destruct (acquire_step ty stj w) as [st' w']. cbn [fst] in *.
      destruct (decide (j = i)) as [->|Hne].
      * rewrite list_lookup_insert_eq by (by eapply lookup_lt_Some).
        intros [= <-]. specialize (IH _ Hj).
        destruct (Nat.eq_dec i i); [|done]. lia.
      * rewrite list_lookup_insert_ne by done. intros Hi. specialize (IH _ Hi).
        destruct (Nat.eq_dec j i); [done|]. lia.
    + cbn [fst]. intros Hi. specialize (IH _ Hi).
      destruct (Nat.eq_dec j i) as [->|]; [congruence|]. lia.
Qed.

(** A schedule that gives every caller enough turns lets every caller return. *)
Lemma interleave_finishes ty schedule n w0 :
  (forall i, (i < n)%nat ->
     (3 + length (pool w0) <= count_occ Nat.eq_dec schedule i)%nat) ->
  forallb finished (interleave ty schedule (replicate n Starting, w0)).1 = true.
Proof.
  intros Hfair. apply Is_true_true, forallb_True, Forall_lookup. intros i st Hi.
  apply Is_true_true, (rank_finished w0).
  pose proof (interleave_rank ty schedule n w0 i st Hi) as Hr.
  assert (i < n)%nat as Hlt.
  { apply lookup_lt_Some in Hi. rewrite interleave_length in Hi. cbn [fst] in Hi.
    by rewrite length_replicate in Hi. }
  specialize (Hfair i Hlt). lia.
Qed.

Lemma omap_length_le {A B : Type} (f : A -> option B) (l : list A) :
  (length (omap f l) <= length l)%nat.
Proof.
  induction l as [|a l IH]; [done|]. cbn [omap list_omap length].
  change (list_omap _ _ f l) with (omap f l). destruct (f a); cbn [length]; lia.
Qed.

(** Once every caller has returned: the refused ones saw no free instance. *)
Lemma finished_count ty w0 w ts :
  pool w = pool w0 ->
  Forall (thorough ty w0 w) ts -> forallb finished ts = true ->
  Forall (fun st => (exists c, st = Finished None (Some c))
                    ∨ st = Finished (Some (refusal ty w0)) None) ts
  ∧ (length (omap holding ts) = length ts ∨ free_total ty w = 0%nat).
Proof.
  intros Hpool. induction 1 as [|st ts Hst Hts IH]; [by split; [|left]|].
  cbn [forallb]. intros [Hf Hfs]%andb_prop. destruct (IH Hfs) as [Hall Hcount].
  destruct st as [| | |[e|] [c|]]; try done.
  - destruct Hst as [-> Hempty]. split; [apply Forall_cons; split; [by right|done]|].
    right. apply free_total_zero. intros worker Hin. apply Hempty. by rewrite <- Hpool.
  - split; [apply Forall_cons; split; [left; eauto|done]|].
    destruct Hcount as [Hc|Hc]; [left|by right].
    cbn [omap list_omap holding length].
    change (list_omap _ _ holding ts) with (omap holding ts). by rewrite Hc.
Qed.

(** Callers of [BrowserClient.Acquire] whose store calls interleave in any
    order. *)
Lemma interleaved_acquire ty schedule n w0 :
  let sys := interleave ty schedule (replicate n Starting, w0) in
  let got := omap holding sys.1 in
  NoDup got
  ∧ (forall worker bid, (worker, bid) ∈ got ->
       worker ∈ pool w0 ∧ bid ∈ free_of ty worker w0
       ∧ (bid ∉ free_of ty worker sys.2))
  ∧ (ids_unique ty w0 -> NoDup got.*2)
  ∧ (no_faults w0 -> forallb finished sys.1 = true ->
       length got = Nat.min n (free_total ty w0)
       ∧ Forall (fun st => is_Some (holding st)
                           ∨ st = Finished (Some (refusal ty w0)) None) sys.1).
Proof.
  intros sys got. subst got sys.
  pose proof (interleave_exclusive ty schedule n w0) as (Hsh & Hnd & Hheld & _).
  split; [done|]. split; [done|]. split.
  { intros Hu. eapply claims_ids_distinct; [exact Hu|exact Hnd|].
    intros worker bid Hin. destruct (Hheld _ _ Hin) as (? & ? & _). done. }
  intros Hnf Hfin.
  pose proof (interleave_counted ty schedule n w0 Hnf) as (_ & Hcount & Hth).
  pose proof (interleave_length ty schedule (replicate n Starting, w0)) as Hlen.
  cbn [fst] in Hlen. rewrite length_replicate in Hlen.
  destruct (finished_count ty w0 _ _ (proj1 Hsh) Hth Hfin) as [Hall Hc].
  split.
  - pose proof (omap_length_le holding
                  (interleave ty schedule (replicate n Starting, w0)).1).
    destruct Hc as [Hc|Hc]; lia.
  - eapply Forall_impl; [exact Hall|].
    intros st [[c ->] | ->]; [left; by exists c|by right].
Qed.

(** * The claims *)

Ltac by_compute :=
  match goal with |- ?P => apply (bool_decide_unpack P); vm_compute; exact I end.

(** A claim keeps every ID in exactly one of the two sets. *)
Lemma moved_keeps_ids ty worker bid w w' worker' :
  sets w' = moved RedisPrefix ty worker bid (sets w) ->
  bid ∈ free_of ty worker w ->
  free_of ty worker' w' ∪ busy_of ty worker' w'
  = free_of ty worker' w ∪ busy_of ty worker' w
  ∧ (free_of ty worker' w ## busy_of ty worker' w ->
     free_of ty worker' w' ## busy_of ty worker' w').
Proof.
  intros Hs Hbid.
  rewrite (moved_free ty worker bid w w' Hs), (moved_busy ty worker bid w w' Hs).
  case_decide; [subst worker'|done]. split.
  - apply set_eq. intros x.
    rewrite !elem_of_union, elem_of_difference, elem_of_singleton.
    destruct (decide (x = bid)) as [->|Hx]; tauto.
  - intros Hdisj x [Hx Hne]%elem_of_difference [Hb|Hb]%elem_of_union.
    + by apply (Hdisj x).
    + contradiction.
Qed.

Lemma resolve_profile_replies `{Libraries} `{Platform} profile w :
  verdict (Client.resolve_profile profile w).2 = verdict w
  ∧ trace (Client.resolve_profile profile w).2 = trace w
  ∧ clock (Client.resolve_profile profile w).2 = clock w
  ∧ sets (Client.resolve_profile profile w).2 = sets w.
Proof.
  pose proof (resolve_profile_settled profile w) as ((Hs & _) & Hr & Ht & Hc).
  unfold verdict. by rewrite Hr.
Qed.

Section Claims.
Context `{Libraries} `{Platform}.

Lemma client_acquire_sets ty a w :
  sets (client_acquire ty a w).2 = sets w
  ∨ exists worker bid,
      worker ∈ pool w ∧ bid ∈ free_of ty worker w
      ∧ sets (client_acquire ty a w).2 = moved RedisPrefix ty worker bid (sets w).
Proof.
  destruct a as [[[c video] profile] record]. unfold client_acquire.
  pose proof (Acquire_outcome ty video profile record c w) as Hout.
  pose proof (resolve_profile_settled profile w) as ((Hs0 & _) & _).
  destruct (Client.Acquire ty video profile record c w) as [[c' w'] r].
  cbv zeta in Hout. cbn [snd].
  destruct Hout as [_ [(e & _ & _ & _ & ->)|[(_ & _ & _ & -> & _)|(_ & worker & bid & _ & _ & ? & ? & ?)]]].
  - left. exact Hs0.
  - left. exact Hs0.
  - right. eauto.
Qed.

Lemma client_acquire_spec ty a w :
  no_faults w ->
  let '(r, w') := client_acquire ty a w in
  no_faults w'
  ∧ ((client_claim r = None ∧ r.2 = (None, Some nothing_free)
      ∧ sets w' = sets w ∧ free_total ty w = 0%nat)
     ∨ (exists worker bid,
          client_claim r = Some (worker, bid) ∧ worker ∈ pool w
          ∧ bid ∈ free_of ty worker w
          ∧ sets w' = moved RedisPrefix ty worker bid (sets w))).
Proof.
  intros Hnf. destruct a as [[[c video] profile] record]. unfold client_acquire.
  pose proof (Acquire_outcome ty video profile record c w) as Hout.
  pose proof (resolve_profile_settled profile w) as ((Hs0 & _) & Hr0 & _).
  destruct (Client.Acquire ty video profile record c w) as [[c' w'] r].
  cbv zeta in Hout. destruct Hout as [Hsuf Hout].
  split; [by eapply suffix_no_faults|].
  destruct Hout as [(e & He & _)|[(_ & -> & _ & -> & Hz)|(_ & worker & bid & -> & _ & ? & ? & ?)]].
  - exfalso. apply (no_faults_verdict w Hnf e). unfold verdict in *. by rewrite <- Hr0.
  - left. split; [done|]. split; [done|]. split; [exact Hs0|done].
  - right. exists worker, bid. unfold client_claim. cbn [snd].
    rewrite claim_of_acquired. done.
Qed.

Lemma browser_acquire_spec ty a w :
  no_faults w ->
  let '(r, w') := browser_acquire ty a w in
  no_faults w'
  ∧ ((held r = None
      ∧ r.2 = Some (if decide (pool w = []) then BrowserClient.no_workers
                    else BrowserClient.no_available ty)
      ∧ sets w' = sets w ∧ free_total ty w = 0%nat)
     ∨ (exists worker bid,
          held r = Some (worker, bid) ∧ worker ∈ pool w
          ∧ bid ∈ free_of ty worker w
          ∧ sets w' = moved RedisPrefix ty worker bid (sets w))).
Proof.
  intros Hnf. destruct a as [b record]. unfold browser_acquire.
  pose proof (BrowserClient_Acquire_spec ty record b w Hnf) as Hout.
  destruct (BrowserClient.Acquire ty record b w) as [[b' w'] err].
  destruct Hout as [Hnf' Hout]. split; [done|].
  destruct Hout as [(-> & _ & ? & ?)|(worker & bid & -> & Hsess & ? & ? & ?)].
  - left. done.
  - right. exists worker, bid. unfold held. cbn [fst snd]. rewrite Hsess. done.
Qed.

(** With the flag down, the payload carries the flags of the session. *)
Lemma build_payload_first c s taskID action args resultKey :
  Client.InitSent c = false ->
  let p := Client.build_payload c s taskID action args resultKey in
  Client.video p = Client.Video s
  ∧ Client.record p = Client.Record_ s
  ∧ Client.profile_id p = Client.ProfileID s.
Proof.
  intros Hinit. unfold Client.build_payload. rewrite Hinit.
  destruct (Client.Video s), (Client.Record_ s); case_bool_decide; simpl; auto.
Qed.

Lemma luaScript_quiet ty w :
  trace (Client.luaScript [WorkersSet] [RedisPrefix; ty] w).2 = trace w
  ∧ uuids (Client.luaScript [WorkersSet] [RedisPrefix; ty] w).2 = uuids w.
Proof.
  pose proof (luaScript_spec ty w) as Hlua.
  destruct (Client.luaScript [WorkersSet] [RedisPrefix; ty] w) as [[res|] w'].
  - destruct Hlua as (worker & bid & _ & _ & _ & ->). done.
  - destruct Hlua as [-> _]. done.
Qed.

(** C2 (amended).  Against an empty or unreadable worker set, both clients
    fail after a single store call, without waiting on anything (one
    event, the clock unchanged).  [BrowserClient.Acquire] returns its
    no-workers error, which differs from its no-available error.
    [Client.Acquire] returns the "Redis Lua Error" when the call fails;
    against an empty set it fails exactly as it does against a pool
    without a free instance, having no error of its own for a missing
    worker; it leaves the pool as it was and its init flag down. *)
Theorem empty_pool_is_refused (ty : string) (w : World) :
  pool w = [] ∨ (exists e, verdict w = Failed e) ->
  (forall record b,
     BrowserClient.Acquire ty record b w
     = (b, after (EvSMembers WorkersSet) w, Some BrowserClient.no_workers))
  ∧ BrowserClient.no_workers ≠ BrowserClient.no_available ty
  ∧ (forall video profile record c,
       let '(c', w', r) := Client.Acquire ty video profile record c w in
       c' = Client.set_InitSent false c
       ∧ r.1 = None ∧ is_Some r.2
       ∧ (forall e, verdict w = Failed e -> r.2 = Some (Client.lua_error e))
       ∧ trace w' = trace w ++ [EvEval [WorkersSet] [RedisPrefix; ty]]
       ∧ clock w' = clock w
       ∧ sets w' = sets w
       ∧ forall c2 w2,
           free_total ty w2 = 0%nat -> verdict w2 = verdict w ->
           (Client.Acquire ty video profile record c2 w2).2 = r).
Proof.
  intros Hw. split; [|split].
  - intros record b. unfold BrowserClient.Acquire. rewrite SMembers_unfold.
    fold (pool w). destruct Hw as [Hp|[e He]].
    + rewrite Hp. destruct (verdict w); (case_bool_decide as Hc; [done|]);
        exfalso; apply Hc; auto.
    + rewrite He. case_bool_decide as Hc; [done|]. exfalso; apply Hc; auto.
  - unfold BrowserClient.no_workers, BrowserClient.no_available.
    intros [=].
  - intros video profile record c.
    pose proof (Acquire_outcome ty video profile record c w) as Hout.
    pose proof (resolve_profile_replies profile w) as (Hv & Ht & Hc & Hs).
    assert (Hother : forall c2 w2 r,
              free_total ty w2 = 0%nat -> verdict w2 = verdict w ->
              r = (None, Some (match verdict w with
                               | Failed e => Client.lua_error e
                               | _ => nothing_free
                               end)) ->
              (Client.Acquire ty video profile record c2 w2).2 = r).
    { intros c2 w2 r Hz Hv2 ->.
      pose proof (Acquire_outcome ty video profile record c2 w2) as Hout2.
      pose proof (resolve_profile_replies profile w2) as (Hv' & _).
      destruct (Client.Acquire ty video profile record c2 w2) as [[c2' w2'] r2].
      cbv zeta in Hout2. destruct Hout2 as [_ Hout2]. rewrite Hv', Hv2 in Hout2.
      cbn [snd].
      destruct Hout2 as [(e & He & -> & _)|[(Hok & -> & _)|(_ & worker & bid & _ & _ & Hin & Hbid & _)]].
      - by rewrite He.
      - destruct (verdict w) as [|e|raw]; try done. by destruct (Hok e).
      - pose proof (proj2 (free_total_zero ty w2) Hz worker Hin) as He.
        rewrite He in Hbid. by apply elem_of_empty in Hbid. }
    destruct (Client.Acquire ty video profile record c w) as [[c' w'] r].
    cbv zeta in Hout. destruct Hout as [_ Hout]. rewrite Hv in Hout.
    destruct Hout as [(e & He & -> & -> & ->)|[(Hok & -> & -> & -> & _)|(Hok & worker & bid & _ & _ & Hin & _)]].
    + split; [done|]. split; [done|]. split; [eauto|].
      split; [intros e' He'; rewrite He in He'; by injection He' as ->|].
      split; [unfold after; simpl; by rewrite Ht|].
      split; [unfold after; simpl; by rewrite Hc|].
      split; [unfold after; simpl; by rewrite Hs|].
      intros c2 w2 Hz Hv2. apply Hother; [done|done|]. by rewrite He.
    + split; [done|]. split; [done|]. split; [eauto|].
      split; [intros e' He'; by destruct (Hok e')|].
      split; [unfold after; simpl; by rewrite Ht|].
      split; [unfold after; simpl; by rewrite Hc|].
      split; [unfold after; simpl; by rewrite Hs|].
      intros c2 w2 Hz Hv2. apply Hother; [done|done|].
      destruct (verdict w) as [|e|raw]; try done. by destruct (Hok e).
    + exfalso. destruct Hw as [Hp|[e He]].
      * rewrite Hp in Hin. by apply elem_of_nil in Hin.
      * by apply (Hok e).
Qed.

(** C3.  After [Release] on a client that holds a session, the session is
    nil, whatever the teardown and release-browser commands returned, and
    [Release] has returned rather than panicked; any [Send] that follows
    returns the not-acquired error and leaves client and world alone.
    This holds for both clients. *)
Theorem release_clears_session (c : Client.t) (b : BrowserClient.t) (w : World) :
  is_Some (Client.Session_ c) ->
  is_Some (BrowserClient.Session_ b) ->
  (let '(c', w', out) := Client.Release c w in
   Client.Session_ c' = None
   ∧ (exists res err, out = Client.Returned res err)
   ∧ forall action args timeout,
       Client.SendWithTimeout action args timeout c' w'
       = (c', w', (None, Some (Client.not_acquired_error action))))
  ∧
  (let '(b', w', _) := BrowserClient.Release b w in
   BrowserClient.Session_ b' = None
   ∧ forall action args timeoutSeconds,
       BrowserClient.Send action args timeoutSeconds b' w'
       = (b', w', (None, Some (errors_New "session not acquired")))).
Proof.
  intros [s Hs] [t Ht]. split.
  - unfold Client.Release. rewrite Hs.
    set (first := if Client.Video s then _ else _).
    assert (Client.Session_ first.1 = Some s) as Hfirst.
    { subst first. destruct (Client.Video s); [|exact Hs].
      rewrite teardown_Session; [exact Hs|reflexivity]. }
    destruct first as [c1 w1]. simpl in Hfirst. rewrite Hfirst.
    destruct (if Client.Record_ s then _ else _) as [c2 w2].
    destruct (Client.Send "release_browser" None c2 w2) as [[c3 w3] [res [e|]]];
      (split; [reflexivity|split; [eauto|]]); intros;
      unfold Client.SendWithTimeout; reflexivity.
  - unfold BrowserClient.Release. rewrite Ht.
    destruct (if BrowserClient.Record_ t then _ else _) as [b1 w1].
    destruct (BrowserClient.Send "release_browser" None 60 b1 w1) as [[b2 w2] [res err]].
    split; [reflexivity|]. intros. reflexivity.
Qed.

(** C4 (amended).  The payload [SendWithTimeout] builds carries the video
    flag, the record flag and the profile ID of the session exactly when
    [InitSent] is false, and the browser type exactly when [InitSent] is
    false and the session has a profile ID.  That payload, serialised, is
    the first thing the call puts on the worker's queue.  [InitSent]
    becomes true only with a call that returns a parsed response; a call
    that fails leaves the client unchanged, so the flags go out again. *)
Theorem init_flags_on_first_call (action : string) (args : option jmap) (timeout : Z)
    (c : Client.t) (w : World) (s : Client.Session) :
  Client.Session_ c = Some s ->
  let taskID := uuid_Hex (uuids w) in
  let resultKey := RedisPrefix +:+ "result:" +:+ taskID in
  let payload := Client.build_payload c s taskID action args resultKey in
  Client.video payload = negb (Client.InitSent c) && Client.Video s
  ∧ Client.record payload = negb (Client.InitSent c) && Client.Record_ s
  ∧ Client.profile_id payload
    = (if Client.InitSent c then "" else Client.ProfileID s)
  ∧ Client.browser_type payload
    = (if Client.InitSent c then ""
       else if bool_decide (Client.ProfileID s = "") then ""
            else Client.BrowserType s)
  ∧ (forall data, json_Marshal Client.TaskPayload payload = inl data ->
       (trace w ++ [EvRPush (RedisPrefix +:+ Client.WorkerName s +:+ ":tasks") data])
         `prefix_of` trace (Client.SendWithTimeout action args timeout c w).1.2)
  ∧ (let '(c', _, (res, err)) := Client.SendWithTimeout action args timeout c w in
     (err = None -> Client.InitSent c' = true ∧ is_Some res)
     ∧ (is_Some err -> c' = c)).
Proof.
  intros Hs taskID resultKey payload.
  assert (Client.video payload = negb (Client.InitSent c) && Client.Video s
          ∧ Client.record payload = negb (Client.InitSent c) && Client.Record_ s
          ∧ Client.profile_id payload
            = (if Client.InitSent c then "" else Client.ProfileID s)
          ∧ Client.browser_type payload
            = (if Client.InitSent c then ""
               else if bool_decide (Client.ProfileID s = "") then ""
                    else Client.BrowserType s)) as (Hv & Hr & Hp & Hb).
  { subst payload. unfold Client.build_payload.
    destruct (Client.InitSent c), (Client.Video s), (Client.Record_ s);
      simpl; repeat case_bool_decide; simpl; try done; repeat split; congruence. }
  do 4 (split; [assumption|]).
  split; [intros data Hdata; apply SendWithTimeout_pushes; assumption|].
  pose proof (SendWithTimeout_client action args timeout c w) as Hc.
  destruct (Client.SendWithTimeout action args timeout c w) as [[c' w'] [res err]].
  destruct Hc as [(-> & -> & Hres)|([e ->] & -> & ->)]; split; try done.
Qed.

(** C5.  [executeWithRetry] returns what the last attempt of the policy
    returned.  The policy makes between one and four attempts; an attempt
    is followed by another only if it failed with something other than
    [redis.Nil], so a [redis.Nil] is returned at once and the wrapper
    succeeds exactly when some attempt does; when every attempt fails
    otherwise there are exactly four.  For the queue append and the
    blocking pop, four failures in a row show as four calls with sleeps of
    0.2 s, 0.4 s and 0.8 s between them, and the fourth error is
    returned. *)
Theorem retry_wrapper_policy {X : Type}
    (op : X -> World -> World * (X * option error)) (x : X) (w : World) :
  let made := attempts op x w in
  let result := Client.executeWithRetry op x w in
  last made = Some result
  ∧ (1 <= length made <= 4)%nat
  ∧ (forall i r, made !! i = Some r -> (S i < length made)%nat ->
       exists e, failed_with r e ∧ e ≠ redis_Nil)
  ∧ (forall r, r ∈ made -> failed_with r redis_Nil -> result = r)
  ∧ (succeeded result <-> Exists succeeded made)
  ∧ (Forall (fun r => exists e, failed_with r e ∧ e ≠ redis_Nil) made ->
       length made = 4%nat)
  ∧ (forall queue data e1 e2 e3 e4 rest,
       replies w = Failed e1 :: Failed e2 :: Failed e3 :: Failed e4 :: rest ->
       e1 ≠ redis_Nil -> e2 ≠ redis_Nil -> e3 ≠ redis_Nil ->
       exists w',
         Client.executeWithRetry (Client.push_op queue data) tt w = (w', (tt, Some e4))
         ∧ trace w' = trace w ++
             [EvRPush queue data; EvSleep (200 * Millisecond);
              EvRPush queue data; EvSleep (400 * Millisecond);
              EvRPush queue data; EvSleep (800 * Millisecond);
              EvRPush queue data])
  ∧ (forall key timeout e1 e2 e3 e4 rest,
       replies w = Failed e1 :: Failed e2 :: Failed e3 :: Failed e4 :: rest ->
       e1 ≠ redis_Nil -> e2 ≠ redis_Nil -> e3 ≠ redis_Nil ->
       exists w',
         Client.executeWithRetry (Client.pop_op key timeout) [] w = (w', ([], Some e4))
         ∧ trace w' = trace w ++
             [EvBLPop key timeout; EvSleep (200 * Millisecond);
              EvBLPop key timeout; EvSleep (400 * Millisecond);
              EvBLPop key timeout; EvSleep (800 * Millisecond);
              EvBLPop key timeout]).
Proof.
  intros made result.
  assert (last made = Some result) as Hlast.
  { apply (retry_loop_attempts op 0 x w). unfold Client.maxAttempts. lia. }
  split; [exact Hlast|].
  split; [apply (attempts_from_length op policy_delays x w)|].
  split; [intros i r; apply attempts_from_retried|].
  split.
  { intros r Hin Hnil. unfold failed_with in Hnil.
    pose proof (attempts_from_final op policy_delays x w r Hin (or_intror Hnil)) as Hr.
    fold (attempts op x w) in Hr. fold made in Hr. congruence. }
  split.
  { split.
    - intros Hok. apply Exists_exists. exists result. split; [|exact Hok].
      rewrite last_lookup in Hlast. eapply list_elem_of_lookup_2, Hlast.
    - intros (r & Hin & Hok)%Exists_exists.
      pose proof (attempts_from_final op policy_delays x w r Hin (or_introl Hok)) as Hr.
      fold (attempts op x w) in Hr. fold made in Hr. congruence. }
  split; [apply attempts_from_all_failing|].
  split.
  - intros queue data e1 e2 e3 e4 rest Hr H1 H2 H3.
    destruct (push_four_failures queue data w e1 e2 e3 e4 rest Hr H1 H2 H3)
      as (w' & ? & ? & _). eauto.
  - intros key timeout e1 e2 e3 e4 rest Hr H1 H2 H3.
    destruct (pop_four_failures key timeout w e1 e2 e3 e4 rest Hr H1 H2 H3)
      as (w' & ? & ? & _). eauto.
Qed.

(** C6.  When the task was pushed and the wrapped blocking pop ends with
    [redis.Nil] or [context.DeadlineExceeded], [SendWithTimeout] fails
    with the timeout error and leaves the client unchanged; with any other
    error of the pop it fails with the "Redis RPC Error", and no such
    error equals the timeout error. *)
Theorem timeout_is_its_own_error (action : string) (args : option jmap) (timeout : Z)
    (c : Client.t) (w w1 w2 : World) (s : Client.Session) (data : string)
    (raw : list string) (e : error) :
  Client.Session_ c = Some s ->
  let taskID := uuid_Hex (uuids w) in
  let resultKey := RedisPrefix +:+ "result:" +:+ taskID in
  let queue := RedisPrefix +:+ Client.WorkerName s +:+ ":tasks" in
  json_Marshal Client.TaskPayload
    (Client.build_payload c s taskID action args resultKey) = inl data ->
  Client.executeWithRetry (Client.push_op queue data) tt (uuid_New w).2 = (w1, (tt, None)) ->
  Client.executeWithRetry (Client.pop_op resultKey timeout) [] w1 = (w2, (raw, Some e)) ->
  Client.SendWithTimeout action args timeout c w
  = (c, w2, (None, Some (if bool_decide (e = redis_Nil ∨ e = context_DeadlineExceeded)
                         then Client.timeout_error else Client.rpc_error e)))
  ∧ (forall e', Client.timeout_error ≠ Client.rpc_error e').
Proof.
  intros Hs taskID resultKey queue Hdata Hpush Hpop. split.
  - unfold Client.SendWithTimeout. rewrite Hs.
    destruct (uuid_New w) as [u w0] eqn:Hu. unfold uuid_New in Hu.
    injection Hu as <- <-. fold taskID resultKey queue.
    rewrite Hdata. simpl in Hpush. rewrite Hpush, Hpop.
    case_bool_decide; reflexivity.
  - intros e'. unfold Client.timeout_error, Client.rpc_error, NewBrowserError. simpl. discriminate.
Qed.

(** C7.  Without a session, [SendWithTimeout], [Send] and
    [BrowserClient.Send] return the not-acquired error at once: the client
    and the whole world (queues, trace, UUID counter) are unchanged, so no
    task was serialised or pushed. *)
Theorem send_without_session (action : string) (args : option jmap)
    (timeout timeoutSeconds : Z) (c : Client.t) (b : BrowserClient.t) (w : World) :
  Client.Session_ c = None ->
  BrowserClient.Session_ b = None ->
  Client.SendWithTimeout action args timeout c w
    = (c, w, (None, Some (Client.not_acquired_error action)))
  ∧ Client.Send action args c w = (c, w, (None, Some (Client.not_acquired_error action)))
  ∧ BrowserClient.Send action args timeoutSeconds b w
    = (b, w, (None, Some (errors_New "session not acquired"))).
Proof.
  intros Hc Hb. unfold Client.Send, Client.SendWithTimeout, BrowserClient.Send.
  rewrite Hc, Hb. auto.
Qed.

(** Once the flag is up, a payload carries none of the session's flags. *)
Lemma build_payload_later c s taskID action args resultKey :
  Client.InitSent c = true ->
  let p := Client.build_payload c s taskID action args resultKey in
  Client.video p = false ∧ Client.record p = false
  ∧ Client.profile_id p = "" ∧ Client.browser_type p = "".
Proof. intros Hinit. unfold Client.build_payload. by rewrite Hinit. Qed.

(** The one store call of [Acquire]. *)
Lemma Eval_luaScript ty w :
  let '(w1, (result, err)) :=
    Client.Eval Client.luaScript [WorkersSet] [RedisPrefix; ty] w in
  trace w1 = trace w ++ [EvEval [WorkersSet] [RedisPrefix; ty]]
  ∧ uuids w1 = uuids w
  ∧ ((result = None ∧ is_Some err)
     ∨ (exists worker bid, result = Some [worker; bid] ∧ err = None)).
Proof.
  unfold Client.Eval. rewrite next_reply_emit.
  set (w1 := after _ w).
  assert (trace w1 = trace w ++ [EvEval [WorkersSet] [RedisPrefix; ty]]
          ∧ uuids w1 = uuids w) as [Ht Hu] by done.
  clearbody w1.
  pose proof (luaScript_spec ty w1) as Hlua.
  pose proof (luaScript_quiet ty w1) as [Ht2 Hu2].
  destruct (verdict w) as [|e|raw]; [|split; [done|split; [done|left; eauto]]|];
    (destruct (Client.luaScript [WorkersSet] [RedisPrefix; ty] w1) as [[res|] w2];
     cbn [snd] in Ht2, Hu2;
     [destruct Hlua as (worker & bid & -> & _)|];
     (split; [congruence|]); (split; [congruence|]); [right|left]; eauto).
Qed.

(** C8.  A [SendWithTimeout] on a live session leaves the session as it
    was, however it ends.  When it returns an error, whichever it is, it
    returns the client it was given and no response; when it succeeds it
    only raises [InitSent].  Nothing but [Release] clears the session: the
    actions built on [Send] keep it, an [Acquire] that fails keeps it and
    one that succeeds replaces it, and the earlier client's [Send] returns
    its client unchanged. *)
Theorem failed_send_keeps_session (action : string) (args : option jmap)
    (timeout : Z) (c : Client.t) (w : World) (s : Client.Session) :
  Client.Session_ c = Some s ->
  (let '(c', _, (res, err)) := Client.SendWithTimeout action args timeout c w in
   Client.Session_ c' = Some s
   ∧ (is_Some err -> c' = c ∧ res = None)
   ∧ (err = None -> c' = Client.set_InitSent true c))
  ∧ Client.Session_ (Client.Send action args c w).1.1 = Some s
  ∧ (forall filename selector,
       Client.Session_ (Actions.Screenshot filename selector c w).1.1 = Some s)
  ∧ (forall assertion,
       Client.Session_ (Actions.handleAssertion action assertion c w).1.1 = Some s)
  ∧ (forall ty video profile record,
       let '(c', _, (_, err)) := Client.Acquire ty video profile record c w in
       is_Some (Client.Session_ c')
       ∧ (is_Some err -> Client.Session_ c' = Some s))
  ∧ (forall (b : BrowserClient.t) timeoutSeconds,
       (BrowserClient.Send action args timeoutSeconds b w).1.1 = b).
Proof.
  intros Hs. split; [|split; [|split; [|split; [|split]]]].
  - pose proof (SendWithTimeout_client action args timeout c w) as Hc.
    destruct (Client.SendWithTimeout action args timeout c w) as [[c' w'] [res err]].
    destruct Hc as [(-> & -> & _)|([e ->] & -> & ->)].
    + split; [done|]. split; [by intros [? ?]|done].
    + split; [done|]. split; [done|]. intros [=].
  - unfold Client.Send. by rewrite SendWithTimeout_Session.
  - intros filename selector. unfold Actions.Screenshot.
    destruct (if bool_decide (filename = "") then _ else _) as [path w0].
    unfold Client.Send.
    match goal with
    | |- context [Client.SendWithTimeout ?a ?x ?t c w0] =>
        pose proof (SendWithTimeout_Session a x t c w0) as Hse;
        destruct (Client.SendWithTimeout a x t c w0) as [[c1 w1] [res [e|]]]
    end; cbn [fst] in Hse.
    + cbn [fst]. congruence.
    + destruct (Actions.saveBase64Result res "image_base64" path w1) as [w2 r].
      cbn [fst]. congruence.
  - intros assertion. unfold Actions.handleAssertion, Client.Send.
    match goal with
    | |- context [Client.SendWithTimeout ?a ?x ?t c w] =>
        pose proof (SendWithTimeout_Session a x t c w) as Hse;
        destruct (Client.SendWithTimeout a x t c w) as [[c1 w1] [res [e|]]]
    end; cbn [fst] in Hse.
    + cbn [fst]. congruence.
    + case_bool_decide; cbn [fst]; congruence.
  - intros ty video profile record.
    pose proof (Acquire_outcome ty video profile record c w) as Ho.
    cbv zeta in Ho.
    destruct (Client.Acquire ty video profile record c w) as [[c' w'] [res err]].
    destruct Ho as [_ [(e & _ & [= -> ->] & -> & _)
                      |[(_ & [= -> ->] & -> & _)
                      |(_ & worker & bid & [= -> ->] & (s' & Hs' & _) & _)]]].
    + split; [|intros _]; cbn [Client.Session_ Client.set_InitSent]; rewrite Hs; eauto.
    + split; [|intros _]; cbn [Client.Session_ Client.set_InitSent]; rewrite Hs; eauto.
    + split; [rewrite Hs'; eauto|by intros [? ?]].
  - intros b timeoutSeconds. apply BrowserClient_Send_client.
Qed.

(** C9 (amended).  [Release] without a session returns at once, without a
    panic, and touches neither the store, the world nor the client.
    [BrowserClient.Release] returns the error "no active session";
    [Client.Release] returns no error, but the map [{status: error, error:
    not_acquired}]. *)
Theorem release_without_session (c : Client.t) (b : BrowserClient.t) (w : World) :
  Client.Session_ c = None ->
  BrowserClient.Session_ b = None ->
  Client.Release c w = (c, w, Client.Returned (Some Client.not_acquired) None)
  ∧ BrowserClient.Release b w = (b, w, (None, Some (errors_New "no active session"))).
Proof.
  intros Hc Hb. unfold Client.Release, BrowserClient.Release.
  rewrite Hc, Hb. auto.
Qed.

(** C10 (amended).  [Acquire] lowers [InitSent] before it claims, whatever
    the flag was: its outcome does not depend on it, and a failed call
    leaves it down.  After a successful call the first command of the new
    session carries the session's flags.  When no profile, video or record
    was asked for, no command has been sent and [InitSent] is still false.
    Otherwise that first command is the get_title that [Acquire] itself
    sends right after the claim, built with the flag down, and [Acquire]
    returns what that command left: [InitSent] is true on return exactly
    when the get_title was answered with a response, and false whenever it
    failed.  With [InitSent] false on return the caller's next payload
    carries the flags; with [InitSent] true it carries none of them. *)
Theorem acquire_lowers_init_flag (ty : string) (video : bool)
    (profile : Client.profile_arg) (record : bool) (c : Client.t) (w : World) :
  let profileID := (Client.resolve_profile profile w).1 in
  let w0 := (Client.resolve_profile profile w).2 in
  let w1 := (Client.Eval Client.luaScript [WorkersSet] [RedisPrefix; ty] w0).1 in
  let flags := bool_decide (profileID ≠ "") || video || record in
  (forall sent, Client.Acquire ty video profile record (Client.set_InitSent sent c) w
                = Client.Acquire ty video profile record c w)
  ∧ (let '(c', w', r) := Client.Acquire ty video profile record c w in
     (is_Some r.2 -> Client.InitSent c' = false)
     ∧ (r.2 = None ->
        exists worker bid,
          let s := Client.mkSession bid worker ty video record profileID in
          let c1 := Client.set_Session (Some s) (Client.set_InitSent false c) in
          let warm := Client.Send "get_title" None c1 w1 in
          let taskID := uuid_Hex (uuids w0) in
          let warm_up :=
            Client.build_payload c1 s taskID "get_title" None
              (RedisPrefix +:+ "result:" +:+ taskID) in
          Client.Session_ c' = Some s
          ∧ (flags = false -> c' = c1 ∧ w' = w1 ∧ Client.InitSent c' = false)
          ∧ (flags = true ->
             c' = warm.1.1 ∧ w' = warm.1.2
             ∧ (Client.InitSent c' = true <-> warm.2.2 = None)
             ∧ (Client.InitSent c' = true <-> is_Some warm.2.1)
             ∧ Client.video warm_up = video ∧ Client.record warm_up = record
             ∧ Client.profile_id warm_up = profileID
             ∧ forall data,
                 json_Marshal Client.TaskPayload warm_up = inl data ->
                 (trace w ++ [EvEval [WorkersSet] [RedisPrefix; ty];
                              EvRPush (RedisPrefix +:+ worker +:+ ":tasks") data])
                   `prefix_of` trace w')
          ∧ (Client.InitSent c' = false ->
             forall taskID' action args resultKey,
               let p := Client.build_payload c' s taskID' action args resultKey in
               Client.video p = video ∧ Client.record p = record
               ∧ Client.profile_id p = profileID)
          ∧ (Client.InitSent c' = true ->
             forall taskID' action args resultKey,
               let p := Client.build_payload c' s taskID' action args resultKey in
               Client.video p = false ∧ Client.record p = false
               ∧ Client.profile_id p = "" ∧ Client.browser_type p = ""))).
Proof.
  intros profileID w0 w1 flags. split; [reflexivity|].
  unfold Client.Acquire. subst flags w1 profileID w0.
  pose proof (resolve_profile_replies profile w) as (_ & Ht0 & _).
  destruct (Client.resolve_profile profile w) as [profileID w0]. cbn [fst snd] in *.
  pose proof (Eval_luaScript ty w0) as He.
  destruct (Client.Eval Client.luaScript [WorkersSet] [RedisPrefix; ty] w0)
    as [w1 [result err]].
  cbn [fst]. destruct He as (Ht1 & Hu1 & [[-> [e ->]]|(worker & bid & -> & ->)]).
  { split; [done|]. intros [=]. }
  rewrite Ht0 in Ht1.
  pose (s := Client.mkSession bid worker ty video record profileID).
  pose (c1 := Client.set_Session (Some s) (Client.set_InitSent false c)).
  destruct (bool_decide (profileID ≠ "") || video || record) eqn:Hflags.
  2: { split; [intros [? [=]]|]. intros _. exists worker, bid. cbv zeta.
       split; [done|]. split; [done|]. split; [done|].
       split; [intros _ ?taskID' ?action ?args ?resultKey;
               by apply (build_payload_first c1 s)|done]. }
  unfold Client.Send.
  pose proof (SendWithTimeout_client "get_title" None Client.DefaultRPCWait c1 w1) as Hcl.
  pose proof (SendWithTimeout_Session "get_title" None Client.DefaultRPCWait c1 w1) as Hse.
  pose proof (SendWithTimeout_pushes "get_title" None Client.DefaultRPCWait c1 w1 s) as Hpu.
  subst c1 s.
  destruct (Client.SendWithTimeout "get_title" None Client.DefaultRPCWait _ w1)
    as [[c' w'] [res err]] eqn:Hwarm.
  cbn [fst snd] in *.
  split; [intros [? [=]]|]. intros _. exists worker, bid. cbv zeta.
  unfold Client.Send. rewrite Hwarm. cbn [fst snd].
  set (s := Client.mkSession bid worker ty video record profileID) in *.
  set (c1 := Client.set_Session (Some s) (Client.set_InitSent false c)) in *.
  split; [exact Hse|]. split; [done|].
  split.
  { intros _. split; [done|]. split; [done|].
    assert ((Client.InitSent c' = true <-> err = None)
            ∧ (Client.InitSent c' = true <-> is_Some res)) as [Hi1 Hi2].
    { destruct Hcl as [(-> & -> & Hres)|([e ->] & -> & ->)].
      - split; (split; [done|]); done.
      - split; (split; [intros [=]|]); [intros [=]|by intros [? ?]]. }
    split; [exact Hi1|]. split; [exact Hi2|].
    pose proof (build_payload_first c1 s (uuid_Hex (uuids w0)) "get_title" None
                  (RedisPrefix +:+ "result:" +:+ uuid_Hex (uuids w0)) eq_refl)
      as (Hv & Hr & Hp).
    split; [exact Hv|]. split; [exact Hr|]. split; [exact Hp|].
    intros data Hdata. rewrite <- Hu1 in Hdata.
    specialize (Hpu data eq_refl Hdata).
    rewrite Ht1, <- app_assoc in Hpu. exact Hpu. }
  split.
  - intros Hinit ?taskID' ?action ?args ?resultKey.
    by apply (build_payload_first c' s).
  - intros Hinit ?taskID' ?action ?args ?resultKey.
    by apply (build_payload_later c' s).
Qed.

End Claims.

(** * The claims on sample pools *)

(** C1.  The claim asks for a pop and an add that are one operation.
    [Client.Acquire] makes them one script; [BrowserClient.Acquire] makes
    them two store calls and drops the outcome of the second.  When the
    store fails its [SADD], the call still succeeds with [b1], which has
    left the free set and is not in the busy set.  And with the store
    answering every call, a caller that has made its [SPOP] and not yet its
    [SADD] holds [b1] while [b1] is in neither set.  A caller of
    [Client.Acquire] that finds the only chrome busy gets the "Redis Lua
    Error" around [redis.Nil], not the no-browsers error. *)
Lemma busy_add_can_be_lost :
  (let '(r, w') :=
     browser_acquire (H:=sample_libraries) "chrome" (BrowserClient.fresh, false)
                     lost_world in
   held r = Some ("w1", "b1")
   ∧ "b1" ∈ free_of "chrome" "w1" lost_world
   ∧ ("b1" ∉ free_of "chrome" "w1" w')
   ∧ ("b1" ∉ busy_of "chrome" "w1" w'))
  ∧ (let '(ts, w') :=
       interleave "chrome" [0; 0]%nat ([Starting; Starting], world_of one_free_sets []) in
     ts = [Adding "w1" "b1"; Starting]
     ∧ ("b1" ∉ free_of "chrome" "w1" w')
     ∧ ("b1" ∉ busy_of "chrome" "w1" w'))
  ∧ (Client.Acquire (H:=sample_libraries) (H0:=sample_platform) "chrome" false
       Client.profile_nil false Client.fresh (world_of none_free_sets [])).2
    = (None, Some (NewBrowserError "Redis Lua Error: redis: nil"))
  ∧ NewBrowserError "Redis Lua Error: redis: nil" ≠ Client.no_browsers "chrome".
Proof.
  split; [|split; [|split]].
  - vm_compute browser_acquire.
    split; [reflexivity|]. repeat split; by_compute.
  - vm_compute interleave.
    split; [reflexivity|]. split; by_compute.
  - vm_compute. reflexivity.
  - intros [=].
Qed.

(** [BrowserClient.Acquire] with no worker registered. *)
Lemma empty_pool_is_refused_witness :
  (pool (world_of no_worker_sets []) = []
   ∨ exists e, verdict (world_of no_worker_sets []) = Failed e)
  ∧ BrowserClient.Acquire (H:=sample_libraries) "chrome" false BrowserClient.fresh
      (world_of no_worker_sets [])
    = (BrowserClient.fresh, after (EvSMembers WorkersSet) (world_of no_worker_sets []),
       Some BrowserClient.no_workers).
Proof.
  assert (pool (world_of no_worker_sets []) = []
          ∨ exists e, verdict (world_of no_worker_sets []) = Failed e) as Hw
    by (left; vm_compute; reflexivity).
  split; [exact Hw|].
  apply (proj1 (empty_pool_is_refused (H:=sample_libraries) (H0:=sample_platform)
                  "chrome" _ Hw)).
Defined.

(** C2 as stated fails for [Client.Acquire]: with no worker registered it
    fails with the very error it fails with when the only chrome is
    busy. *)
Lemma empty_pool_fails_like_a_busy_pool :
  pool (world_of no_worker_sets []) = []
  ∧ pool (world_of none_free_sets []) = ["w1"]
  ∧ is_Some (Client.Acquire (H:=sample_libraries) (H0:=sample_platform) "chrome" false
               Client.profile_nil false Client.fresh (world_of no_worker_sets [])).2.2
  ∧ (Client.Acquire (H:=sample_libraries) (H0:=sample_platform) "chrome" false
       Client.profile_nil false Client.fresh (world_of no_worker_sets [])).2
    = (Client.Acquire (H:=sample_libraries) (H0:=sample_platform) "chrome" false
         Client.profile_nil false Client.fresh (world_of none_free_sets [])).2.
Proof.
  split; [vm_compute; reflexivity|]. split; [vm_compute; reflexivity|].
  split; [vm_compute; eauto|vm_compute; reflexivity].
Qed.

(** Releasing when no worker answers. *)
Lemma release_clears_session_witness :
  is_Some (Client.Session_ filming) ∧ is_Some (BrowserClient.Session_ recording)
  ∧ Client.Session_ (Client.Release (H:=sample_libraries) filming quiet_world).1.1 = None
  ∧ BrowserClient.Session_
      (BrowserClient.Release (H:=sample_libraries) recording quiet_world).1.1 = None.
Proof.
  assert (is_Some (Client.Session_ filming)) as Hc by (eexists; reflexivity).
  assert (is_Some (BrowserClient.Session_ recording)) as Hb by (eexists; reflexivity).
  split; [exact Hc|]. split; [exact Hb|].
  pose proof (release_clears_session (H:=sample_libraries) filming recording quiet_world Hc Hb)
    as [H1 H2].
  destruct (Client.Release filming quiet_world) as [[c' w'] out].
  destruct (BrowserClient.Release recording quiet_world) as [[b' w''] r].
  split; [apply H1|apply H2].
Defined.

(** The first payload of a session with video carries the flag. *)
Lemma init_flags_on_first_call_witness :
  Client.Session_ filming = Some (Client.mkSession "b1" "w1" "chrome" true false "")
  ∧ Client.video
      (Client.build_payload filming (Client.mkSession "b1" "w1" "chrome" true false "")
         (uuid_Hex (Libraries:=sample_libraries) 0) "get_title" None
         (RedisPrefix +:+ "result:" +:+ uuid_Hex (Libraries:=sample_libraries) 0))
    = true.
Proof.
  split; [reflexivity|].
  pose proof (init_flags_on_first_call (H:=sample_libraries) "get_title" None
                Client.DefaultRPCWait filming quiet_world
                (Client.mkSession "b1" "w1" "chrome" true false "") eq_refl)
    as (Hv & _).
  exact Hv.
Defined.

(** C4 as stated fails: on the first call of a session without profile the
    payload does not carry the browser type. *)
Lemma browser_type_needs_profile :
  Client.InitSent plain = false
  ∧ Client.BrowserType (Client.mkSession "b1" "w1" "chrome" false false "") = "chrome"
  ∧ Client.browser_type
      (Client.build_payload plain (Client.mkSession "b1" "w1" "chrome" false false "")
         "5f2b9c1e" "get_title" None "ISOAUTOMATE:result:5f2b9c1e")
    = "".
Proof. repeat split. Qed.

(** Four connection failures in a row when pushing. *)
Lemma retry_wrapper_policy_witness :
  length (attempts (Client.push_op "ISOAUTOMATE:w1:tasks" "{}") tt failing_world) = 4%nat
  ∧ (Client.executeWithRetry (Client.push_op "ISOAUTOMATE:w1:tasks" "{}") tt failing_world).2
    = (tt, Some (redis_failure "i/o timeout")).
Proof.
  pose proof (retry_wrapper_policy (Client.push_op "ISOAUTOMATE:w1:tasks" "{}") tt failing_world)
    as (Hlast & _ & _ & _ & _ & Hall & Hpush & _).
  split.
  - apply Hall. vm_compute. repeat constructor; eexists; (split; [reflexivity|discriminate]).
  - destruct (Hpush "ISOAUTOMATE:w1:tasks" "{}" _ _ _ _ [] eq_refl) as (w' & -> & _);
      done.
Defined.

(** No worker answers within 60 s. *)
Lemma timeout_is_its_own_error_witness :
  let w := quiet_world in
  let queue := "ISOAUTOMATE:w1:tasks" in
  let resultKey := "ISOAUTOMATE:result:5f2b9c1e" in
  let w1 := (Client.executeWithRetry (Client.push_op queue "{}") tt
               (uuid_New (H:=sample_libraries) w).2).1 in
  let w2 := (Client.executeWithRetry (Client.pop_op resultKey (60 * Second)) [] w1).1 in
  Client.Session_ plain = Some (Client.mkSession "b1" "w1" "chrome" false false "")
  ∧ Client.SendWithTimeout (H:=sample_libraries) "get_title" None (60 * Second) plain w
    = (plain, w2, (None, Some Client.timeout_error))
  ∧ clock w2 = clock w + 60 * Second.
Proof.
  intros w queue resultKey w1 w2.
  split; [reflexivity|].
  split; [|vm_compute; reflexivity].
  refine (proj1 (timeout_is_its_own_error (H:=sample_libraries) "get_title" None (60 * Second)
                   plain w w1 w2 (Client.mkSession "b1" "w1" "chrome" false false "")
                   "{}" [] redis_Nil eq_refl eq_refl _ _)).
  - vm_compute. reflexivity.
  - vm_compute. reflexivity.
Defined.

(** A click on a client that never acquired. *)
Lemma send_without_session_witness :
  Client.Session_ Client.fresh = None ∧ BrowserClient.Session_ BrowserClient.fresh = None
  ∧ Client.Send (H:=sample_libraries) "click" None Client.fresh quiet_world
    = (Client.fresh, quiet_world, (None, Some (Client.not_acquired_error "click")))
  ∧ BrowserClient.Send (H:=sample_libraries) "click" None 60 BrowserClient.fresh quiet_world
    = (BrowserClient.fresh, quiet_world, (None, Some (errors_New "session not acquired"))).
Proof.
  split; [reflexivity|]. split; [reflexivity|].
  pose proof (send_without_session (H:=sample_libraries) "click" None (60 * Second) 60
                Client.fresh BrowserClient.fresh quiet_world eq_refl eq_refl)
    as (_ & H1 & H2).
  split; [exact H1|exact H2].
Defined.

(** A get_title that times out. *)
Lemma failed_send_keeps_session_witness :
  let r := Client.SendWithTimeout (H:=sample_libraries) "get_title" None (60 * Second)
             filming quiet_world in
  Client.Session_ filming = Some (Client.mkSession "b1" "w1" "chrome" true false "")
  ∧ r.2 = (None, Some Client.timeout_error)
  ∧ Client.Session_ r.1.1 = Some (Client.mkSession "b1" "w1" "chrome" true false "").
Proof.
  intros r. split; [reflexivity|]. split; [vm_compute; reflexivity|].
  pose proof (failed_send_keeps_session (H:=sample_libraries) (H0:=sample_platform)
                "get_title" None (60 * Second) filming quiet_world
                (Client.mkSession "b1" "w1" "chrome" true false "") eq_refl) as [Hk _].
  fold r in Hk. destruct r as [[c' w'] [res err]]. exact (proj1 Hk).
Defined.

(** Releasing a client that never acquired. *)
Lemma release_without_session_witness :
  Client.Session_ Client.fresh = None ∧ BrowserClient.Session_ BrowserClient.fresh = None
  ∧ Client.Release (H:=sample_libraries) Client.fresh quiet_world
    = (Client.fresh, quiet_world, Client.Returned (Some Client.not_acquired) None)
  ∧ BrowserClient.Release (H:=sample_libraries) BrowserClient.fresh quiet_world
    = (BrowserClient.fresh, quiet_world, (None, Some (errors_New "no active session"))).
Proof.
  split; [reflexivity|]. split; [reflexivity|].
  apply (release_without_session (H:=sample_libraries) Client.fresh BrowserClient.fresh
           quiet_world eq_refl eq_refl).
Defined.

(** C9 as stated fails for [Client.Release]: without a session it returns
    no error, only a map that says so. *)
Lemma release_without_session_is_no_error :
  Client.Session_ Client.fresh = None
  ∧ exists res,
      (Client.Release (H:=sample_libraries) Client.fresh quiet_world).2
      = Client.Returned (Some res) None
      ∧ res !! "status" = Some (JString "error")
      ∧ res !! "error" = Some (JString "not_acquired").
Proof.
  split; [reflexivity|]. exists Client.not_acquired.
  split; [reflexivity|]. split; by_compute.
Qed.

(** C10 as stated fails: after an [Acquire] with video whose warm-up was
    answered, [InitSent] is true and the caller's first payload does not
    carry the video flag. *)
Lemma warm_up_uses_up_the_flags :
  let '(c', w', r) :=
    Client.Acquire (H:=sample_libraries) (H0:=sample_platform) "chrome" true
      Client.profile_nil false Client.fresh answering_world in
  r = (Some (Client.acquired "w1" "b1"), None)
  ∧ Client.Session_ c' = Some (Client.mkSession "b1" "w1" "chrome" true false "")
  ∧ Client.InitSent c' = true
  ∧ Client.video
      (Client.build_payload c' (Client.mkSession "b1" "w1" "chrome" true false "")
         "5f2b9c1e0" "open_url" None "ISOAUTOMATE:result:5f2b9c1e0")
    = false.
Proof. vm_compute. repeat split. Qed.

(** * Further properties of the code *)

(** ** Cleaning a selector *)


Lemma chars_cons b s : chars (String b s) = b :: chars s.
Proof. reflexivity. Qed.

Lemma length_chars s : length (chars s) = String.length s.
Proof. induction s as [|b s IH]; [done|]. rewrite chars_cons. simpl. by rewrite IH. Qed.

Lemma chars_substring n s : chars (String.substring 0 n s) = take n (chars s).
Proof.
  revert s. induction n as [|n IH]; intros [|b s]; try done.
  cbn [String.substring]. rewrite !chars_cons. cbn [take]. by rewrite IH.
Qed.

Lemma first20_chars s : chars (first20 s) = take 20 (chars s).
Proof.
  unfold first20. destruct (Nat.ltb_spec 20 (String.length s)) as [Hlt|Hle].
  - apply chars_substring.
  - rewrite take_ge; [done|]. by rewrite length_chars.
Qed.

Lemma ReplaceAll_chars s old new :
  chars (strings_ReplaceAll s old new)
  = chars s ≫= (fun b => if Ascii.eqb b old then chars new else [b]).
Proof.
  induction s as [|b s IH]; [done|].
  cbn [strings_ReplaceAll]. rewrite chars_app, IH, chars_cons.
  cbn [mbind list_bind]. by destruct (Ascii.eqb b old).
Qed.

Lemma Replacer_chars pairs s :
  chars (Replacer_Replace pairs s) = chars s ≫= (fun b => chars (replacement b pairs)).
Proof.
  induction s as [|b s IH]; [done|].
  cbn [Replacer_Replace]. by rewrite chars_app, IH, chars_cons.
Qed.


Lemma cleaned_special b c : c ∈ cleaned b -> ¬ special c.
Proof.
  unfold cleaned, special.
  destruct (Ascii.eqb_spec b "#"); [by intros ?%elem_of_nil|].
  destruct (Ascii.eqb_spec b "."); [by intros ?%elem_of_nil|].
  destruct (Ascii.eqb_spec b " ").
  - intros ->%list_elem_of_singleton. intros [?|[?|?]]; discriminate.
  - intros ->%list_elem_of_singleton. tauto.
Qed.

Lemma cleaned_plain b : ¬ special b -> cleaned b = [b].
Proof.
  unfold cleaned, special. intros Hb.
  destruct (Ascii.eqb_spec b "#"); [tauto|].
  destruct (Ascii.eqb_spec b "."); [tauto|].
  destruct (Ascii.eqb_spec b " "); [tauto|done].
Qed.

Lemma three_replacements s :
  chars (strings_ReplaceAll (strings_ReplaceAll (strings_ReplaceAll s "#" "") "." "") " " "_")
  = chars s ≫= cleaned.
Proof.
  rewrite !ReplaceAll_chars.
  induction (chars s) as [|b l IH]; [done|].
  cbn [mbind list_bind]. rewrite !bind_app, IH. f_equal.
  unfold cleaned.
  destruct (Ascii.eqb b "#"); [done|]. cbn [mbind list_bind app].
  destruct (Ascii.eqb b "."); [done|]. cbn [mbind list_bind app].
  destruct (Ascii.eqb b " "); done.
Qed.

Lemma replacer_cleaned s :
  chars (Replacer_Replace [("#"%char, ""); ("."%char, ""); (" "%char, "_")] s)
  = chars s ≫= cleaned.
Proof.
  rewrite Replacer_chars.
  induction (chars s) as [|b l IH]; [done|].
  cbn [mbind list_bind]. rewrite IH. f_equal.
  unfold cleaned. cbn [replacement].
  destruct (Ascii.eqb b "#"); [done|].
  destruct (Ascii.eqb b "."); [done|].
  destruct (Ascii.eqb b " "); done.
Qed.

Lemma bind_cleaned_plain l : Forall (fun b => ¬ special b) l -> l ≫= cleaned = l.
Proof.
  induction 1 as [|b l Hb _ IH]; [done|].
  cbn [mbind list_bind]. by rewrite IH, cleaned_plain.
Qed.

Lemma bind_cleaned_special l : Forall (fun b => ¬ special b) (l ≫= cleaned).
Proof.
  apply Forall_forall. intros c (b & Hc & _)%list_elem_of_bind.
  by eapply cleaned_special.
Qed.

Lemma cleanSelector_chars s : chars (cleanSelector s) = take 20 (chars s ≫= cleaned).
Proof. unfold cleanSelector. by rewrite first20_chars, three_replacements. Qed.

(** X1.  [cleanSelector] returns at most 20 bytes, none of them [#], [.] or a
    space; it leaves alone a selector that already is like that, so cleaning
    twice is cleaning once. *)
Theorem cleanSelector_clean (s : string) :
  (String.length (cleanSelector s) <= 20)%nat
  ∧ Forall (fun b => ¬ special b) (chars (cleanSelector s))
  ∧ ((String.length s <= 20)%nat -> Forall (fun b => ¬ special b) (chars s) ->
     cleanSelector s = s)
  ∧ cleanSelector (cleanSelector s) = cleanSelector s.
Proof.
  assert (Hlen : (String.length (cleanSelector s) <= 20)%nat).
  { rewrite <- length_chars, cleanSelector_chars, length_take. lia. }
  assert (Hsp : Forall (fun b => ¬ special b) (chars (cleanSelector s))).
  { rewrite cleanSelector_chars. apply Forall_take, bind_cleaned_special. }
  assert (Hid : forall t, (String.length t <= 20)%nat ->
                  Forall (fun b => ¬ special b) (chars t) -> cleanSelector t = t).
  { intros t Ht Hp. apply chars_inj.
    rewrite cleanSelector_chars, bind_cleaned_plain by done.
    apply take_ge. by rewrite length_chars. }
  split; [done|]. split; [done|]. split; [apply Hid|]. by apply Hid.
Qed.

(** X2.  The cleaning that [BrowserClient.handleAssertion] spells out with a
    [strings.Replacer] is [cleanSelector]. *)
Theorem selectorClean_is_cleanSelector (selector : string) :
  selectorClean selector = cleanSelector selector.
Proof.
  apply chars_inj. unfold selectorClean.
  by rewrite first20_chars, replacer_cleaned, cleanSelector_chars.
Qed.

(** ** The transport *)


Lemma aside_refl key w : aside key w w.
Proof. by repeat split. Qed.

Lemma aside_trans key w1 w2 w3 : aside key w1 w2 -> aside key w2 w3 -> aside key w1 w3.
Proof.
  intros (Hl1 & Hs1 & Hf1 & Hu1) (Hl2 & Hs2 & Hf2 & Hu2). repeat split; try congruence.
  intros k Hk. by rewrite Hl2, Hl1.
Qed.

Lemma aside_sleep key d w : aside key w (time_Sleep d w).
Proof. by repeat split. Qed.

Lemma logged_refl P w : logged P w w.
Proof. exists []. by rewrite app_nil_r. Qed.

Lemma logged_trans P w1 w2 w3 : logged P w1 w2 -> logged P w2 w3 -> logged P w1 w3.
Proof.
  intros (e1 & H1 & F1) (e2 & H2 & F2). exists (e1 ++ e2).
  split; [by rewrite H2, H1, app_assoc|by apply Forall_app].
Qed.

Lemma logged_one (P : event -> Prop) e w w' :
  trace w' = trace w ++ [e] -> P e -> logged P w w'.
Proof. intros Ht He. exists [e]. split; [done|by apply Forall_singleton]. Qed.

Lemma logged_sleep (P : event -> Prop) d w :
  (forall d, P (EvSleep d)) -> logged P w (time_Sleep d w).
Proof. intros HP. by apply (logged_one P (EvSleep d)). Qed.

(** The loop returns what its last attempt returned, and that attempt
    started where failed attempts and sleeps had led. *)
Lemma retry_loop_last {X : Type} (I : World -> Prop)
    (op : X -> World -> World * (X * option error)) :
  (forall x w, I w -> is_Some (op x w).2.2 -> I (op x w).1) ->
  (forall d w, I w -> I (time_Sleep d w)) ->
  forall attempt x w, I w ->
    exists x0 w0, I w0 ∧ Client.retry_loop op attempt x w = op x0 w0.
Proof.
  intros Hop Hsleep attempt.
  remember (Client.maxAttempts - attempt)%nat as k eqn:Hk.
  revert attempt Hk. induction k as [|k IH]; intros attempt Hk x w Hw;
    rewrite retry_loop_step; pose proof (Hop x w Hw) as Hstep;
    destruct (op x w) as [w1 [x1 [err|]]] eqn:Hopw; cbn [fst snd] in Hstep.
  - destruct (decide _) as [[_ Hlt]|_]; [lia|]. exists x, w. by rewrite Hopw.
  - exists x, w. by rewrite Hopw.
  - destruct (decide _) as [[_ Hlt]|_]; [|exists x, w; by rewrite Hopw].
    apply IH; [lia|]. apply Hsleep, Hstep. eauto.
  - exists x, w. by rewrite Hopw.
Qed.

Lemma RPush_cases queue data w :
  let '(w1, err) := RPush queue data w in
  (is_Some err ∧ lists w1 = lists w)
  ∨ (err = None ∧ lists w1 = <[queue := (lists w !!! queue) ++ [data]]> (lists w)).
Proof.
  unfold RPush. rewrite next_reply_emit. destruct (verdict w); simpl; eauto.
Qed.

Lemma RPush_rest queue data w :
  strs (RPush queue data w).1 = strs w ∧ files (RPush queue data w).1 = files w
  ∧ uuids (RPush queue data w).1 = uuids w.
Proof. unfold RPush. rewrite next_reply_emit. by destruct (verdict w). Qed.

Lemma BLPop_aside key timeout w : aside key w (BLPop key timeout w).1.
Proof.
  unfold BLPop. rewrite next_reply_emit.
  destruct (verdict w); simpl; try apply aside_refl; try done.
  change (lists (after (EvBLPop key timeout) w)) with (lists w).
  destruct (lists w !!! key) as [|v rest]; simpl; [by repeat split|].
  repeat split. intros k Hk. simpl. by rewrite lookup_total_insert_ne.
Qed.

Lemma pop_loop_aside key timeout attempt x w :
  aside key w (Client.retry_loop (Client.pop_op key timeout) attempt x w).1.
Proof.
  apply (retry_loop_preserves (aside key)).
  - apply aside_refl.
  - apply aside_trans.
  - intros. apply BLPop_aside.
  - apply aside_sleep.
Qed.

Lemma time_Sleep_trace d w : trace (time_Sleep d w) = trace w ++ [EvSleep d].
Proof. done. Qed.

Lemma push_loop_logged queue data attempt x w :
  logged (fun e => e = EvRPush queue data ∨ is_sleep e) w
         (Client.retry_loop (Client.push_op queue data) attempt x w).1.
Proof.
  apply (retry_loop_preserves (logged _)).
  - apply logged_refl.
  - apply logged_trans.
  - intros x0 w0. unfold Client.push_op.
    pose proof (RPush_trace queue data w0) as Ht.
    destruct (RPush queue data w0) as [w1 e]. simpl in *.
    eapply logged_one; [exact Ht|by left].
  - intros d w0. apply logged_sleep. intros d0. right. by exists d0.
Qed.

Lemma pop_loop_logged key timeout attempt x w :
  logged (fun e => e = EvBLPop key timeout ∨ is_sleep e) w
         (Client.retry_loop (Client.pop_op key timeout) attempt x w).1.
Proof.
  apply (retry_loop_preserves (logged _)).
  - apply logged_refl.
  - apply logged_trans.
  - intros x0 w0. unfold Client.pop_op.
    eapply logged_one; [apply BLPop_trace|by left].
  - intros d w0. apply logged_sleep. intros d0. right. by exists d0.
Qed.

Lemma push_loop_queues queue data attempt x w :
  let '(w1, (_, err)) := Client.retry_loop (Client.push_op queue data) attempt x w in
  strs w1 = strs w ∧ files w1 = files w ∧ uuids w1 = uuids w
  ∧ ((is_Some err ∧ lists w1 = lists w)
     ∨ (err = None ∧ lists w1 = <[queue := (lists w !!! queue) ++ [data]]> (lists w))).
Proof.
  destruct (retry_loop_last
              (fun w0 => lists w0 = lists w ∧ strs w0 = strs w ∧ files w0 = files w
                         ∧ uuids w0 = uuids w)
              (Client.push_op queue data)) with (attempt := attempt) (x := x) (w := w)
    as (x0 & w0 & (Hl & Hs & Hf & Hu) & ->); [| |done|].
  - intros x1 w1 (Hl & Hs & Hf & Hu) Herr. unfold Client.push_op in *.
    pose proof (RPush_cases queue data w1) as Hc.
    pose proof (RPush_rest queue data w1) as (Hs1 & Hf1 & Hu1).
    destruct (RPush queue data w1) as [w2 err]. cbn [fst snd] in *.
    destruct Hc as [[_ Hl2]|[-> _]]; [|by destruct Herr].
    repeat split; congruence.
  - intros d w1 (? & ? & ? & ?). done.
  - unfold Client.push_op.
    pose proof (RPush_cases queue data w0) as Hc.
    pose proof (RPush_rest queue data w0) as (Hs1 & Hf1 & Hu1).
    destruct (RPush queue data w0) as [w2 err]. cbn [fst snd] in *.
    split; [congruence|]. split; [congruence|]. split; [congruence|].
    destruct Hc as [[? Hl2]|[-> Hl2]]; [left|right]; (split; [done|]).
    + congruence.
    + by rewrite Hl2, Hl.
Qed.

Section Transport.
Context `{Libraries} `{Platform}.

Lemma SendWithTimeout_keys (action : string) (args : option jmap) (timeout : Z)
    (c : Client.t) (w : World) (s : Client.Session) :
  Client.Session_ c = Some s ->
  let taskID := uuid_Hex (uuids w) in
  let resultKey := RedisPrefix +:+ "result:" +:+ taskID in
  let queue := RedisPrefix +:+ Client.WorkerName s +:+ ":tasks" in
  let payload := Client.build_payload c s taskID action args resultKey in
  let '(_, w', (_, err)) := Client.SendWithTimeout action args timeout c w in
  uuids w' = S (uuids w)
  ∧ Client.result_key payload = resultKey
  ∧ Client.worker_name payload = Client.WorkerName s
  ∧ Client.browser_id payload = Client.BrowserID s
  ∧ exists pushes pops,
      trace w' = trace w ++ pushes ++ pops
      ∧ Forall (fun e => (exists data, json_Marshal Client.TaskPayload payload = inl data
                                       ∧ e = EvRPush queue data)
                         ∨ is_sleep e) pushes
      ∧ Forall (fun e => e = EvBLPop resultKey timeout ∨ is_sleep e) pops
      ∧ (forall e, err = Some e -> (forall m, e ≠ BrowserError m) -> pops = []).
Proof.
  intros Hs taskID resultKey queue payload.
  assert (Hfields : Client.result_key payload = resultKey
                    ∧ Client.worker_name payload = Client.WorkerName s
                    ∧ Client.browser_id payload = Client.BrowserID s).
  { subst payload. unfold Client.build_payload.
    destruct (Client.InitSent c), (Client.Video s), (Client.Record_ s);
      try case_bool_decide; done. }
  destruct Hfields as (Hk & Hw & Hb).
  unfold Client.SendWithTimeout. rewrite Hs. unfold uuid_New.
  fold taskID. fold resultKey. fold queue. fold payload.
  set (w0 := set_uuids _ w).
  destruct (json_Marshal Client.TaskPayload payload) as [data|merr] eqn:Hm.
  2: { split; [done|]. split; [done|]. split; [done|]. split; [done|].
       exists [], []. rewrite !app_nil_r. split; [done|]. split; [done|].
       split; [done|]. done. }
  unfold Client.executeWithRetry.
  pose proof (push_loop_logged queue data 0 tt w0) as (pushes & Htp & Hfp).
  pose proof (push_loop_queues queue data 0 tt w0) as Hq.
  destruct (Client.retry_loop (Client.push_op queue data) 0 tt w0) as [w1 [[] perr]].
  cbn [fst] in Htp. destruct Hq as (_ & _ & Hu1 & _).
  assert (Hfp' : Forall (fun e => (exists data0, inl data = @inl string error data0
                                                ∧ e = EvRPush queue data0)
                                  ∨ is_sleep e) pushes).
  { eapply Forall_impl; [exact Hfp|]. intros e [->|?]; [left; eauto|by right]. }
  destruct perr as [e|].
  { split; [done|]. split; [done|]. split; [done|]. split; [done|].
    exists pushes, []. rewrite app_nil_r. done. }
  pose proof (pop_loop_logged resultKey timeout 0 [] w1) as (pops & Htq & Hfq).
  pose proof (pop_loop_aside resultKey timeout 0 [] w1) as (_ & _ & _ & Hu2).
  destruct (Client.retry_loop (Client.pop_op resultKey timeout) 0 [] w1)
    as [w2 [resultRaw qerr]].
  cbn [fst] in Htq, Hu2.
  assert (Hall : uuids w2 = S (uuids w)
                 ∧ trace w2 = trace w ++ pushes ++ pops).
  { split; [by rewrite Hu2, Hu1|]. by rewrite Htq, Htp, <- app_assoc. }
  destruct Hall as [Hu Ht].
  destruct qerr as [e|].
  { case_bool_decide;
      (split; [done|]; split; [done|]; split; [done|]; split; [done|];
       exists pushes, pops; split; [done|]; split; [done|]; split; [done|];
       intros e0 [= <-] Hne; by destruct (Hne _ eq_refl)). }
  destruct resultRaw as [|r0 [|raw1 rest]];
    [| |destruct (json_Unmarshal raw1) as [resp|uerr]];
    (split; [done|]; split; [done|]; split; [done|]; split; [done|];
     exists pushes, pops; split; [done|]; split; [done|]; split; [done|];
     intros e0 He0 Hne; try discriminate;
     injection He0 as <-; by destruct (Hne _ eq_refl)).
Qed.

(** X3.  A [SendWithTimeout] on a session draws one UUID and, besides
    sleeping, only pushes the serialised task on the queue of the session's
    worker and then only pops, with the timeout given, from the result key
    that the task names.  When it returns an error of the store rather than
    one of its own, nothing was popped. *)
Theorem send_keeps_to_its_keys (action : string) (args : option jmap) (timeout : Z)
    (c : Client.t) (w : World) (s : Client.Session) :
  Client.Session_ c = Some s ->
  let taskID := uuid_Hex (uuids w) in
  let resultKey := RedisPrefix +:+ "result:" +:+ taskID in
  let queue := RedisPrefix +:+ Client.WorkerName s +:+ ":tasks" in
  let payload := Client.build_payload c s taskID action args resultKey in
  let '(_, w', (_, err)) := Client.SendWithTimeout action args timeout c w in
  uuids w' = S (uuids w)
  ∧ Client.result_key payload = resultKey
  ∧ Client.worker_name payload = Client.WorkerName s
  ∧ Client.browser_id payload = Client.BrowserID s
  ∧ exists pushes pops,
      trace w' = trace w ++ pushes ++ pops
      ∧ Forall (fun e => (exists data, json_Marshal Client.TaskPayload payload = inl data
                                       ∧ e = EvRPush queue data)
                         ∨ is_sleep e) pushes
      ∧ Forall (fun e => e = EvBLPop resultKey timeout ∨ is_sleep e) pops
      ∧ (forall e, err = Some e -> (forall m, e ≠ BrowserError m) -> pops = []).
Proof. apply SendWithTimeout_keys. Qed.

(** X4.  With failed store calls leaving the store as it was, a
    [SendWithTimeout] queues its task at most once, at the tail of the
    worker's queue, however often it retries, and exactly once when it
    returns a response; it changes no other list than the one under its
    result key, and no string key. *)
Theorem send_queues_the_task_once (action : string) (args : option jmap)
    (timeout : Z) (c : Client.t) (w : World) (s : Client.Session) (data : string) :
  Client.Session_ c = Some s ->
  let taskID := uuid_Hex (uuids w) in
  let resultKey := RedisPrefix +:+ "result:" +:+ taskID in
  let queue := RedisPrefix +:+ Client.WorkerName s +:+ ":tasks" in
  json_Marshal Client.TaskPayload
    (Client.build_payload c s taskID action args resultKey) = inl data ->
  queue ≠ resultKey ->
  let '(_, w', (res, err)) := Client.SendWithTimeout action args timeout c w in
  (lists w' !!! queue = (lists w !!! queue) ++ [data]
   ∨ (lists w' !!! queue = lists w !!! queue ∧ is_Some err))
  ∧ (is_Some res -> lists w' !!! queue = (lists w !!! queue) ++ [data])
  ∧ (forall key, key ≠ queue -> key ≠ resultKey -> lists w' !!! key = lists w !!! key)
  ∧ strs w' = strs w.
Proof.
  intros Hs taskID resultKey queue Hm Hne.
  unfold Client.SendWithTimeout. rewrite Hs. unfold uuid_New.
  fold taskID. fold resultKey. fold queue. rewrite Hm.
  set (w0 := set_uuids _ w).
  unfold Client.executeWithRetry.
  pose proof (push_loop_queues queue data 0 tt w0) as Hq.
  destruct (Client.retry_loop (Client.push_op queue data) 0 tt w0) as [w1 [[] perr]].
  destruct Hq as (Hs1 & _ & _ & Hl1).
  change (lists w0) with (lists w) in Hl1. change (strs w0) with (strs w) in Hs1.
  destruct perr as [e|].
  { destruct Hl1 as [[_ Hl1]|[? _]]; [|done].
    split; [right; split; [by rewrite Hl1|eauto]|].
    split; [by intros [? ?]|]. split; [|done]. intros key _ _. by rewrite Hl1. }
  destruct Hl1 as [[[? ?] _]|[_ Hl1]]; [done|].
  pose proof (pop_loop_aside resultKey timeout 0 [] w1) as (Hl2 & Hs2 & _).
  destruct (Client.retry_loop (Client.pop_op resultKey timeout) 0 [] w1)
    as [w2 [resultRaw qerr]].
  cbn [fst] in Hl2, Hs2.
  assert (Hqueue : lists w2 !!! queue = (lists w !!! queue) ++ [data]).
  { rewrite Hl2 by done. rewrite Hl1. by rewrite lookup_total_insert_eq. }
  assert (Hrest : forall key, key ≠ queue -> key ≠ resultKey ->
                    lists w2 !!! key = lists w !!! key).
  { intros key Hk1 Hk2. rewrite Hl2 by done. rewrite Hl1.
    by rewrite lookup_total_insert_ne. }
  assert (Hstrs : strs w2 = strs w) by congruence.
  assert (Hdone : forall (res : option jmap) (err : option error),
            (lists w2 !!! queue = (lists w !!! queue) ++ [data]
             ∨ (lists w2 !!! queue = lists w !!! queue ∧ is_Some err))
            ∧ (is_Some res -> lists w2 !!! queue = (lists w !!! queue) ++ [data])
            ∧ (forall key, key ≠ queue -> key ≠ resultKey ->
                 lists w2 !!! key = lists w !!! key)
            ∧ strs w2 = strs w).
  { intros res err. split; [by left|]. split; [by intros _|]. by split. }
  destruct qerr as [e|]; [case_bool_decide; apply Hdone|].
  destruct resultRaw as [|r0 [|raw1 rest]];
    [| |destruct (json_Unmarshal raw1) as [resp|uerr]]; apply Hdone.
Qed.

Lemma BLPop_quiet key timeout w :
  replies w = [] -> lists w !!! key = [] ->
  BLPop key timeout w
  = (set_clock (clock w + timeout) (after (EvBLPop key timeout) w), ([], Some redis_Nil)).
Proof.
  intros Hr Hl. unfold BLPop. rewrite next_reply_emit. unfold verdict. rewrite Hr.
  cbn [head default]. change (lists (after (EvBLPop key timeout) w)) with (lists w).
  by rewrite Hl.
Qed.

Lemma SendWithTimeout_waits_once (action : string) (args : option jmap) (timeout : Z)
    (c : Client.t) (w : World) (s : Client.Session) (data : string) :
  Client.Session_ c = Some s ->
  let taskID := uuid_Hex (uuids w) in
  let resultKey := RedisPrefix +:+ "result:" +:+ taskID in
  let queue := RedisPrefix +:+ Client.WorkerName s +:+ ":tasks" in
  json_Marshal Client.TaskPayload
    (Client.build_payload c s taskID action args resultKey) = inl data ->
  replies w = [] ->
  lists w !!! resultKey = [] ->
  queue ≠ resultKey ->
  let '(c', w', r) := Client.SendWithTimeout action args timeout c w in
  r = (None, Some Client.timeout_error) ∧ c' = c
  ∧ clock w' = clock w + timeout
  ∧ trace w' = trace w ++ [EvRPush queue data; EvBLPop resultKey timeout]
  ∧ lists w' = <[queue := (lists w !!! queue) ++ [data]]> (lists w).
Proof.
  intros Hs taskID resultKey queue Hm Hr Hl Hne.
  unfold Client.SendWithTimeout. rewrite Hs. unfold uuid_New.
  fold taskID. fold resultKey. fold queue. rewrite Hm.
  set (w0 := set_uuids _ w).
  unfold Client.executeWithRetry. rewrite retry_loop_step.
  unfold Client.push_op, RPush. rewrite next_reply_emit.
  assert (verdict w0 = Served) as -> by (unfold verdict; cbn; by rewrite Hr).
  set (w1 := set_lists _ _).
  rewrite retry_loop_step. unfold Client.pop_op.
  rewrite BLPop_quiet.
  2: { subst w1. cbn. by rewrite Hr. }
  2: { subst w1. cbn. by rewrite lookup_total_insert_ne. }
  destruct (decide _) as [[Hn _]|_]; [done|].
  rewrite bool_decide_true by (by left).
  split; [done|]. split; [done|]. split; [done|].
  split; [subst w1; cbn; by rewrite <- app_assoc|done].
Qed.

(** X5.  A wait that runs out is not retried.  For a timeout of a whole
    positive number of seconds, when the store serves the push and nothing
    arrives under the result key, [SendWithTimeout] pushes once, pops once,
    and returns its timeout error when the timeout given has passed, not
    four times that. *)
Theorem send_waits_once (action : string) (args : option jmap) (seconds : Z)
    (c : Client.t) (w : World) (s : Client.Session) (data : string) :
  Client.Session_ c = Some s ->
  0 < seconds ->
  let timeout := seconds * Second in
  let taskID := uuid_Hex (uuids w) in
  let resultKey := RedisPrefix +:+ "result:" +:+ taskID in
  let queue := RedisPrefix +:+ Client.WorkerName s +:+ ":tasks" in
  json_Marshal Client.TaskPayload
    (Client.build_payload c s taskID action args resultKey) = inl data ->
  replies w = [] ->
  lists w !!! resultKey = [] ->
  queue ≠ resultKey ->
  let '(c', w', r) := Client.SendWithTimeout action args timeout c w in
  r = (None, Some Client.timeout_error) ∧ c' = c
  ∧ clock w' = clock w + timeout
  ∧ trace w' = trace w ++ [EvRPush queue data; EvBLPop resultKey timeout]
  ∧ lists w' = <[queue := (lists w !!! queue) ++ [data]]> (lists w).
Proof.
  intros Hs _ timeout.
  exact (SendWithTimeout_waits_once action args timeout c w s data Hs).
Qed.

End Transport.

(** ** Sessions *)

Section Sessions.
Context `{Libraries} `{Platform}.

Lemma poll_result resultKey start timeout w :
  let '(_, (res, err)) := BrowserClient.poll resultKey start timeout w in
  (is_Some res ∧ err = None) ∨ (res = None ∧ is_Some err).
Proof.
  funelim (BrowserClient.poll resultKey start timeout w); try (right; eauto; fail).
  - destruct (Del resultKey w1) as [w2 ?].
    destruct (json_Unmarshal val); [left|right]; eauto.
  - assumption.
Qed.

Lemma BrowserClient_Send_result action args timeoutSeconds c w :
  let '(_, _, (res, err)) := BrowserClient.Send action args timeoutSeconds c w in
  (is_Some res ∧ err = None) ∨ (res = None ∧ is_Some err).
Proof.
  unfold BrowserClient.Send. destruct (BrowserClient.Session_ c) as [s|]; [|right; eauto].
  unfold uuid_New.
  match goal with |- context [RPush ?q ?d ?w0] => destruct (RPush q d w0) as [w1 ?] end.
  match goal with
  | |- context [BrowserClient.poll ?k ?s ?t w1] =>
      pose proof (poll_result k s t w1) as Hp;
      destruct (BrowserClient.poll k s t w1) as [w2 [res err]]
  end.
  exact Hp.
Qed.

Lemma teardown_settled action timeout field store c w :
  settled w (Client.teardown action timeout field store c w).2.
Proof.
  unfold Client.teardown.
  pose proof (SendWithTimeout_settled action None timeout c w) as Hs.
  destruct (Client.SendWithTimeout action None timeout c w) as [[c1 w1] [res [e|]]];
    [exact Hs|]. by destruct (string_field res field).
Qed.

Lemma Release_settled c w : settled w (Client.Release c w).1.2.
Proof.
  unfold Client.Release. destruct (Client.Session_ c) as [s|]; [|apply settled_refl].
  set (first := if Client.Video s then _ else _).
  assert (settled w first.2) as H1.
  { subst first. destruct (Client.Video s); [apply teardown_settled|apply settled_refl]. }
  destruct first as [c1 w1]. cbn [snd] in H1.
  destruct (Client.Session_ c1) as [s1|]; [|exact H1].
  set (second := if Client.Record_ s1 then _ else _).
  assert (settled w1 second.2) as H2.
  { subst second. destruct (Client.Record_ s1); [apply teardown_settled|apply settled_refl]. }
  destruct second as [c2 w2]. cbn [snd] in H2.
  pose proof (SendWithTimeout_settled "release_browser" None Client.DefaultRPCWait c2 w2) as H3.
  unfold Client.Send.
  destruct (Client.SendWithTimeout "release_browser" None Client.DefaultRPCWait c2 w2)
    as [[c3 w3] [res [e|]]]; cbn [fst snd] in *;
    exact (settled_trans _ _ _ H1 (settled_trans _ _ _ H2 H3)).
Qed.

Lemma BrowserClient_Release_settled b w : settled w (BrowserClient.Release b w).1.2.
Proof.
  unfold BrowserClient.Release.
  destruct (BrowserClient.Session_ b) as [s|]; [|apply settled_refl].
  set (first := if BrowserClient.Record_ s then _ else _).
  assert (settled w first.2) as H1.
  { subst first. destruct (BrowserClient.Record_ s); [|apply settled_refl].
    pose proof (BrowserClient_Send_settled "stop_recording" None 120 b w) as Hs.
    destruct (BrowserClient.Send "stop_recording" None 120 b w) as [[b' w'] [res e]].
    by destruct (string_field res "video_url"). }
  destruct first as [b1 w1]. cbn [snd] in H1.
  pose proof (BrowserClient_Send_settled "release_browser" None 60 b1 w1) as H2.
  destruct (BrowserClient.Send "release_browser" None 60 b1 w1) as [[b2 w2] [res err]].
  exact (settled_trans _ _ _ H1 H2).
Qed.

(** X6.  The SDK never gives an instance back: a [Send] or a [Release] of
    either client leaves every Redis set as it was, so an instance that a
    client took stays in the busy set of its worker until the worker moves
    it. *)
Theorem release_frees_nothing (c : Client.t) (b : BrowserClient.t) (w : World)
    (action : string) (args : option jmap) (timeout : Z) :
  sets (Client.SendWithTimeout action args timeout c w).1.2 = sets w
  ∧ sets (Client.Release c w).1.2 = sets w
  ∧ sets (BrowserClient.Send action args timeout b w).1.2 = sets w
  ∧ sets (BrowserClient.Release b w).1.2 = sets w
  ∧ forall ty worker,
      free_of ty worker (Client.Release c w).1.2 = free_of ty worker w
      ∧ busy_of ty worker (Client.Release c w).1.2 = busy_of ty worker w
      ∧ free_of ty worker (BrowserClient.Release b w).1.2 = free_of ty worker w
      ∧ busy_of ty worker (BrowserClient.Release b w).1.2 = busy_of ty worker w.
Proof.
  pose proof (SendWithTimeout_settled action args timeout c w) as (H1 & _).
  pose proof (Release_settled c w) as (H2 & _).
  pose proof (BrowserClient_Send_settled action args timeout b w) as (H3 & _).
  pose proof (BrowserClient_Release_settled b w) as (H4 & _).
  split; [done|]. split; [done|]. split; [done|]. split; [done|].
  intros ty worker.
  rewrite (free_of_sets ty worker _ w H2), (busy_of_sets ty worker _ w H2),
    (free_of_sets ty worker _ w H4), (busy_of_sets ty worker _ w H4). done.
Qed.

Lemma teardown_client action timeout field store c w :
  (forall url c0, Client.SessionData (store url c0) = Client.SessionData c0) ->
  Client.SessionData (Client.teardown action timeout field store c w).1
  = Client.SessionData c.
Proof.
  intros Hstore. unfold Client.teardown.
  pose proof (SendWithTimeout_client action None timeout c w) as Hc.
  destruct (Client.SendWithTimeout action None timeout c w) as [[c1 w1] [res [e|]]].
  - destruct Hc as [(? & _)|(_ & -> & _)]; done.
  - destruct Hc as [(_ & -> & _)|([? ?] & _)]; [|done].
    destruct (string_field res field); cbn [fst]; [rewrite Hstore|]; done.
Qed.

(** X7.  [Release] on a session reports the outcome of [release_browser]
    alone.  Whatever became of the commands that stop the video or the
    recording, the last command goes out on the session held, in the world
    those commands left, and [Release] returns what that command returned:
    the worker's answer, which it also keeps as [SessionData], or else its
    error.  On an error the current client returns a map that carries the
    error's text and leaves [SessionData] as it was; the earlier client
    returns no map and clears [SessionData]. *)
Theorem release_reports_the_last_command (c : Client.t) (b : BrowserClient.t)
    (w : World) (s : Client.Session) (t : BrowserClient.Session) :
  Client.Session_ c = Some s ->
  BrowserClient.Session_ b = Some t ->
  (let '(c1, w1) :=
     if Client.Video s
     then Client.teardown "stop_video" (120 * Second) "video_url" Client.set_VideoURL c w
     else (c, w) in
   let '(c2, w2) :=
     if Client.Record_ s
     then Client.teardown "stop_record" (60 * Second) "record_url" Client.set_RecordURL
            c1 w1
     else (c1, w1) in
   let '(c3, w3, (res, err)) := Client.Send "release_browser" None c2 w2 in
   let '(c', w', out) := Client.Release c w in
   Client.Session_ c2 = Some s
   ∧ Client.SessionData c2 = Client.SessionData c
   ∧ w' = w3
   ∧ out = match err with
           | None => Client.Returned res None
           | Some e => Client.Returned (Some (error_map (Error e))) (Some e)
           end
   ∧ Client.SessionData c' = match err with
                             | None => res
                             | Some _ => Client.SessionData c
                             end
   ∧ (err = None -> is_Some res))
  ∧ (let '(b1, w1) :=
       if BrowserClient.Record_ t
       then
         let '(b0, w0, (res0, _)) := BrowserClient.Send "stop_recording" None 120 b w in
         match string_field res0 "video_url" with
         | Some v => (BrowserClient.set_VideoURL v b0, w0)
         | None => (b0, w0)
         end
       else (b, w) in
     let '(b2, w2, (res, err)) := BrowserClient.Send "release_browser" None 60 b1 w1 in
     let '(b', w', r) := BrowserClient.Release b w in
     BrowserClient.Session_ b1 = Some t
     ∧ w' = w2 ∧ r = (res, err)
     ∧ BrowserClient.SessionData b' = res
     ∧ ((is_Some res ∧ err = None) ∨ (res = None ∧ is_Some err))).
Proof.
  intros Hs Ht. split.
  - unfold Client.Release. rewrite Hs.
    set (first := if Client.Video s then _ else _).
    assert (Client.Session_ first.1 = Some s
            ∧ Client.SessionData first.1 = Client.SessionData c) as [Hf1 Hd1].
    { subst first. destruct (Client.Video s); [|done].
      rewrite teardown_Session, teardown_client; done. }
    destruct first as [c1 w1]. cbn [fst] in Hf1, Hd1. rewrite Hf1.
    rewrite <- Hd1.
    set (second := if Client.Record_ s then _ else _).
    assert (Client.Session_ second.1 = Some s
            ∧ Client.SessionData second.1 = Client.SessionData c1) as [Hf2 Hd2].
    { subst second. destruct (Client.Record_ s); [|done].
      rewrite teardown_Session, teardown_client; done. }
    destruct second as [c2 w2]. cbn [fst] in Hf2, Hd2.
    unfold Client.Send.
    pose proof (SendWithTimeout_client "release_browser" None Client.DefaultRPCWait c2 w2)
      as Hc.
    destruct (Client.SendWithTimeout "release_browser" None Client.DefaultRPCWait c2 w2)
      as [[c3 w3] [res [e|]]].
    + destruct Hc as [(? & _)|(_ & -> & _)]; [done|].
      split; [done|]. split; [done|]. split; [done|]. split; [done|].
      split; [cbn; congruence|intros [=]].
    + destruct Hc as [(_ & _ & Hres)|([? ?] & _)]; [|done]. done.
  - unfold BrowserClient.Release. rewrite Ht.
    set (first := if BrowserClient.Record_ t then _ else _).
    assert (BrowserClient.Session_ first.1 = Some t) as Hf1.
    { subst first. destruct (BrowserClient.Record_ t); [|done].
      pose proof (BrowserClient_Send_client "stop_recording" None 120 b w) as Hb.
      destruct (BrowserClient.Send "stop_recording" None 120 b w) as [[b0 w0] [res0 e0]].
      cbn [fst] in Hb. subst b0.
      by destruct (string_field res0 "video_url"). }
    destruct first as [b1 w1]. cbn [fst] in Hf1.
    pose proof (BrowserClient_Send_result "release_browser" None 60 b1 w1) as Hr.
    destruct (BrowserClient.Send "release_browser" None 60 b1 w1) as [[b2 w2] [res err]].
    done.
Qed.

(** X8.  [Acquire] ends in one of three ways: with the map of the claimed
    instance and a session bound to it; with the "Redis Lua Error" around
    the store's error, when the [EVAL] fails; or with the "Redis Lua Error"
    around [redis.Nil], when no instance of the type is free.  It never
    returns the no-browsers error, nor reports a malformed script result.
    When it fails, the client keeps the session it had, with [InitSent]
    lowered; and no call takes an instance out of a busy set, so a client
    that acquires again without releasing leaves its earlier instance
    busy. *)
Theorem acquire_outcomes (ty : string) (video : bool) (profile : Client.profile_arg)
    (record : bool) (c : Client.t) (w : World) :
  let '(c', w', (res, err)) := Client.Acquire ty video profile record c w in
  ((exists worker bid s,
       res = Some (Client.acquired worker bid) ∧ err = None
       ∧ Client.Session_ c' = Some s
       ∧ Client.WorkerName s = worker ∧ Client.BrowserID s = bid
       ∧ Client.BrowserType s = ty
       ∧ worker ∈ pool w ∧ bid ∈ free_of ty worker w)
   ∨ (res = None ∧ c' = Client.set_InitSent false c
      ∧ ((exists e, verdict w = Failed e ∧ err = Some (Client.lua_error e))
         ∨ (free_total ty w = 0%nat ∧ err = Some (Client.lua_error redis_Nil)))))
  ∧ err ≠ Some (Client.no_browsers ty)
  ∧ err ≠ Some (NewBrowserError "Invalid Lua response format")
  ∧ forall ty0 worker0, busy_of ty0 worker0 w ⊆ busy_of ty0 worker0 w'.
Proof.
  pose proof (Acquire_outcome ty video profile record c w) as Ho.
  pose proof (resolve_profile_settled profile w) as ((Hs0 & _) & _).
  pose proof (resolve_profile_replies profile w) as (Hv & _).
  cbv zeta in Ho. rewrite Hv in Ho.
  destruct (Client.Acquire ty video profile record c w) as [[c' w'] [res err]].
  destruct Ho as [_ [(e & He & [= -> ->] & -> & ->)
                    |[(_ & [= -> ->] & -> & Hw & Hz)
                    |(_ & worker & bid & [= -> ->] & (s & Hs & Hwn & Hb & Ht) & Hin
                        & Hbid & Hsets)]]].
  - split; [right; eauto 8|]. split; [intros [=]|]. split; [intros [=]|].
    intros ty0 worker0. unfold busy_of, smembers. simpl. by rewrite Hs0.
  - split; [right; eauto 8|]. split; [intros [=]|]. split; [intros [=]|].
    intros ty0 worker0.
    unfold busy_of, smembers. rewrite Hw. simpl. by rewrite Hs0.
  - split; [left; exists worker, bid, s; done|]. split; [done|]. split; [done|].
    intros ty0 worker0. unfold busy_of, smembers. rewrite Hsets. unfold moved.
    destruct (decide (busy_key RedisPrefix worker0 ty0 = busy_key RedisPrefix worker ty))
      as [->|Hne].
    + rewrite lookup_total_insert_eq. apply union_subseteq_l.
    + rewrite lookup_total_insert_ne by done.
      rewrite lookup_total_insert_ne; [done|].
      apply free_key_not_busy.
Qed.

End Sessions.

Section Profiles.
Context `{Libraries} `{Platform}.






End Profiles.

(** ** The shuffle *)

Lemma draw_rng w : rng (draw w).2 = drop 1 (rng w).
Proof. unfold draw. destruct (rng w) eqn:E; simpl; by rewrite ?E. Qed.

Lemma shuffle_from_rng i workers w :
  rng (shuffle_from i workers w).2 = drop (i - 1) (rng w).
Proof.
  revert workers w. induction i as [|[|i] IH]; intros workers w; [done..|].
  rewrite shuffle_from_unfold.
  pose proof (draw_rng w) as Hd. destruct (draw w) as [r w1]. cbn [snd] in Hd.
  rewrite IH, Hd, drop_drop. f_equal. lia.
Qed.

(** X10.  The shuffle of the worker list keeps every worker, once each, uses
    one random draw less than there are workers and touches nothing else
    in the world. *)
Theorem shuffle_keeps_the_workers (workers : list string) (w : World) :
  (shuffle workers w).1 ≡ₚ workers
  ∧ length (shuffle workers w).1 = length workers
  ∧ rng (shuffle workers w).2 = drop (length workers - 1) (rng w)
  ∧ (shuffle workers w).2 = set_rng (rng (shuffle workers w).2) w.
Proof.
  pose proof (shuffle_spec workers w) as [Hp Hw].
  split; [done|]. split; [by rewrite Hp|]. split; [|done].
  apply shuffle_from_rng.
Qed.

Section Reaching.
Context `{Libraries} `{Platform}.

(** X11.  After a successful [Acquire] the instance named in the returned
    map is in the busy set of the worker named there, and every task the
    client pushes from then on goes to the queue of that worker and names
    that instance and that worker. *)
Theorem commands_reach_the_claimed_instance (ty : string) (video : bool)
    (profile : Client.profile_arg) (record : bool) (c : Client.t) (w : World) :
  let '(c', w', (res, err)) := Client.Acquire ty video profile record c w in
  err = None ->
  exists worker bid,
    res = Some (Client.acquired worker bid)
    ∧ bid ∈ busy_of ty worker w' ∧ (bid ∉ free_of ty worker w')
    ∧ forall action args timeout w0,
        exists evs,
          trace (Client.SendWithTimeout action args timeout c' w0).1.2 = trace w0 ++ evs
          ∧ forall key data, EvRPush key data ∈ evs ->
              key = RedisPrefix +:+ worker +:+ ":tasks"
              ∧ exists payload,
                  json_Marshal Client.TaskPayload payload = inl data
                  ∧ Client.browser_id payload = bid
                  ∧ Client.worker_name payload = worker.
Proof.
  pose proof (Acquire_outcome ty video profile record c w) as Ho. cbv zeta in Ho.
  destruct (Client.Acquire ty video profile record c w) as [[c' w'] [res err]].
  intros ->.
  destruct Ho as [_ [(e & _ & [=] & _)|[(_ & [=] & _)
                    |(_ & worker & bid & [= ->] & (s & Hs & Hwn & Hb & Ht) & Hin
                        & Hbid & Hsets)]]].
  exists worker, bid. split; [done|].
  rewrite (moved_busy ty worker bid w w' Hsets worker), decide_True by done.
  rewrite (moved_free ty worker bid w w' Hsets worker), decide_True by done.
  split; [apply elem_of_union_r, elem_of_singleton; done|].
  split; [intros [_ Hn]%elem_of_difference; apply Hn; by apply elem_of_singleton|].
  intros action args timeout w0.
  pose proof (SendWithTimeout_keys action args timeout c' w0 s Hs) as Hk.
  cbv zeta in Hk.
  destruct (Client.SendWithTimeout action args timeout c' w0) as [[c1 w1] [res1 err1]].
  destruct Hk as (_ & _ & Hpw & Hpb & pushes & pops & Ht1 & Hfp & Hfq & _).
  exists (pushes ++ pops). split; [done|].
  intros key data [Hin1|Hin2]%elem_of_app.
  - rewrite Forall_forall in Hfp. destruct (Hfp _ Hin1) as [(d & Hm & [= -> ->])|[d [=]]].
    rewrite <- Hwn. split; [done|]. eexists. split; [exact Hm|]. split; congruence.
  - rewrite Forall_forall in Hfq. destruct (Hfq _ Hin2) as [[=]|[d [=]]].
Qed.

End Reaching.

(** ** The script and the loop *)

Lemma draw_same w w' :
  same_store w w' -> (draw w').1 = (draw w).1 ∧ same_store (draw w).2 (draw w').2.
Proof.
  intros [Hs Hr]. unfold draw. rewrite Hr.
  destruct (rng w) as [|r rs] eqn:E; cbn; (split; [done|]); split; cbn; congruence.
Qed.

Lemma shuffle_from_same i workers w w' :
  same_store w w' ->
  (shuffle_from i workers w').1 = (shuffle_from i workers w).1
  ∧ same_store (shuffle_from i workers w).2 (shuffle_from i workers w').2.
Proof.
  revert workers w w'. induction i as [|[|i] IH]; intros workers w w' Hsame; [done..|].
  rewrite !shuffle_from_unfold.
  destruct (draw_same w w' Hsame) as [Hd Hs].
  destruct (draw w) as [r w1], (draw w') as [r' w1']. cbn [fst snd] in *. subst r'.
  by apply IH.
Qed.

Lemma spop_same key w w' :
  same_store w w' ->
  (spop key w').1 = (spop key w).1 ∧ same_store (spop key w).2 (spop key w').2.
Proof.
  intros Hsame. pose proof (draw_same w w' Hsame) as Hd.
  destruct Hsame as [Hs Hr]. unfold spop, pick, smembers. rewrite Hs.
  destruct (elements (sets w !!! key)) as [|m ms]; [by split|].
  destruct (draw w) as [r w1], (draw w') as [r' w1']. cbn [fst snd] in Hd.
  destruct Hd as [-> [Hs1 Hr1]].
  destruct ((m :: ms) !! _) as [x|]; cbn; (split; [done|]); split; cbn; congruence.
Qed.

Lemma sadd_same key member w w' :
  same_store w w' -> same_store (sadd key member w) (sadd key member w').
Proof. intros [Hs Hr]. unfold sadd, smembers. split; cbn; by rewrite ?Hs. Qed.

Lemma after_same e w : same_store w (after e w).
Proof. done. Qed.

Lemma same_store_trans w1 w2 w3 : same_store w1 w2 -> same_store w2 w3 -> same_store w1 w3.
Proof. intros [? ?] [? ?]. split; congruence. Qed.

Section Script.
Context `{Libraries} `{Platform}.

Lemma claim_loop_script ty workers b w w' :
  replies w' = [] -> same_store w w' ->
  let '(res, w1) := Client.claim_first RedisPrefix ty workers w in
  let '(b', w2, err) := BrowserClient.claim_loop ty false workers b w' in
  same_store w1 w2 ∧ replies w2 = []
  ∧ match res with
    | Some [worker; bid] =>
        err = None
        ∧ BrowserClient.Session_ b' = Some (BrowserClient.mkSession bid worker ty false)
    | _ => err = Some (BrowserClient.no_available ty) ∧ b' = b ∧ res = None
    end.
Proof.
  revert w w'. induction workers as [|worker rest IH]; intros w w' Hr Hsame; [done|].
  cbn [Client.claim_first BrowserClient.claim_loop].
  rewrite SPop_served by (unfold verdict; rewrite Hr; done).
  pose proof (spop_same (free_key RedisPrefix worker ty) w
                (after (EvSPop (free_key RedisPrefix worker ty)) w') Hsame) as [Hx Hs1].
  assert (replies (spop (free_key RedisPrefix worker ty)
                     (after (EvSPop (free_key RedisPrefix worker ty)) w')).2 = []) as Hr1.
  { pose proof (spop_spec (free_key RedisPrefix worker ty)
                  (after (EvSPop (free_key RedisPrefix worker ty)) w')) as Hp.
    destruct (spop _ (after _ w')) as [[x|] w3]; destruct Hp as [_ ->]; cbn; by rewrite Hr. }
  destruct (spop (free_key RedisPrefix worker ty) w) as [[bid|] w1],
           (spop (free_key RedisPrefix worker ty) (after _ w')) as [[bid'|] w1'];
    cbn [fst snd] in *; try discriminate.
  - injection Hx as ->.
    rewrite SAdd_served by (unfold verdict; rewrite Hr1; done).
    split; [|split; [cbn; by rewrite Hr1|done]].
    apply sadd_same. exact Hs1.
  - by apply IH.
Qed.

(** X12.  The script of [Client.Acquire] does in one command what
    [BrowserClient.Acquire] does in several: from the same sets and the
    same random draws, with the store serving every call, both claim the
    same instance of the same worker, or both find none, and both leave
    the same sets behind. *)
Theorem script_and_loop_claim_alike (ty : string) (b : BrowserClient.t) (w : World) :
  replies w = [] ->
  let '(res, w1) := Client.luaScript [WorkersSet] [RedisPrefix; ty] w in
  let '(b', w2, err) := BrowserClient.Acquire ty false b w in
  sets w2 = sets w1 ∧ rng w2 = rng w1
  ∧ held (b', err) = match res with
                     | Some [worker; bid] => Some (worker, bid)
                     | _ => None
                     end
  ∧ (is_Some res <-> err = None).
Proof.
  intros Hr. unfold Client.luaScript, BrowserClient.Acquire.
  rewrite SMembers_unfold.
  assert (verdict w = Served) as -> by (unfold verdict; by rewrite Hr).
  change (smembers WorkersSet (after (EvSMembers WorkersSet) w))
    with (smembers WorkersSet w).
  destruct (elements (smembers WorkersSet w)) as [|worker workers] eqn:Hw.
  { rewrite bool_decide_true by (by right). cbn.
    split; [done|]. split; [done|]. split; [done|]. split; [by intros [? ?]|done]. }
  rewrite bool_decide_false by (intros [?|?]; done).
  set (l0 := worker :: workers).
  destruct (shuffle_from_same (length l0) l0 w
              (after (EvSMembers WorkersSet) w) (after_same _ w)) as [Hl Hs].
  fold (shuffle l0 w) in *. fold (shuffle l0 (after (EvSMembers WorkersSet) w)) in *.
  assert (replies (shuffle l0 (after (EvSMembers WorkersSet) w)).2 = []) as Hr1.
  { destruct (shuffle_spec l0 (after (EvSMembers WorkersSet) w)) as [_ ->].
    cbn. by rewrite Hr. }
  destruct (shuffle l0 w) as [l w0],
           (shuffle l0 (after (EvSMembers WorkersSet) w)) as [l' w0'].
  cbn [fst snd] in *. subst l'.
  pose proof (claim_loop_script ty l b w0 w0' Hr1 Hs) as Hc.
  destruct (Client.claim_first RedisPrefix ty l w0) as [res w1].
  destruct (BrowserClient.claim_loop ty false l b w0') as [[b' w2] err].
  destruct Hc as ([Hx Hg] & _ & Hres). split; [done|]. split; [done|].
  destruct res as [[|worker1 [|bid [|? ?]]]|];
    try (destruct Hres as (_ & _ & [=]); fail).
  - destruct Hres as [-> Hsess]. unfold held. cbn. rewrite Hsess. cbn.
    split; [done|]. split; [done|eauto].
  - destruct Hres as (-> & -> & _). split; [done|]. split; [by intros [? ?]|done].
Qed.


End Script.

(** ** Polling for an answer *)

Section Polling.
Context `{Libraries} `{Platform}.

Lemma poll_unfold resultKey start timeout w :
  BrowserClient.poll resultKey start timeout w
  = if decide (clock w - start < timeout)
    then match Get resultKey w with
         | (w1, (val, Some e)) =>
             if decide (e = redis_Nil)
             then BrowserClient.poll resultKey start timeout
                    (time_Sleep (50 * Millisecond) w1)
             else (w1, (None, Some e))
         | (w1, (val, None)) =>
             let '(w2, _) := Del resultKey w1 in
             match json_Unmarshal val with
             | inr e => (w2, (None, Some e))
             | inl res => (w2, (Some res, None))
             end
         end
    else (w, (None, Some timed_out)).
Proof.
  funelim (BrowserClient.poll resultKey start timeout w).
  all: destruct (decide (clock w - start < timeout)); try lia; try done.
  all: match goal with E : Get _ _ = _ |- _ => rewrite E end; try done.
  all: match goal with
       | |- context [decide (?x = redis_Nil)] => destruct (decide (x = redis_Nil))
       end; done.
Qed.

Lemma Get_quiet key w :
  replies w = [] -> strs w !! key = None ->
  Get key w = (after (EvGet key) w, ("", Some redis_Nil)).
Proof.
  intros Hr Hs. unfold Get. rewrite next_reply_emit. unfold verdict. rewrite Hr.
  change (strs (after (EvGet key) w)) with (strs w). by rewrite Hs.
Qed.

Lemma Get_found key val w :
  replies w = [] -> strs w !! key = Some val ->
  Get key w = (after (EvGet key) w, (val, None)).
Proof.
  intros Hr Hs. unfold Get. rewrite next_reply_emit. unfold verdict. rewrite Hr.
  change (strs (after (EvGet key) w)) with (strs w). by rewrite Hs.
Qed.

Lemma polls_left_done start timeout now :
  ¬ now - start < timeout -> polls_left start timeout now = 0%nat.
Proof.
  intros Hn. unfold polls_left, Millisecond.
  assert ((start + timeout - now + (50 * 1000000 - 1)) / (50 * 1000000) <= 0); [|lia].
  apply Z.lt_succ_r. apply Z.div_lt_upper_bound; lia.
Qed.

Lemma polls_left_more start timeout now :
  now - start < timeout ->
  polls_left start timeout now
  = S (polls_left start timeout (now + 50 * Millisecond)).
Proof.
  intros Hlt. unfold polls_left, Millisecond.
  replace (start + timeout - now + (50 * 1000000 - 1))
    with ((start + timeout - (now + 50 * 1000000) + (50 * 1000000 - 1))
          + 1 * (50 * 1000000)) by lia.
  rewrite Z.div_add by lia.
  assert (0 <= (start + timeout - (now + 50 * 1000000) + (50 * 1000000 - 1))
               / (50 * 1000000)) by (apply Z.div_pos; lia).
  lia.
Qed.

Lemma poll_quiet resultKey start timeout (n : nat) : forall w,
  polls_left start timeout (clock w) = n ->
  replies w = [] -> strs w !! resultKey = None ->
  exists w',
    BrowserClient.poll resultKey start timeout w = (w', (None, Some timed_out))
    ∧ trace w' = trace w ++ mjoin (replicate n (idle_poll resultKey))
    ∧ clock w' = clock w + Z.of_nat n * (50 * Millisecond)
    ∧ replies w' = [] ∧ strs w' = strs w ∧ lists w' = lists w ∧ sets w' = sets w.
Proof.
  induction n as [|n IH]; intros w Hn Hr Hs; rewrite poll_unfold;
    destruct (decide (clock w - start < timeout)) as [Hlt|Hge].
  - rewrite polls_left_more in Hn by done. done.
  - exists w. cbn. rewrite app_nil_r. repeat split; try done. lia.
  - rewrite Get_quiet by done. destruct (decide (redis_Nil = redis_Nil)); [|done].
    rewrite polls_left_more in Hn by done. injection Hn as Hn.
    destruct (IH (time_Sleep (50 * Millisecond) (after (EvGet resultKey) w)))
      as (w' & Hp & Ht & Hc & Hr' & Hs' & Hl' & Hx');
      [exact Hn|cbn; by rewrite Hr|done|].
    exists w'. split; [exact Hp|]. rewrite Ht, Hc.
    split; [cbn; by rewrite <- !app_assoc|]. split; [cbn; lia|].
    done.
  - rewrite polls_left_done in Hn by done. done.
Qed.

Lemma wrap64_small z : - 2 ^ 63 <= z < 2 ^ 63 -> wrap64 z = z.
Proof. intros Hz. unfold wrap64. rewrite Z.mod_small by lia. lia. Qed.

(** Up to 9223372036 seconds the nanoseconds fit a [time.Duration]. *)
Lemma wrap64_seconds n :
  0 <= n <= 9223372036 -> wrap64 (n * Second) = n * Second.
Proof. intros Hn. apply wrap64_small. unfold Second. lia. Qed.

Lemma polls_left_shift start timeout :
  polls_left start timeout start = polls_left 0 timeout 0.
Proof. unfold polls_left. f_equal. f_equal. lia. Qed.

Lemma polls_left_seconds n :
  polls_left 0 (n * Second) 0 = Z.to_nat (20 * n).
Proof.
  unfold polls_left, Second, Millisecond.
  replace (0 + n * 1000000000 - 0 + (50 * 1000000 - 1))
    with ((50 * 1000000 - 1) + (20 * n) * (50 * 1000000)) by lia.
  rewrite Z.div_add by lia. rewrite Z.div_small by lia. f_equal.
Qed.

Lemma polls_left_none timeout : timeout <= 0 -> polls_left 0 timeout 0 = 0%nat.
Proof. intros Ht. apply polls_left_done. lia. Qed.

Lemma BrowserClient_Send_unanswered (action : string) (args : option jmap)
    (timeoutSeconds : Z) (c : BrowserClient.t) (w : World)
    (s : BrowserClient.Session) :
  BrowserClient.Session_ c = Some s ->
  (length (replies w) <= 1)%nat ->
  let taskIDHex := uuid_Hex (uuids w) in
  let resultKey := RedisPrefix +:+ "result:" +:+ taskIDHex in
  let queue := RedisPrefix +:+ BrowserClient.WorkerName s +:+ ":tasks" in
  strs w !! resultKey = None ->
  let '(c', w', r) := BrowserClient.Send action args timeoutSeconds c w in
  let reads := polls_left 0 (wrap64 (timeoutSeconds * Second)) 0 in
  r = (None, Some timed_out) ∧ c' = c
  ∧ clock w' = clock w + Z.of_nat reads * (50 * Millisecond)
  ∧ (exists jsonBytes,
       trace w' = trace w ++ EvRPush queue jsonBytes
                    :: mjoin (replicate reads (idle_poll resultKey)))
  ∧ strs w' = strs w ∧ sets w' = sets w.
Proof.
  intros Hs Hlen taskIDHex resultKey queue Hk.
  unfold BrowserClient.Send. rewrite Hs. unfold uuid_New.
  fold taskIDHex. fold resultKey. fold queue.
  set (w0 := set_uuids _ w).
  set (jsonBytes := match json_Marshal _ _ with inl data => data | inr _ => "" end).
  pose proof (RPush_trace queue jsonBytes w0) as Ht1.
  pose proof (RPush_settled queue jsonBytes w0) as (Hx1 & _ & Hsuf).
  pose proof (RPush_rest queue jsonBytes w0) as (Hs1 & _ & _).
  assert (clock (RPush queue jsonBytes w0).1 = clock w
          ∧ replies (RPush queue jsonBytes w0).1 = []) as [Hc1 Hr1].
  { unfold RPush. rewrite next_reply_emit. unfold after.
    change (replies w0) with (replies w).
    destruct (replies w) as [|r [|r' rs]]; [| |simpl in Hlen; lia];
      destruct (verdict w0); done. }
  destruct (RPush queue jsonBytes w0) as [w1 perr]. cbn [fst] in *.
  change (strs w0) with (strs w) in Hs1. change (sets w0) with (sets w) in Hx1.
  change (trace w0) with (trace w) in Ht1.
  set (timeout := wrap64 (timeoutSeconds * Second)).
  destruct (poll_quiet resultKey (clock w1) timeout
              (polls_left (clock w1) timeout (clock w1)) w1)
    as (w' & Hp & Ht & Hc & _ & Hs' & _ & Hx'); [done|done|by rewrite Hs1|].
  rewrite Hp. rewrite polls_left_shift in Ht, Hc.
  split; [done|]. split; [done|]. split; [by rewrite Hc, Hc1|].
  split; [exists jsonBytes; by rewrite Ht, Ht1, <- app_assoc|].
  split; congruence.
Qed.

(** X13.  When no answer is ever stored under the result key, [Send] of the
    earlier client gives up with its timeout error after reading the key
    every 50 ms for the whole timeout, which is the number of seconds
    given as an [int64] of nanoseconds: twenty reads per second up to
    9223372036 seconds, and none at all when the duration is zero or
    negative, as it is for zero or fewer seconds and for a number of
    seconds whose nanoseconds wrap round below zero.  This holds whether
    the push of the task was served or failed, for the outcome of the
    push is not looked at. *)
Theorem send_polls_until_the_timeout (action : string) (args : option jmap)
    (timeoutSeconds : Z) (c : BrowserClient.t) (w : World)
    (s : BrowserClient.Session) :
  BrowserClient.Session_ c = Some s ->
  (length (replies w) <= 1)%nat ->
  let taskIDHex := uuid_Hex (uuids w) in
  let resultKey := RedisPrefix +:+ "result:" +:+ taskIDHex in
  let queue := RedisPrefix +:+ BrowserClient.WorkerName s +:+ ":tasks" in
  strs w !! resultKey = None ->
  let timeout := wrap64 (timeoutSeconds * Second) in
  let '(c', w', r) := BrowserClient.Send action args timeoutSeconds c w in
  let reads := polls_left 0 timeout 0 in
  r = (None, Some timed_out) ∧ c' = c
  ∧ clock w' = clock w + Z.of_nat reads * (50 * Millisecond)
  ∧ (exists jsonBytes,
       trace w' = trace w ++ EvRPush queue jsonBytes
                    :: mjoin (replicate reads (idle_poll resultKey)))
  ∧ strs w' = strs w ∧ sets w' = sets w
  ∧ (0 <= timeoutSeconds <= 9223372036 ->
     timeout = timeoutSeconds * Second ∧ reads = Z.to_nat (20 * timeoutSeconds)
     ∧ clock w' = clock w + timeoutSeconds * Second)
  ∧ (timeout <= 0 -> reads = 0%nat ∧ clock w' = clock w).
Proof.
  intros Hs Hlen taskIDHex resultKey queue Hk timeout.
  pose proof (BrowserClient_Send_unanswered action args timeoutSeconds c w s Hs Hlen Hk)
    as Hsend.
  destruct (BrowserClient.Send action args timeoutSeconds c w) as [[c' w'] r].
  cbv zeta in Hsend. fold timeout in Hsend.
  destruct Hsend as (Hr & Hc & Hclock & Htrace & Hstrs & Hsets).
  split; [done|]. split; [done|]. split; [done|]. split; [done|].
  split; [done|]. split; [done|]. split.
  - intros Hrange. subst timeout.
    rewrite (wrap64_seconds timeoutSeconds Hrange) in *.
    split; [done|]. split; [apply polls_left_seconds|].
    rewrite Hclock, polls_left_seconds. unfold Second, Millisecond. lia.
  - intros Hneg. rewrite Hclock, (polls_left_none timeout Hneg).
    split; [done|]. lia.
Qed.

(** X14.  When the answer is already stored under the result key and the
    timeout, the seconds given as an [int64] of nanoseconds, is positive,
    as it is from 1 to 9223372036 seconds, [Send] of the earlier client
    reads the key once, deletes it and returns what the answer decodes to,
    without sleeping; the key is gone afterwards even when the answer does
    not decode.  When that duration is zero or negative, [Send] pushes the
    task and returns its timeout error without reading the key. *)
Theorem send_reads_and_deletes_the_answer (action : string) (args : option jmap)
    (timeoutSeconds : Z) (c : BrowserClient.t) (w : World)
    (s : BrowserClient.Session) (val : string) :
  BrowserClient.Session_ c = Some s ->
  (length (replies w) <= 1)%nat ->
  let taskIDHex := uuid_Hex (uuids w) in
  let resultKey := RedisPrefix +:+ "result:" +:+ taskIDHex in
  let queue := RedisPrefix +:+ BrowserClient.WorkerName s +:+ ":tasks" in
  strs w !! resultKey = Some val ->
  let timeout := wrap64 (timeoutSeconds * Second) in
  let '(c', w', r) := BrowserClient.Send action args timeoutSeconds c w in
  c' = c ∧ clock w' = clock w
  ∧ (0 < timeout ->
     r = match json_Unmarshal val with
         | inl res => (Some res, None)
         | inr e => (None, Some e)
         end
     ∧ strs w' = delete resultKey (strs w)
     ∧ exists jsonBytes,
         trace w' = trace w ++ [EvRPush queue jsonBytes; EvGet resultKey; EvDel resultKey])
  ∧ (timeout <= 0 ->
     r = (None, Some timed_out) ∧ strs w' = strs w
     ∧ exists jsonBytes, trace w' = trace w ++ [EvRPush queue jsonBytes])
  ∧ (0 < timeoutSeconds <= 9223372036 -> 0 < timeout).
Proof.
  intros Hs Hlen taskIDHex resultKey queue Hk timeout.
  unfold BrowserClient.Send. rewrite Hs. unfold uuid_New.
  fold taskIDHex. fold resultKey. fold queue. fold timeout.
  set (w0 := set_uuids _ w).
  set (jsonBytes := match json_Marshal _ _ with inl data => data | inr _ => "" end).
  pose proof (RPush_trace queue jsonBytes w0) as Ht1.
  pose proof (RPush_rest queue jsonBytes w0) as (Hs1 & _ & _).
  assert (clock (RPush queue jsonBytes w0).1 = clock w
          ∧ replies (RPush queue jsonBytes w0).1 = []) as [Hc1 Hr1].
  { unfold RPush. rewrite next_reply_emit. unfold after.
    change (replies w0) with (replies w).
    destruct (replies w) as [|r [|r' rs]]; [| |simpl in Hlen; lia];
      destruct (verdict w0); done. }
  destruct (RPush queue jsonBytes w0) as [w1 perr]. cbn [fst] in *.
  change (strs w0) with (strs w) in Hs1. change (trace w0) with (trace w) in Ht1.
  assert (Hrange : 0 < timeoutSeconds <= 9223372036 -> 0 < timeout).
  { intros Hn. subst timeout. rewrite wrap64_seconds by lia. unfold Second. lia. }
  rewrite poll_unfold.
  destruct (decide (clock w1 - clock w1 < timeout)) as [Hpos|Hneg].
  - rewrite (Get_found resultKey val) by (by rewrite ?Hs1).
    unfold Del. rewrite next_reply_emit.
    assert (verdict (after (EvGet resultKey) w1) = Served) as ->
      by (unfold verdict; cbn; by rewrite Hr1).
    cbn -[json_Unmarshal timeout].
    destruct (json_Unmarshal val) as [res|e];
      (split; [done|]; split; [done|]; split;
       [intros _; split; [done|]; split; [cbn; by rewrite Hs1|];
        exists jsonBytes; cbn; by rewrite Ht1, <- !app_assoc
       |split; [intros ?; lia|exact Hrange]]).
  - split; [done|]. split; [done|]. split; [intros ?; lia|].
    split; [|exact Hrange]. intros _. split; [done|]. split; [done|].
    exists jsonBytes. exact Ht1.
Qed.

End Polling.

(** ** When no worker answers *)

Section Quiet.
Context `{Libraries} `{Platform}.
Hypothesis marshals : forall p : Client.TaskPayload,
  exists data, json_Marshal Client.TaskPayload p = inl data.

Lemma SendWithTimeout_unanswered action args timeout c w s :
  Client.Session_ c = Some s -> queue_apart (Client.WorkerName s) -> unanswered w ->
  let '(c', w', r) := Client.SendWithTimeout action args timeout c w in
  r = (None, Some Client.timeout_error) ∧ c' = c
  ∧ clock w' = clock w + timeout ∧ unanswered w'.
Proof.
  intros Hs Hq [Hr Hl].
  destruct (marshals (Client.build_payload c s (uuid_Hex (uuids w)) action args
                        (RedisPrefix +:+ "result:" +:+ uuid_Hex (uuids w)))) as [data Hm].
  pose proof (SendWithTimeout_waits_once action args timeout c w s data Hs Hm Hr (Hl _) (Hq _)) as Hw.
  pose proof (SendWithTimeout_settled action args timeout c w) as (_ & _ & Hsuf).
  destruct (Client.SendWithTimeout action args timeout c w) as [[c' w'] r].
  cbn [fst snd] in Hsuf.
  destruct Hw as (Hres & -> & Hc & _ & Hlists).
  split; [done|]. split; [done|]. split; [done|]. split.
  - rewrite Hr in Hsuf. by apply suffix_nil_inv in Hsuf.
  - intros n. rewrite Hlists, lookup_total_insert_ne; [apply Hl|apply Hq].
Qed.

Lemma teardown_unanswered action timeout field store c w s :
  Client.Session_ c = Some s -> queue_apart (Client.WorkerName s) -> unanswered w ->
  let '(c', w') := Client.teardown action timeout field store c w in
  c' = c ∧ clock w' = clock w + timeout ∧ unanswered w'.
Proof.
  intros Hs Hq Hu. unfold Client.teardown.
  pose proof (SendWithTimeout_unanswered action None timeout c w s Hs Hq Hu) as Hw.
  destruct (Client.SendWithTimeout action None timeout c w) as [[c' w'] [res err]].
  destruct Hw as ([= -> ->] & -> & Hc & Hu'). done.
Qed.

(** X15.  With no worker answering, [Release] waits out every command it
    sends, one after the other: 120 s for [stop_video] when the session
    has video, 60 s for [stop_record] when it records, and 60 s for
    [release_browser]; so up to four minutes.  It then returns the
    timeout error, with the session cleared all the same. *)
Theorem release_waits_for_each_command (c : Client.t) (w : World) (s : Client.Session) :
  Client.Session_ c = Some s ->
  queue_apart (Client.WorkerName s) ->
  unanswered w ->
  let '(c', w', out) := Client.Release c w in
  out = Client.Returned (Some (error_map (Error Client.timeout_error)))
                        (Some Client.timeout_error)
  ∧ c' = Client.set_Session None c
  ∧ clock w' = clock w
               + (if Client.Video s then 120 * Second else 0)
               + (if Client.Record_ s then 60 * Second else 0)
               + 60 * Second.
Proof.
  intros Hs Hq Hu. unfold Client.Release. rewrite Hs.
  set (first := if Client.Video s then _ else _).
  assert (first.1 = c
          ∧ clock first.2 = clock w + (if Client.Video s then 120 * Second else 0)
          ∧ unanswered first.2) as (H1 & Hc1 & Hu1).
  { subst first. destruct (Client.Video s).
    - pose proof (teardown_unanswered "stop_video" (120 * Second) "video_url"
                    Client.set_VideoURL c w s Hs Hq Hu) as Ht.
      by destruct (Client.teardown _ _ _ _ c w).
    - split; [done|]. split; [cbn; lia|done]. }
  destruct first as [c1 w1]. cbn [fst snd] in *. subst c1. rewrite Hs.
  set (second := if Client.Record_ s then _ else _).
  assert (second.1 = c
          ∧ clock second.2 = clock w1 + (if Client.Record_ s then 60 * Second else 0)
          ∧ unanswered second.2) as (H2 & Hc2 & Hu2).
  { subst second. destruct (Client.Record_ s).
    - pose proof (teardown_unanswered "stop_record" (60 * Second) "record_url"
                    Client.set_RecordURL c w1 s Hs Hq Hu1) as Ht.
      by destruct (Client.teardown _ _ _ _ c w1).
    - split; [done|]. split; [cbn; lia|done]. }
  destruct second as [c2 w2]. cbn [fst snd] in *. subst c2.
  unfold Client.Send.
  pose proof (SendWithTimeout_unanswered "release_browser" None Client.DefaultRPCWait
                c w2 s Hs Hq Hu2) as Hw.
  destruct (Client.SendWithTimeout "release_browser" None Client.DefaultRPCWait c w2)
    as [[c3 w3] [res err]].
  destruct Hw as ([= -> ->] & -> & Hc3 & _).
  split; [done|]. split; [done|]. rewrite Hc3, Hc2, Hc1. unfold Client.DefaultRPCWait. lia.
Qed.

End Quiet.

Lemma steady_refl w : steady w w.
Proof. by repeat split. Qed.

Lemma steady_trans w1 w2 w3 : steady w1 w2 -> steady w2 w3 -> steady w1 w3.
Proof.
  intros (? & ? & ? & ?) (? & ? & ? & ?). repeat split; try congruence.
  by etrans.
Qed.

Lemma steady_after e w : steady w (after e w).
Proof. repeat split. apply tail_suffix. Qed.

Lemma SMembers_steady key w : steady w (SMembers key w).1.
Proof. rewrite SMembers_unfold. destruct (verdict w); apply steady_after. Qed.

Lemma shuffle_steady workers w : steady w (shuffle workers w).2.
Proof. destruct (shuffle_spec workers w) as [_ ->]. by repeat split. Qed.

Lemma SPop_steady key w : steady w (SPop key w).1.
Proof.
  unfold SPop. rewrite next_reply_emit.
  pose proof (spop_spec key (after (EvSPop key) w)) as Hp.
  pose proof (steady_after (EvSPop key) w) as Ha.
  destruct (verdict w); try exact Ha;
    destruct (spop key (after (EvSPop key) w)) as [[x|] w2];
    (destruct Hp as [_ ->]; exact Ha).
Qed.

Lemma SAdd_steady key member w : steady w (SAdd key member w).1.
Proof.
  unfold SAdd. rewrite next_reply_emit.
  destruct (verdict w); apply (steady_after (EvSAdd key member) w).
Qed.

Section Recording.
Context `{Libraries} `{Platform}.

Lemma steady_unread w w' : steady w w' -> unread w -> unread w'.
Proof.
  intros (_ & Hs & _ & Hsuf) [Hr Hn]. split.
  - rewrite Hr in Hsuf. by apply suffix_nil_inv in Hsuf.
  - intros n. by rewrite Hs.
Qed.

Lemma claim_loop_clock ty record workers b w :
  unread w ->
  let '(_, w', err) := BrowserClient.claim_loop ty record workers b w in
  clock w' = clock w + (if bool_decide (err = None) && record then 5 * Second else 0).
Proof.
  revert w. induction workers as [|worker rest IH]; intros w Hu.
  { cbn [BrowserClient.claim_loop]. rewrite bool_decide_false by done. simpl. lia. }
  cbn [BrowserClient.claim_loop].
  pose proof (SPop_steady (free_key RedisPrefix worker ty) w) as Hp.
  destruct (SPop (free_key RedisPrefix worker ty) w) as [w1 [bid [e|]]]; cbn [fst] in Hp.
  - specialize (IH w1 (steady_unread _ _ Hp Hu)).
    destruct (BrowserClient.claim_loop ty record rest b w1) as [[b' w'] err].
    destruct Hp as (<- & _). exact IH.
  - pose proof (SAdd_steady (busy_key RedisPrefix worker ty) bid w1) as Ha.
    destruct (SAdd (busy_key RedisPrefix worker ty) bid w1) as [w2 ?]. cbn [fst] in Ha.
    pose proof (steady_trans _ _ _ Hp Ha) as Hw2.
    pose proof (steady_unread _ _ Hw2 Hu) as [Hr2 Hn2].
    set (b1 := BrowserClient.set_Session _ b).
    destruct record.
    + pose proof (BrowserClient_Send_unanswered "start_recording" None 5 b1 w2 _ eq_refl)
        as Hs.
      cbv zeta in Hs. rewrite Hr2 in Hs. specialize (Hs ltac:(simpl; lia) (Hn2 _)).
      destruct (BrowserClient.Send "start_recording" None 5 b1 w2) as [[b2 w3] r].
      destruct Hs as (_ & _ & Hc & _). rewrite Hc. destruct Hw2 as (-> & _).
      rewrite bool_decide_true by done.
      assert (Z.of_nat (polls_left 0 (wrap64 (5 * Second)) 0) * (50 * Millisecond)
              = 5 * Second) as -> by (vm_compute; reflexivity).
      simpl. lia.
    + destruct Hw2 as (-> & _). rewrite andb_false_r. lia.
Qed.

(** X16.  [Acquire] of the earlier client does not wait for the worker to
    confirm the recording: with [record] set and no worker answering, it
    still succeeds whenever an instance is free, five seconds later, the
    outcome of [start_recording] being dropped.  Without [record], or when
    it fails, it takes no time. *)
Theorem acquire_drops_the_recording_answer (ty : string) (record : bool)
    (b : BrowserClient.t) (w : World) :
  unread w ->
  let '(b', w', err) := BrowserClient.Acquire ty record b w in
  clock w' = clock w + (if bool_decide (err = None) && record then 5 * Second else 0)
  ∧ (free_total ty w ≠ 0%nat ->
     err = None
     ∧ exists worker bid,
         BrowserClient.Session_ b' = Some (BrowserClient.mkSession bid worker ty record))
  ∧ (free_total ty w = 0%nat -> is_Some err ∧ b' = b).
Proof.
  intros Hu.
  assert (no_faults w) as Hnf by (unfold no_faults; destruct Hu as [-> _]; constructor).
  pose proof (BrowserClient_Acquire_spec ty record b w Hnf) as Hspec.
  unfold BrowserClient.Acquire in *.
  pose proof (SMembers_steady WorkersSet w) as Hm.
  destruct (SMembers WorkersSet w) as [w1 [workers merr]]. cbn [fst] in Hm.
  assert (Hresult : forall b' w' err,
            no_faults w' ∧
            (err = Some (if decide (pool w = []) then BrowserClient.no_workers
                         else BrowserClient.no_available ty)
             ∧ b' = b ∧ sets w' = sets w ∧ free_total ty w = 0%nat
             ∨ (exists worker bid,
                  err = None
                  ∧ BrowserClient.Session_ b'
                    = Some (BrowserClient.mkSession bid worker ty record)
                  ∧ worker ∈ pool w ∧ bid ∈ free_of ty worker w
                  ∧ sets w' = moved RedisPrefix ty worker bid (sets w))) ->
            (free_total ty w ≠ 0%nat ->
             err = None
             ∧ exists worker bid,
                 BrowserClient.Session_ b'
                 = Some (BrowserClient.mkSession bid worker ty record))
            ∧ (free_total ty w = 0%nat -> is_Some err ∧ b' = b)).
  { intros b' w' err [_ [(-> & -> & _ & Hz)|(worker & bid & -> & Hs & Hin & Hbid & _)]].
    - split; [done|]. eauto.
    - split; [eauto|]. intros Hz.
      pose proof (proj2 (free_total_zero ty w) Hz worker Hin) as He.
      rewrite He in Hbid. by apply elem_of_empty in Hbid. }
  case_bool_decide.
  - split; [destruct Hm as (-> & _); cbn; lia|]. by apply (Hresult b w1).
  - pose proof (shuffle_steady workers w1) as Hsh.
    destruct (shuffle workers w1) as [workers' w2]. cbn [snd] in Hsh.
    pose proof (steady_trans _ _ _ Hm Hsh) as Hw2.
    pose proof (claim_loop_clock ty record workers' b w2 (steady_unread _ _ Hw2 Hu)) as Hc.
    destruct (BrowserClient.claim_loop ty record workers' b w2) as [[b' w'] err].
    split; [|by apply (Hresult b' w')].
    rewrite Hc. by destruct Hw2 as (-> & _).
Qed.

End Recording.

(** ** Assertions, getters and files *)

Section Answers.
Context `{Libraries} `{Platform}.

(** X17.  An assertion of the earlier client fails only on a worker's answer
    with status "fail": when the command itself fails, by a timeout, an
    error of the store or a client that holds no session, the assertion
    returns no error. *)
Theorem assertion_passes_without_an_answer (action : string) (args : jmap)
    (c : BrowserClient.t) (w : World) :
  let '(_, w1, (res, err)) :=
    BrowserClient.Send action (Some (<["screenshot" := JBool true]> args)) 45 c w in
  let '(c', w', failure) := BrowserActions.handleAssertion action args c w in
  c' = c
  ∧ (is_Some failure <-> string_field res "status" = Some "fail")
  ∧ (is_Some err -> failure = None ∧ w' = w1)
  ∧ (BrowserClient.Session_ c = None -> failure = None ∧ w' = w)
  ∧ sets w' = sets w.
Proof.
  unfold BrowserActions.handleAssertion.
  pose proof (BrowserClient_Send_result action
                (Some (<["screenshot" := JBool true]> args)) 45 c w) as Hr.
  pose proof (BrowserClient_Send_client action
                (Some (<["screenshot" := JBool true]> args)) 45 c w) as Hc.
  pose proof (BrowserClient_Send_settled action
                (Some (<["screenshot" := JBool true]> args)) 45 c w) as (Hx & _).
  assert (Hno : BrowserClient.Session_ c = None ->
                BrowserClient.Send action (Some (<["screenshot" := JBool true]> args)) 45 c w
                = (c, w, (None, Some (errors_New "session not acquired")))).
  { intros Hn. unfold BrowserClient.Send. by rewrite Hn. }
  destruct (BrowserClient.Send action _ 45 c w) as [[c1 w1] [res err]].
  cbn [fst snd] in *. subst c1.
  case_bool_decide as Hfail.
  - split; [done|]. split; [split; [done|eauto]|].
    assert (Hfiles : forall w2 : World,
              w2 = w1 ∨ (exists p d, w2 = set_files (<[p := d]> (files w1)) w1) ->
              sets w2 = sets w).
    { intros w2 [->|(p & d & ->)]; exact Hx. }
    destruct Hr as [[_ ->]|[-> _]]; [|done].
    split; [by intros [? ?]|]. split.
    { intros Hn. specialize (Hno Hn). split; congruence. }
    apply Hfiles. destruct (string_field res "screenshot_base64") as [b64|]; [|by left].
    unfold saveFileDecoded, os_WriteFile.
    destruct (os_MkdirAll _); [by left|].
    destruct (base64_DecodeString b64); [|by left].
    destruct (os_WriteFile_error _); [by left|right; eauto].
  - split; [done|]. split; [split; [by intros [? ?]|done]|].
    split; [done|]. split; [|done].
    intros Hn. specialize (Hno Hn). split; congruence.
Qed.

(** X18.  An assertion of the current client returns the error of its
    command when the command fails, an "Assertion Failed" error together
    with the answer when the answer has status "fail", and the answer
    alone otherwise; a client without a session gets the not-acquired
    error.  Saving the screenshot changes files only. *)
Theorem assertion_reports_the_command (action : string) (args : jmap)
    (c : Client.t) (w : World) :
  let args' := match args !! "screenshot" with
               | Some _ => args
               | None => <["screenshot" := JBool true]> args
               end in
  let '(c1, w1, (res1, err1)) := Client.Send action (Some args') c w in
  let '(c', w', (res, err)) := Actions.handleAssertion action args c w in
  c' = c1
  ∧ (forall e, err1 = Some e -> res = None ∧ err = Some e ∧ w' = w1)
  ∧ (err1 = None ->
     res = res1
     ∧ (err = None <-> string_field res1 "status" ≠ Some "fail")
     ∧ forall e, err = Some e ->
         exists msg, e = NewBrowserError ("Assertion Failed: " +:+ msg))
  ∧ (Client.Session_ c = None -> err = Some (Client.not_acquired_error action))
  ∧ sets w' = sets w1 ∧ lists w' = lists w1 ∧ strs w' = strs w1
  ∧ trace w' = trace w1 ∧ clock w' = clock w1.
Proof.
  intros args'. unfold Actions.handleAssertion. fold args'.
  assert (Hno : Client.Session_ c = None ->
                Client.Send action (Some args') c w
                = (c, w, (None, Some (Client.not_acquired_error action)))).
  { intros Hn. unfold Client.Send, Client.SendWithTimeout. by rewrite Hn. }
  destruct (Client.Send action (Some args') c w) as [[c1 w1] [res1 [e1|]]].
  - split; [done|]. split; [by intros ? [= ->]|]. split; [done|].
    split; [|done]. intros Hn. specialize (Hno Hn). congruence.
  - assert (Hn : Client.Session_ c = None -> False).
    { intros Hn. specialize (Hno Hn). done. }
    case_bool_decide as Hfail; (split; [done|]; split; [done|]).
    + split; [intros _; split; [done|]; split; [split; [done|by intros ?]|];
              intros e [= <-]; eauto|].
      split; [by intros ?%Hn|].
      destruct (string_field res1 "screenshot_base64") as [b64|]; [|done].
      destruct (base64_DecodeString b64); [|done].
      unfold os_WriteFile. by destruct (os_WriteFile_error _).
    + split; [intros _; split; [done|]; split; [done|]; by intros ? [=]|].
      split; [by intros ?%Hn|done].
Qed.

(** X19.  A getter of the earlier client returns an error only when its
    command failed.  When the worker's answer holds no value of the type
    asked for, as when the worker reports an error of its own, the getter
    returns the empty string, or false, and no error. *)
Theorem getters_hide_unusable_answers (selector : string) (c : BrowserClient.t)
    (w : World) :
  (let '(c1, w1, (res, err)) := BrowserClient.Send "get_title" None 60 c w in
   let '(c', w', (v, e)) := BrowserActions.GetTitle c w in
   c' = c1 ∧ w' = w1
   ∧ (forall x, string_field res "value" = Some x -> v = x ∧ e = None)
   ∧ (string_field res "value" = None -> v = "" ∧ e = err)
   ∧ (is_Some e -> is_Some err)
   ∧ (is_Some res -> e = None))
  ∧ (let '(c1, w1, (res, err)) :=
       BrowserClient.Send "get_text"
         (Some {["selector" := JString (if bool_decide (selector = "") then "body"
                                        else selector)]}) 60 c w in
     let '(c', w', (v, e)) := BrowserActions.GetText selector c w in
     c' = c1 ∧ w' = w1
     ∧ (forall x, string_field res "value" = Some x -> v = x ∧ e = None)
     ∧ (string_field res "value" = None -> v = "" ∧ e = err)
     ∧ (is_Some e -> is_Some err)
     ∧ (is_Some res -> e = None))
  ∧ (let '(c1, w1, (res, err)) :=
       BrowserClient.Send "is_element_visible"
         (Some {["selector" := JString selector]}) 60 c w in
     let '(c', w', (v, e)) := BrowserActions.IsElementVisible selector c w in
     c' = c1 ∧ w' = w1
     ∧ (is_Some e -> is_Some err)
     ∧ (is_Some res -> e = None)
     ∧ (v = true -> exists m, res = Some m ∧ m !! "value" = Some (JBool true))).
Proof.
  assert (Hsv : forall res err,
            ((is_Some res ∧ err = None) ∨ (res = None ∧ is_Some err)) ->
            let '(v, e) := BrowserActions.string_value res err in
            (forall x, string_field res "value" = Some x -> v = x ∧ e = None)
            ∧ (string_field res "value" = None -> v = "" ∧ e = err)
            ∧ (is_Some e -> is_Some err)
            ∧ (is_Some res -> e = None)).
  { intros res err Hr. unfold BrowserActions.string_value.
    destruct (string_field res "value") as [x|].
    - split; [by intros ? [= ->]|]. split; [done|]. split; [by intros [? ?]|done].
    - split; [done|]. split; [done|]. split; [done|].
      intros Hres. destruct Hr as [[_ ->]|[-> _]]; [done|]. by destruct Hres. }
  split; [|split].
  - unfold BrowserActions.GetTitle.
    pose proof (BrowserClient_Send_result "get_title" None 60 c w) as Hr.
    destruct (BrowserClient.Send "get_title" None 60 c w) as [[c1 w1] [res err]].
    specialize (Hsv res err Hr).
    destruct (BrowserActions.string_value res err) as [v e].
    destruct Hsv as (Hv1 & Hv2 & Hv3 & Hv4). done.
  - unfold BrowserActions.GetText.
    match goal with
    | |- context [BrowserClient.Send "get_text" ?a 60 c w] =>
        pose proof (BrowserClient_Send_result "get_text" a 60 c w) as Hr;
        destruct (BrowserClient.Send "get_text" a 60 c w) as [[c1 w1] [res err]]
    end.
    specialize (Hsv res err Hr).
    destruct (BrowserActions.string_value res err) as [v e].
    destruct Hsv as (Hv1 & Hv2 & Hv3 & Hv4). done.
  - unfold BrowserActions.IsElementVisible.
    match goal with
    | |- context [BrowserClient.Send "is_element_visible" ?a 60 c w] =>
        pose proof (BrowserClient_Send_result "is_element_visible" a 60 c w) as Hr;
        destruct (BrowserClient.Send "is_element_visible" a 60 c w)
          as [[c1 w1] [res err]]
    end.
    destruct res as [m|].
    + destruct Hr as [[_ ->]|[? _]]; [|done].
      destruct (m !! "value") as [[| [|] | |]|] eqn:Hv;
        (split; [done|]; split; [done|]; split; [by intros [? ?]|]; split; [done|]);
        try done. intros _. eauto.
    + split; [done|]. split; [done|]. split; [done|]. split; [by intros [? ?]|done].
Qed.

Lemma saveBase64Result_cases res keyName outputPath w :
  let '(w', (r, err)) := Actions.saveBase64Result res keyName outputPath w in
  err = None
  ∧ ((w' = w ∧ (r = res ∨ exists msg, r = Some (error_map msg)))
     ∨ (exists b64 data,
          string_field res "status" = Some "ok" ∧ string_field res keyName = Some b64
          ∧ base64_DecodeString b64 = inl data
          ∧ w' = set_files (<[outputPath := data]> (files w)) w
          ∧ r = Some (path_map (filepath_Abs outputPath)))).
Proof.
  unfold Actions.saveBase64Result.
  case_bool_decide as Hok; [|split; [done|left; eauto]].
  destruct (string_field res keyName) as [b64|] eqn:Hk; [|split; [done|left; eauto]].
  unfold SaveBase64File, os_WriteFile.
  destruct (base64_DecodeString b64) as [data|e] eqn:Hd; [|split; [done|left; eauto]].
  destruct (os_MkdirAll _); [split; [done|left; eauto]|].
  destruct (os_WriteFile_error _); [split; [done|left; eauto]|].
  split; [done|]. right. exists b64, data. done.
Qed.



End Answers.

(** ** Connecting *)

Section Connections.
Context `{Libraries} `{Platform}.

Lemma connect_cases opts w :
  let '(w', (r, err)) := connect opts w in
  replies w' = tail (replies w) ∧ w' = set_replies (replies w') w
  ∧ ((exists e, verdict w = Failed e ∧ r = None
                ∧ err = Some (NewBrowserError ("Failed to connect to Redis: " +:+ Error e)))
     ∨ ((forall e, verdict w ≠ Failed e) ∧ r = Some (opts, Client.fresh) ∧ err = None)).
Proof.
  unfold connect, Ping, next_reply, verdict.
  destruct w as [ss ls st rs rn u cl tr fs]. cbn [replies].
  destruct rs as [|[|e|raw] rs]; cbn; (split; [done|]; split; [done|]);
    try (right; done). left. eauto.
Qed.

(** X22.  [New] takes the settings it is given before those of the
    environment, with two exceptions: a [RedisDB] of 0 and a [RedisSSL] of
    false are taken as not given, so that [REDIS_DB] and [REDIS_SSL] of the
    environment win over them.  This is for a client connected by host
    and port, no URL being given or set. *)
Theorem new_prefers_what_it_is_given (cfg : Config) (env : gmap string string)
    (w : World) (opts : Options) (c : Client.t) :
  let env' := LoadEnv (EnvFile cfg) env w in
  RedisURL cfg = "" -> os_Getenv env' "REDIS_URL" = "" ->
  (New cfg env w).2.1 = Some (opts, c) ->
  let given (explicit variable : string) :=
    if bool_decide (explicit = "") then os_Getenv env' variable else explicit in
  (exists port,
     Addr opts = given (RedisHost cfg) "REDIS_HOST" +:+ ":" +:+ port
     ∧ given (RedisHost cfg) "REDIS_HOST" ≠ ""
     ∧ port = (if bool_decide (given (RedisPort cfg) "REDIS_PORT" = "") then "6379"
               else given (RedisPort cfg) "REDIS_PORT"))
  ∧ Password opts = given (RedisPassword cfg) "REDIS_PASSWORD"
  ∧ (RedisDB cfg ≠ 0 -> DB opts = RedisDB cfg)
  ∧ (RedisDB cfg = 0 ->
     DB opts = if bool_decide (os_Getenv env' "REDIS_DB" = "") then 0
               else (strconv_Atoi (os_Getenv env' "REDIS_DB")).1)
  ∧ (RedisSSL cfg = true -> TLS opts = true)
  ∧ (RedisSSL cfg = false ->
     TLS opts = bool_decide (os_Getenv env' "REDIS_SSL" = "true"
                             ∨ os_Getenv env' "REDIS_SSL" = "1")).
Proof.
  intros env' Hurl Henv. unfold New. fold env'. rewrite Hurl, Henv.
  rewrite bool_decide_false by (intros [?|?]; done).
  case_bool_decide as Hhost; [done|].
  match goal with
  | |- context [connect ?o w] =>
      pose proof (connect_cases o w) as Hc; destruct (connect o w) as [w1 [r err]]
  end.
  destruct Hc as (_ & _ & [(e & _ & -> & _)|(_ & -> & _)]); [done|].
  cbn [fst snd]. intros [= <- <-]. cbn [Addr Password DB TLS].
  split; [eexists; split; [reflexivity|split; [exact Hhost|reflexivity]]|].
  split; [done|].
  split; [intros Hdb; rewrite bool_decide_false; [done|by intros [? _]]|].
  split.
  { intros Hdb. rewrite Hdb.
    destruct (decide (os_Getenv env' "REDIS_DB" = "")) as [He|He].
    - rewrite bool_decide_false by (by intros [_ ?]). by rewrite bool_decide_true.
    - rewrite bool_decide_true by done. by rewrite bool_decide_false. }
  split.
  { intros ->. rewrite bool_decide_false; [done|by intros [? _]]. }
  intros ->.
  destruct (decide (os_Getenv env' "REDIS_SSL" = "true" ∨ os_Getenv env' "REDIS_SSL" = "1"))
    as [Hs|Hs].
  - rewrite !bool_decide_true; done.
  - rewrite !bool_decide_false; [done|done|by intros [_ ?]].
Qed.

(** X23.  [New] contacts the store at most once, with a ping.  Without a URL
    and without a host, or with a URL that does not parse, it fails before
    that and leaves the world alone.  A URL, given or set in the
    environment, decides the connection alone, whatever host is
    configured.  [New] returns a client exactly when it returns no error;
    the client holds no session, so that every command on it fails with
    the not-acquired error until [Acquire]. *)
Theorem new_pings_once (cfg : Config) (env : gmap string string) (w : World) :
  let env' := LoadEnv (EnvFile cfg) env w in
  let url := if bool_decide (RedisURL cfg = "") then os_Getenv env' "REDIS_URL"
             else RedisURL cfg in
  let '(env1, w', (r, err)) := New cfg env w in
  env1 = env'
  ∧ (w' = w ∨ (replies w' = tail (replies w) ∧ w' = set_replies (replies w') w))
  ∧ (is_Some r <-> err = None)
  ∧ (forall opts c, r = Some (opts, c) ->
       c = Client.fresh
       ∧ (forall e, verdict w ≠ Failed e)
       ∧ (url ≠ "" -> redis_ParseURL url = inl opts)
       ∧ forall action args timeout w0,
           Client.SendWithTimeout action args timeout c w0
           = (c, w0, (None, Some (Client.not_acquired_error action))))
  ∧ (url ≠ "" -> forall e, redis_ParseURL url = inr e ->
       w' = w ∧ err = Some (NewBrowserError ("Invalid Redis URL: " +:+ Error e)))
  ∧ (url = "" -> RedisHost cfg = "" -> os_Getenv env' "REDIS_HOST" = "" ->
       w' = w ∧ err = Some (NewBrowserError "Missing Redis Configuration (Host)"))
  ∧ (forall e, verdict w = Failed e -> w' ≠ w ->
       err = Some (NewBrowserError ("Failed to connect to Redis: " +:+ Error e))).
Proof.
  intros env' url. unfold New. fold env'.
  assert (Hurl : bool_decide (RedisURL cfg ≠ "" ∨ os_Getenv env' "REDIS_URL" ≠ "")
                 = bool_decide (url ≠ "")).
  { subst url. apply bool_decide_ext.
    destruct (decide (RedisURL cfg = "")) as [He|He].
    - rewrite bool_decide_true by done. rewrite He. split; [by intros [?|?]|by right].
    - rewrite bool_decide_false by done. split; [done|by left]. }
  rewrite Hurl. fold url.
  assert (Hconn : forall opts,
            let '(w1, (r, err)) := connect opts w in
            (w1 = w ∨ (replies w1 = tail (replies w) ∧ w1 = set_replies (replies w1) w))
            ∧ (is_Some r <-> err = None)
            ∧ (forall opts0 c, r = Some (opts0, c) ->
                 opts0 = opts ∧ c = Client.fresh ∧ (forall e, verdict w ≠ Failed e)
                 ∧ forall action args timeout w0,
                     Client.SendWithTimeout action args timeout c w0
                     = (c, w0, (None, Some (Client.not_acquired_error action))))
            ∧ (forall e, verdict w = Failed e ->
                 err = Some (NewBrowserError ("Failed to connect to Redis: " +:+ Error e)))).
  { intros opts. pose proof (connect_cases opts w) as Hc.
    destruct (connect opts w) as [w1 [r err]].
    destruct Hc as (Hr & Hw & [(e & Hv & -> & ->)|(Hv & -> & ->)]).
    - split; [by right|]. split; [split; [by intros [? ?]|done]|]. split; [done|].
      intros e0 He0. rewrite Hv in He0. by injection He0 as ->.
    - split; [by right|]. split; [split; [done|eauto]|]. split.
      + intros opts0 c [= <- <-]. done.
      + intros e He. by destruct (Hv e). }
  destruct (decide (url ≠ "")) as [Hu|Hu];
    [rewrite (bool_decide_true (url ≠ "")) by exact Hu
    |rewrite (bool_decide_false (url ≠ "")) by exact Hu].
  - destruct (redis_ParseURL url) as [opts|perr] eqn:Hp.
    + specialize (Hconn opts). destruct (connect opts w) as [w1 [r err]].
      destruct Hconn as (Hw & Hr & Hc & Hf). cbv beta iota zeta.
      split; [done|]. split; [done|]. split; [done|]. split.
      { intros opts0 c Hrc. destruct (Hc _ _ Hrc) as (-> & -> & Hv & Hs). done. }
      split; [by intros _ e|]. split; [done|]. intros e He _. by apply Hf.
    + split; [done|]. split; [by left|]. split; [split; [by intros [? ?]|done]|].
      split; [done|]. split; [by intros _ e [= <-]|]. split; [done|]. done.
  - apply dec_stable in Hu.
    set (host := if bool_decide (RedisHost cfg = "") then _ else _).
    destruct (decide (host = "")) as [Hhost|Hhost];
      [rewrite (bool_decide_true (host = "")) by exact Hhost
      |rewrite (bool_decide_false (host = "")) by exact Hhost].
    + split; [done|]. split; [by left|]. split; [split; [by intros [? ?]|done]|].
      split; [done|]. split; [done|]. split; [done|]. done.
    + match goal with
      | |- context [connect ?o w] =>
          specialize (Hconn o); destruct (connect o w) as [w1 [r err]]
      end.
      destruct Hconn as (Hw & Hr & Hc & Hf). cbv beta iota zeta.
      split; [done|]. split; [done|]. split; [done|]. split.
      { intros opts0 c Hrc. destruct (Hc _ _ Hrc) as (-> & -> & Hv & Hs). done. }
      split; [done|]. split.
      { intros _ Hh He. destruct Hhost. subst host. by rewrite bool_decide_true. }
      intros e He _. by apply Hf.
Qed.

End Connections.

(** ** The cost of a command *)

Lemma store_calls_app evs1 evs2 :
  store_calls (evs1 ++ evs2) = (store_calls evs1 + store_calls evs2)%nat.
Proof.
  induction evs1 as [|e evs1 IH]; [done|]. destruct e; cbn; rewrite IH; lia.
Qed.

Lemma slept_app evs1 evs2 : slept (evs1 ++ evs2) = slept evs1 + slept evs2.
Proof.
  induction evs1 as [|e evs1 IH]; [done|]. destruct e; cbn; rewrite IH; lia.
Qed.

Lemma retry_loop_cost {X : Type} (op : X -> World -> World * (X * option error)) :
  (forall x w, exists e, trace (op x w).1 = trace w ++ [e]
                         ∧ store_calls [e] = 1%nat ∧ slept [e] = 0) ->
  forall attempt x w,
    exists evs,
      trace (Client.retry_loop op attempt x w).1 = trace w ++ evs
      ∧ (1 <= store_calls evs <= Nat.max 1 (4 - attempt))%nat
      ∧ 0 <= slept evs <= backoff_ahead attempt.
Proof.
  intros Hop attempt.
  remember (Client.maxAttempts - attempt)%nat as k eqn:Hk.
  revert attempt Hk. induction k as [|k IH]; intros attempt Hk x w;
    rewrite retry_loop_step; destruct (Hop x w) as (e & Ht & Hc & Hz);
    destruct (op x w) as [w1 [x1 [err|]]]; cbn [fst] in Ht.
  - destruct (decide _) as [[_ Hlt]|_]; [lia|]. exists [e].
    split; [done|]. rewrite Hc, Hz. unfold Client.maxAttempts in Hk.
    split; [lia|]. destruct attempt as [|[|[|?]]]; cbn; unfold Millisecond; lia.
  - exists [e]. split; [done|]. rewrite Hc, Hz. unfold Client.maxAttempts in Hk.
    split; [lia|]. destruct attempt as [|[|[|?]]]; cbn; unfold Millisecond; lia.
  - unfold Client.maxAttempts in Hk.
    destruct (decide _) as [[_ Hlt]|_].
    + unfold Client.maxAttempts in Hlt.
      destruct (IH (S attempt) ltac:(unfold Client.maxAttempts; lia) x1
                  (time_Sleep (Client.backoff (S attempt)) w1))
        as (evs & Ht' & Hc' & Hz').
      exists (e :: EvSleep (Client.backoff (S attempt)) :: evs).
      split.
      { rewrite Ht'. cbn. rewrite Ht. by rewrite <- !app_assoc. }
      change (e :: EvSleep (Client.backoff (S attempt)) :: evs)
        with ([e] ++ [EvSleep (Client.backoff (S attempt))] ++ evs).
      rewrite !store_calls_app, !slept_app, Hc, Hz. cbn [store_calls slept].
      pose proof backoff_values as (Hb1 & Hb2 & Hb3).
      destruct attempt as [|[|[|?]]]; [| | |exfalso; lia]; cbn [backoff_ahead] in *;
        rewrite ?Hb1, ?Hb2, ?Hb3; unfold Millisecond in *; split; lia.
    + exists [e]. split; [done|]. rewrite Hc, Hz.
      split; [lia|]. destruct attempt as [|[|[|?]]]; cbn; unfold Millisecond; lia.
  - exists [e]. split; [done|]. rewrite Hc, Hz. unfold Client.maxAttempts in Hk.
    split; [lia|]. destruct attempt as [|[|[|?]]]; cbn; unfold Millisecond; lia.
Qed.

Section Cost.
Context `{Libraries} `{Platform}.

(** X24.  One [SendWithTimeout] first pushes, then pops: at most four
    pushes with at most 1.4 s of back-off between them, then at most four
    pops with at most 1.4 s between them, so at most eight store calls
    and 2.8 s of sleep.  It makes no store call at all when no session is
    held or the task cannot be serialised; it pushes at least once when
    the task serialises, and it has pushed and popped at least once when
    it returns a response. *)
Theorem send_costs_at_most_eight_calls (action : string) (args : option jmap)
    (timeout : Z) (c : Client.t) (w : World) :
  let '(_, w', (res, _)) := Client.SendWithTimeout action args timeout c w in
  exists pushes pops,
    trace w' = trace w ++ pushes ++ pops
    ∧ Forall (fun e => (exists queue data, e = EvRPush queue data) ∨ is_sleep e) pushes
    ∧ Forall (fun e => (exists key, e = EvBLPop key timeout) ∨ is_sleep e) pops
    ∧ (store_calls pushes <= 4)%nat ∧ (store_calls pops <= 4)%nat
    ∧ 0 <= slept pushes <= 1400 * Millisecond
    ∧ 0 <= slept pops <= 1400 * Millisecond
    ∧ (Client.Session_ c = None -> pushes = [] ∧ pops = [])
    ∧ (forall s,
         Client.Session_ c = Some s ->
         let taskID := uuid_Hex (uuids w) in
         let payload :=
           Client.build_payload c s taskID action args
             (RedisPrefix +:+ "result:" +:+ taskID) in
         (forall e, json_Marshal Client.TaskPayload payload = inr e ->
                    pushes = [] ∧ pops = [])
         ∧ (forall data, json_Marshal Client.TaskPayload payload = inl data ->
                         (1 <= store_calls pushes)%nat))
    ∧ (is_Some res -> (1 <= store_calls pushes)%nat ∧ (1 <= store_calls pops)%nat).
Proof.
  unfold Client.SendWithTimeout. destruct (Client.Session_ c) as [s|].
  2: { exists [], []. rewrite !app_nil_r. cbn. unfold Millisecond.
       repeat split; try done; try lia; try (by intros [? ?]). }
  unfold uuid_New. set (w0 := set_uuids _ w).
  destruct (json_Marshal _ _) as [data|merr] eqn:Hm.
  2: { exists [], []. rewrite !app_nil_r. cbn [fst snd store_calls slept].
       unfold Millisecond.
       split; [done|]. split; [done|]. split; [done|]. split; [lia|]. split; [lia|].
       split; [lia|]. split; [lia|]. split; [done|].
       split; [|by intros [? ?]].
       intros s0 [= <-]. split; [done|]. intros data. rewrite Hm. done. }
  unfold Client.executeWithRetry.
  set (queue := RedisPrefix +:+ Client.WorkerName s +:+ ":tasks").
  destruct (retry_loop_cost (Client.push_op queue data)) with (attempt := 0%nat)
    (x := tt) (w := w0) as (pushes & Htp & Hcp & Hzp).
  { intros x w1. exists (EvRPush queue data). unfold Client.push_op.
    pose proof (RPush_trace queue data w1) as Ht.
    destruct (RPush queue data w1) as [w2 e]. done. }
  pose proof (push_loop_logged queue data 0 tt w0) as (pushes' & Htp' & Hfp).
  assert (pushes' = pushes) as ->
    by (rewrite Htp in Htp'; by apply app_inv_head in Htp').
  destruct (Client.retry_loop (Client.push_op queue data) 0 tt w0) as [w1 [[] perr]].
  cbn [fst] in Htp. change (trace w0) with (trace w) in Htp.
  cbn [backoff_ahead] in Hzp.
  assert (Hfp' : Forall (fun e => (exists queue data, e = EvRPush queue data) ∨ is_sleep e)
                        pushes).
  { eapply Forall_impl; [exact Hfp|]. intros e [->|?]; [left; eauto|by right]. }
  assert (Hser : forall s0,
            Some s = Some s0 ->
            let taskID := uuid_Hex (uuids w) in
            let payload :=
              Client.build_payload c s0 taskID action args
                (RedisPrefix +:+ "result:" +:+ taskID) in
            (forall e, json_Marshal Client.TaskPayload payload = inr e ->
                       pushes = [] ∧ @nil event = [])
            ∧ (forall data, json_Marshal Client.TaskPayload payload = inl data ->
                            (1 <= store_calls pushes)%nat)).
  { intros s0 [= <-] taskID payload. subst payload taskID.
    split; [intros e; rewrite Hm; done|]. intros _ _. lia. }
  destruct perr as [e|].
  { exists pushes, []. rewrite app_nil_r. cbn [fst snd].
    split; [done|]. split; [done|]. split; [done|]. split; [lia|]. split; [cbn; lia|].
    split; [done|]. split; [cbn; unfold Millisecond; lia|]. split; [done|].
    split; [exact Hser|by intros [? ?]]. }
  set (resultKey := RedisPrefix +:+ "result:" +:+ uuid_Hex (uuids w)).
  destruct (retry_loop_cost (Client.pop_op resultKey timeout)) with (attempt := 0%nat)
    (x := @nil string) (w := w1) as (pops & Htq & Hcq & Hzq).
  { intros x w2. exists (EvBLPop resultKey timeout). unfold Client.pop_op.
    split; [apply BLPop_trace|done]. }
  pose proof (pop_loop_logged resultKey timeout 0 [] w1) as (pops' & Htq' & Hfq).
  assert (pops' = pops) as ->
    by (rewrite Htq in Htq'; by apply app_inv_head in Htq').
  destruct (Client.retry_loop (Client.pop_op resultKey timeout) 0 [] w1)
    as [w2 [resultRaw qerr]].
  cbn [fst] in Htq. cbn [backoff_ahead] in Hzq.
  assert (Hfq' : Forall (fun e => (exists key, e = EvBLPop key timeout) ∨ is_sleep e) pops).
  { eapply Forall_impl; [exact Hfq|]. intros e [->|?]; [left; eauto|by right]. }
  assert (Hser' : forall s0,
            Some s = Some s0 ->
            let taskID := uuid_Hex (uuids w) in
            let payload :=
              Client.build_payload c s0 taskID action args
                (RedisPrefix +:+ "result:" +:+ taskID) in
            (forall e, json_Marshal Client.TaskPayload payload = inr e ->
                       pushes = [] ∧ pops = [])
            ∧ (forall data, json_Marshal Client.TaskPayload payload = inl data ->
                            (1 <= store_calls pushes)%nat)).
  { intros s0 [= <-] taskID payload. subst payload taskID.
    split; [intros e; rewrite Hm; done|]. intros _ _. lia. }
  assert (Hall : forall res : option jmap,
            trace w2 = trace w ++ pushes ++ pops
            ∧ Forall (fun e => (exists queue data, e = EvRPush queue data) ∨ is_sleep e)
                     pushes
            ∧ Forall (fun e => (exists key, e = EvBLPop key timeout) ∨ is_sleep e) pops
            ∧ (store_calls pushes <= 4)%nat ∧ (store_calls pops <= 4)%nat
            ∧ 0 <= slept pushes <= 1400 * Millisecond
            ∧ 0 <= slept pops <= 1400 * Millisecond
            ∧ (Some s = None -> pushes = [] ∧ pops = [])
            ∧ (forall s0,
                 Some s = Some s0 ->
                 let taskID := uuid_Hex (uuids w) in
                 let payload :=
                   Client.build_payload c s0 taskID action args
                     (RedisPrefix +:+ "result:" +:+ taskID) in
                 (forall e, json_Marshal Client.TaskPayload payload = inr e ->
                            pushes = [] ∧ pops = [])
                 ∧ (forall data, json_Marshal Client.TaskPayload payload = inl data ->
                                 (1 <= store_calls pushes)%nat))
            ∧ (is_Some res -> (1 <= store_calls pushes)%nat ∧ (1 <= store_calls pops)%nat)).
  { intros res. split; [by rewrite Htq, Htp, <- app_assoc|].
    split; [done|]. split; [done|]. split; [lia|]. split; [lia|].
    split; [done|]. split; [done|]. split; [done|]. split; [exact Hser'|].
    intros _. lia. }
  destruct qerr as [e|]; [case_bool_decide|
    destruct resultRaw as [|r0 [|raw1 rest]];
      [| |destruct (json_Unmarshal raw1) as [resp|uerr]]];
    cbn [fst snd]; exists pushes, pops; apply Hall.
Qed.

End Cost.

(** ** The reach of the shuffle *)

Lemma swap_same (i : nat) (l : list string) : swap i i l = l.
Proof.
  unfold swap. destruct (l !! i) as [x|] eqn:Hi; [|done].
  rewrite list_insert_insert_eq. by apply list_insert_id.
Qed.

Lemma swap_to_front (i : nat) (l : list string) (x : string) :
  l !! i = Some x -> swap i 0 l !! 0%nat = Some x.
Proof.
  intros Hi. unfold swap. rewrite Hi.
  destruct l as [|y l]; [done|]. cbn [lookup list_lookup].
  destruct i as [|i]; [by simplify_eq/=|]. done.
Qed.

Lemma swap_length (i j : nat) (l : list string) : length (swap i j l) = length l.
Proof. by rewrite (swap_Permutation i j l). Qed.

Lemma draw_set_rng r rs w : draw (set_rng (r :: rs) w) = (r, set_rng rs w).
Proof. done. Qed.

Lemma shuffle_from_first (i : nat) : forall (l : list string) (p : nat) (x : string) w,
  l !! p = Some x -> (p < Nat.max 1 i)%nat -> (i <= length l)%nat ->
  exists draws, (shuffle_from i l (set_rng draws w)).1 !! 0%nat = Some x.
Proof.
  induction i as [|[|i] IH]; intros l p x w Hp Hlt Hlen.
  - exists []. assert (p = 0%nat) as -> by lia. done.
  - exists []. assert (p = 0%nat) as -> by lia. done.
  - destruct (decide (p = S i)) as [->|Hne].
    + destruct (IH (swap (S i) 0 l) 0%nat x w) as (draws & Hd).
      * by apply swap_to_front.
      * lia.
      * rewrite swap_length. lia.
      * exists (0%nat :: draws). rewrite shuffle_from_unfold, draw_set_rng.
        rewrite Nat.Div0.mod_0_l. exact Hd.
    + destruct (IH l p x w Hp ltac:(lia) ltac:(lia)) as (draws & Hd).
      exists (S i :: draws). rewrite shuffle_from_unfold, draw_set_rng.
      rewrite Nat.mod_small by lia.
      replace (S (S i) - 1)%nat with (S i) by lia.
      replace (S (S i) - 1)%nat with (S i) by lia.
      rewrite swap_same. exact Hd.
Qed.

(** X25.  The shuffle can bring any worker to the front: for each worker of
    the list there are random draws with which it is the one whose free
    set is tried first. *)
Theorem any_worker_can_come_first (workers : list string) (x : string) (w : World) :
  x ∈ workers ->
  exists draws, head (shuffle workers (set_rng draws w)).1 = Some x.
Proof.
  intros [p Hp]%list_elem_of_lookup.
  destruct (shuffle_from_first (length workers) workers p x w Hp) as (draws & Hd).
  - apply lookup_lt_Some in Hp. lia.
  - done.
  - exists draws. unfold shuffle. by rewrite head_lookup.
Qed.

(** ** Claiming under contention *)

Section Contention.
Context `{Libraries} `{Platform}.

(** X26.  [Client.Acquire] claims through one [EVAL] of the Lua script, so
    the pop from the worker's free set and the add to its busy set are one
    store command: whatever the store answers, after a call every instance
    ID of every worker is in the same one of its two sets or has moved
    from free to busy, and stays out of the other.  When the store answers
    every call, the callers of either client, served one after another
    for the same browser type, never get the same instance (the same ID,
    when no ID is free under two workers); as many succeed as there are
    callers or free instances at the start, whichever is fewer, and each
    succeeding instance was free before and is busy after.  Every other
    caller of [Client.Acquire] gets the "Redis Lua Error" around
    [redis.Nil]; every other caller of [BrowserClient.Acquire] gets its
    no-available error, or its no-workers error when the worker set is
    empty.

    [BrowserClient.Acquire] makes several store calls, and the calls of
    concurrent callers interleave.  In whatever order the store serves
    them, and whatever it answers, no two callers hold the same instance,
    and an instance in hand was free at the start and is free no more; a
    schedule that gives each caller three store calls and one per worker
    lets every caller return; and once all have returned, if the store
    answered every call, the counts and errors are those of the callers
    served one after another.  The steps that are interleaved are those
    of [BrowserClient.Acquire]: run alone they end in its result. *)
Theorem acquire_is_exclusive (ty : string) (w : World)
    (clients : list client_caller) (browsers : list browser_caller) :
  no_faults w ->
  (forall (w0 : World) (a : client_caller) (worker : string),
     let w' := (client_acquire ty a w0).2 in
     free_of ty worker w' ∪ busy_of ty worker w'
     = free_of ty worker w0 ∪ busy_of ty worker w0
     ∧ (free_of ty worker w0 ## busy_of ty worker w0 ->
        free_of ty worker w' ## busy_of ty worker w'))
  ∧ (let '(rs, w') := each (client_acquire ty) clients w in
     let got := omap client_claim rs in
     NoDup got
     ∧ length got = Nat.min (length clients) (free_total ty w)
     ∧ Forall (fun r => is_Some (client_claim r)
                        ∨ r.2 = (None, Some (nothing_free))) rs
     ∧ (forall worker bid, (worker, bid) ∈ got ->
          worker ∈ pool w ∧ bid ∈ free_of ty worker w
          ∧ (bid ∉ free_of ty worker w') ∧ bid ∈ busy_of ty worker w')
     ∧ (ids_unique ty w -> NoDup got.*2))
  ∧ (let '(rs, w') := each (browser_acquire ty) browsers w in
     let got := omap held rs in
     NoDup got
     ∧ length got = Nat.min (length browsers) (free_total ty w)
     ∧ Forall (fun r => is_Some (held r) ∨ r.2 = Some (refusal ty w)) rs
     ∧ (forall worker bid, (worker, bid) ∈ got ->
          worker ∈ pool w ∧ bid ∈ free_of ty worker w
          ∧ (bid ∉ free_of ty worker w') ∧ bid ∈ busy_of ty worker w')
     ∧ (ids_unique ty w -> NoDup got.*2))
  ∧ (forall (w0 : World) (schedule : list nat) (n : nat),
       let sys := interleave ty schedule (replicate n Starting, w0) in
       let got := omap holding sys.1 in
       NoDup got
       ∧ (forall worker bid, (worker, bid) ∈ got ->
            worker ∈ pool w0 ∧ bid ∈ free_of ty worker w0
            ∧ (bid ∉ free_of ty worker sys.2))
       ∧ (ids_unique ty w0 -> NoDup got.*2)
       ∧ ((forall i, (i < n)%nat ->
             (3 + length (pool w0) <= count_occ Nat.eq_dec schedule i)%nat) ->
          forallb finished sys.1 = true)
       ∧ (no_faults w0 -> forallb finished sys.1 = true ->
            length got = Nat.min n (free_total ty w0)
            ∧ Forall (fun st => is_Some (holding st)
                                ∨ st = Finished (Some (refusal ty w0)) None) sys.1))
  ∧ (forall (w0 : World) (b : BrowserClient.t) (record : bool),
       let '(b', w', err) := BrowserClient.Acquire ty record b w0 in
       exists k w'',
         alone ty k Starting w0 = (Finished err (held (b', err)), w'')
         ∧ settled w'' w' ∧ (record = false -> w'' = w')).
Proof.
  intros Hnf. split; [|split; [|split; [|split]]].
  - intros w0 a worker w'. subst w'.
    destruct (client_acquire_sets ty a w0) as [Hs|(worker0 & bid & _ & Hbid & Hs)].
    + rewrite (free_of_sets ty worker _ w0 Hs), (busy_of_sets ty worker _ w0 Hs). done.
    + by apply (moved_keeps_ids ty worker0 bid).
  - pose proof (each_spec (client_acquire ty) client_claim
                  (fun _ r => r.2 = (None, Some (nothing_free))) ty
                  (client_acquire_spec ty) clients w Hnf) as Hall.
    destruct (each (client_acquire ty) clients w) as [rs w'].
    destruct Hall as (_ & _ & Hlen & Hnd & Hres & Hmem & _).
    cbv zeta. split; [done|]. split; [done|]. split; [done|]. split; [done|].
    intros Hu. eapply claims_ids_distinct; [exact Hu|exact Hnd|].
    intros worker bid Hin. destruct (Hmem worker bid Hin) as (? & ? & _). done.
  - pose proof (each_spec (browser_acquire ty) held
                  (fun p r => r.2 = Some (if decide (p = []) then BrowserClient.no_workers
                                          else BrowserClient.no_available ty)) ty
                  (browser_acquire_spec ty) browsers w Hnf) as Hall.
    destruct (each (browser_acquire ty) browsers w) as [rs w'].
    destruct Hall as (_ & _ & Hlen & Hnd & Hres & Hmem & _).
    cbv zeta. split; [done|]. split; [done|]. split; [exact Hres|]. split; [done|].
    intros Hu. eapply claims_ids_distinct; [exact Hu|exact Hnd|].
    intros worker bid Hin. destruct (Hmem worker bid Hin) as (? & ? & _). done.
  - intros w0 schedule n sys got. subst got sys.
    destruct (interleaved_acquire ty schedule n w0) as (Hnd & Hmem & Hids & Hend).
    split; [done|]. split; [done|]. split; [done|]. split; [|done].
    apply interleave_finishes.
  - intros w0 b record. apply Acquire_alone.
Qed.

End Contention.

(** * The further properties on sample pools *)

(** A click that is not answered. *)
Lemma send_keeps_to_its_keys_witness :
  Client.Session_ plain = Some (Client.mkSession "b1" "w1" "chrome" false false "")
  ∧ uuids (Client.SendWithTimeout (H:=sample_libraries) "click" None (60 * Second)
             plain quiet_world).1.2 = 1%nat.
Proof.
  split; [reflexivity|].
  pose proof (send_keeps_to_its_keys (H:=sample_libraries) "click" None (60 * Second)
                plain quiet_world _ eq_refl) as Hk.
  cbv zeta in Hk.
  destruct (Client.SendWithTimeout "click" None (60 * Second) plain quiet_world)
    as [[c' w'] [res err]].
  exact (proj1 Hk).
Defined.

Lemma send_queues_the_task_once_witness :
  Client.Session_ plain = Some (Client.mkSession "b1" "w1" "chrome" false false "")
  ∧ "ISOAUTOMATE:w1:tasks" ≠ "ISOAUTOMATE:result:5f2b9c1e"
  ∧ strs (Client.SendWithTimeout (H:=sample_libraries) "click" None (60 * Second)
            plain quiet_world).1.2 = strs quiet_world.
Proof.
  assert ("ISOAUTOMATE:w1:tasks" ≠ "ISOAUTOMATE:result:5f2b9c1e") as Hne by discriminate.
  split; [reflexivity|]. split; [exact Hne|].
  pose proof (send_queues_the_task_once (H:=sample_libraries) "click" None (60 * Second)
                plain quiet_world _ "{}" eq_refl eq_refl Hne) as Hq.
  destruct (Client.SendWithTimeout "click" None (60 * Second) plain quiet_world)
    as [[c' w'] [res err]].
  exact (proj2 (proj2 (proj2 Hq))).
Defined.

Lemma send_waits_once_witness :
  replies quiet_world = []
  ∧ lists quiet_world !!! "ISOAUTOMATE:result:5f2b9c1e" = []
  ∧ clock (Client.SendWithTimeout (H:=sample_libraries) "click" None (60 * Second)
             plain quiet_world).1.2 = 60 * Second.
Proof.
  split; [reflexivity|]. split; [reflexivity|].
  pose proof (send_waits_once (H:=sample_libraries) "click" None 60
                plain quiet_world _ "{}" eq_refl ltac:(lia) eq_refl eq_refl eq_refl
                ltac:(discriminate)) as Hw.
  cbv zeta in Hw.
  destruct (Client.SendWithTimeout "click" None (60 * Second) plain quiet_world)
    as [[c' w'] r].
  exact (proj1 (proj2 (proj2 Hw))).
Defined.

(** Releasing a session nobody answers for. *)
Lemma release_reports_the_last_command_witness :
  Client.Session_ filming = Some (Client.mkSession "b1" "w1" "chrome" true false "")
  ∧ BrowserClient.Session_ recording
    = Some (BrowserClient.mkSession "b1" "w1" "chrome" false)
  ∧ BrowserClient.SessionData
      (BrowserClient.Release (H:=sample_libraries) recording quiet_world).1.1
    = (BrowserClient.Send (H:=sample_libraries) "release_browser" None 60 recording
         quiet_world).2.1.
Proof.
  split; [reflexivity|]. split; [reflexivity|].
  pose proof (release_reports_the_last_command (H:=sample_libraries) filming recording
                quiet_world _ _ eq_refl eq_refl) as [_ Hb].
  cbn [BrowserClient.Record_] in Hb.
  destruct (BrowserClient.Send "release_browser" None 60 recording quiet_world)
    as [[b2 w2] [res err]].
  destruct (BrowserClient.Release recording quiet_world) as [[b' w'] r].
  exact (proj1 (proj2 (proj2 (proj2 Hb)))).
Defined.

Lemma release_waits_for_each_command_witness :
  Client.Session_ filming = Some (Client.mkSession "b1" "w1" "chrome" true false "")
  ∧ unanswered (H:=sample_libraries) quiet_world
  ∧ clock (Client.Release (H:=sample_libraries) filming quiet_world).1.2 = 180 * Second.
Proof.
  assert (unanswered (H:=sample_libraries) quiet_world) as Hu.
  { split; [reflexivity|]. intros n. exact (lookup_total_empty (M:=gmap string) _). }
  split; [reflexivity|]. split; [exact Hu|].
  pose proof (release_waits_for_each_command (H:=sample_libraries)
                (fun p => ex_intro _ "{}" eq_refl) filming quiet_world _ eq_refl
                ltac:(intros n; discriminate) Hu) as Hr.
  destruct (Client.Release filming quiet_world) as [[c' w'] out].
  exact (proj2 (proj2 Hr)).
Defined.

(** Acquiring with a recording nobody confirms. *)
Lemma acquire_drops_the_recording_answer_witness :
  unread (H:=sample_libraries) (world_of three_free_sets [])
  ∧ (BrowserClient.Acquire (H:=sample_libraries) "chrome" true BrowserClient.fresh
       (world_of three_free_sets [])).2 = None
  ∧ clock (BrowserClient.Acquire (H:=sample_libraries) "chrome" true BrowserClient.fresh
             (world_of three_free_sets [])).1.2 = 5 * Second.
Proof.
  assert (unread (H:=sample_libraries) (world_of three_free_sets [])) as Hu.
  { split; [reflexivity|]. intros n. exact (lookup_empty (M:=gmap string) _). }
  split; [exact Hu|].
  pose proof (acquire_drops_the_recording_answer (H:=sample_libraries) "chrome" true
                BrowserClient.fresh (world_of three_free_sets []) Hu) as Ha.
  destruct (BrowserClient.Acquire "chrome" true BrowserClient.fresh
              (world_of three_free_sets [])) as [[b' w'] err].
  destruct Ha as (Hc & Hfree & _).
  destruct (Hfree ltac:(vm_compute; discriminate)) as [-> _].
  split; [reflexivity|exact Hc].
Defined.

(** The script and the loop on a pool with three free chromes. *)
Lemma script_and_loop_claim_alike_witness :
  replies (world_of three_free_sets []) = []
  ∧ sets (BrowserClient.Acquire (H:=sample_libraries) "chrome" false BrowserClient.fresh
            (world_of three_free_sets [])).1.2
    = sets (Client.luaScript [WorkersSet] [RedisPrefix; "chrome"]
              (world_of three_free_sets [])).2.
Proof.
  split; [reflexivity|].
  pose proof (script_and_loop_claim_alike (H:=sample_libraries) "chrome"
                BrowserClient.fresh (world_of three_free_sets []) eq_refl) as Hs.
  destruct (Client.luaScript [WorkersSet] [RedisPrefix; "chrome"]
              (world_of three_free_sets [])) as [res w1].
  destruct (BrowserClient.Acquire "chrome" false BrowserClient.fresh
              (world_of three_free_sets [])) as [[b' w2] err].
  exact (proj1 Hs).
Defined.

(** A read that gives up after one second, and one that gives up at once
    because its seconds do not fit a duration. *)
Lemma send_polls_until_the_timeout_witness :
  BrowserClient.Session_ recording = Some (BrowserClient.mkSession "b1" "w1" "chrome" false)
  ∧ strs quiet_world !! "ISOAUTOMATE:result:5f2b9c1e" = None
  ∧ clock (BrowserClient.Send (H:=sample_libraries) "click" None 1 recording
             quiet_world).1.2 = clock quiet_world + 1 * Second
  ∧ clock (BrowserClient.Send (H:=sample_libraries) "click" None 9223372037 recording
             quiet_world).1.2 = clock quiet_world.
Proof.
  split; [reflexivity|]. split; [reflexivity|].
  pose proof (send_polls_until_the_timeout (H:=sample_libraries) "click" None 1 recording
                quiet_world _ eq_refl ltac:(simpl; lia) eq_refl) as Hp.
  pose proof (send_polls_until_the_timeout (H:=sample_libraries) "click" None 9223372037
                recording quiet_world _ eq_refl ltac:(simpl; lia) eq_refl) as Hq.
  cbv zeta in Hp, Hq.
  destruct (BrowserClient.Send "click" None 1 recording quiet_world) as [[b' w'] r].
  destruct (BrowserClient.Send "click" None 9223372037 recording quiet_world)
    as [[b'' w''] r'].
  destruct Hp as (_ & _ & _ & _ & _ & _ & Hin & _).
  destruct Hq as (_ & _ & _ & _ & _ & _ & _ & Hout).
  split.
  - exact (proj2 (proj2 (Hin ltac:(lia)))).
  - exact (proj2 (Hout ltac:(vm_compute; discriminate))).
Defined.

Lemma send_reads_and_deletes_the_answer_witness :
  strs answered_world !! "ISOAUTOMATE:result:5f2b9c1e" = Some "ok"
  ∧ (BrowserClient.Send (H:=sample_libraries) "click" None 60 recording answered_world).2
    = (Some {["status" := JString "ok"]}, None)
  ∧ (BrowserClient.Send (H:=sample_libraries) "click" None 9223372037 recording
       answered_world).2
    = (None, Some timed_out).
Proof.
  split; [reflexivity|].
  pose proof (send_reads_and_deletes_the_answer (H:=sample_libraries) "click" None 60
                recording answered_world _ "ok" eq_refl ltac:(simpl; lia) eq_refl) as Hp.
  pose proof (send_reads_and_deletes_the_answer (H:=sample_libraries) "click" None
                9223372037 recording answered_world _ "ok" eq_refl ltac:(simpl; lia)
                eq_refl) as Hq.
  cbv zeta in Hp, Hq.
  destruct (BrowserClient.Send "click" None 60 recording answered_world) as [[b' w'] r].
  destruct (BrowserClient.Send "click" None 9223372037 recording answered_world)
    as [[b'' w''] r'].
  destruct Hp as (_ & _ & Hin & _).
  destruct Hq as (_ & _ & _ & Hout & _).
  split.
  - exact (proj1 (Hin ltac:(vm_compute; reflexivity))).
  - exact (proj1 (Hout ltac:(vm_compute; discriminate))).
Defined.

(** A host given to [New], the database and TLS set in the environment. *)
Lemma new_prefers_what_it_is_given_witness :
  (New (H:=sample_platform) sample_config sample_env quiet_world).2.1
  = Some (mkOptions "cache.internal:6379" "" 3 true, Client.fresh)
  ∧ RedisDB sample_config = 0 ∧ RedisSSL sample_config = false.
Proof.
  assert ((New (H:=sample_platform) sample_config sample_env quiet_world).2.1
          = Some (mkOptions "cache.internal:6379" "" 3 true, Client.fresh)) as Hn
    by (vm_compute; reflexivity).
  split; [exact Hn|].
  pose proof (new_prefers_what_it_is_given (H0:=sample_platform) sample_config sample_env
                quiet_world _ _ eq_refl eq_refl Hn) as (_ & _ & _ & Hdb & _ & Hssl).
  split; reflexivity.
Defined.

(** A first chrome acquired. *)
Lemma commands_reach_the_claimed_instance_witness :
  (Client.Acquire (H:=sample_libraries) (H0:=sample_platform) "chrome" false Client.profile_nil false
     Client.fresh (world_of one_free_sets [])).2.2 = None
  ∧ exists worker bid,
      bid ∈ busy_of "chrome" worker
              (Client.Acquire (H:=sample_libraries) (H0:=sample_platform) "chrome" false Client.profile_nil
                 false Client.fresh (world_of one_free_sets [])).1.2.
Proof.
  assert ((Client.Acquire (H:=sample_libraries) (H0:=sample_platform) "chrome" false Client.profile_nil false
             Client.fresh (world_of one_free_sets [])).2.2 = None) as Herr
    by (vm_compute; reflexivity).
  split; [exact Herr|].
  pose proof (commands_reach_the_claimed_instance (H:=sample_libraries) (H0:=sample_platform) "chrome" false
                Client.profile_nil false Client.fresh (world_of one_free_sets [])) as Hc.
  destruct (Client.Acquire "chrome" false Client.profile_nil false Client.fresh
              (world_of one_free_sets [])) as [[c' w'] [res err]].
  destruct (Hc Herr) as (worker & bid & _ & Hbusy & _).
  exists worker, bid. exact Hbusy.
Defined.

(** The second of two workers. *)
Lemma any_worker_can_come_first_witness :
  "w2" ∈ ["w1"; "w2"]
  ∧ exists draws, head (shuffle ["w1"; "w2"] (set_rng draws quiet_world)).1 = Some "w2".
Proof.
  assert ("w2" ∈ ["w1"; "w2"]) as Hin
    by (apply (bool_decide_unpack _); vm_compute; exact I).
  split; [exact Hin|].
  exact (any_worker_can_come_first ["w1"; "w2"] "w2" quiet_world Hin).
Defined.

(** Four callers of [Client.Acquire] and two of [BrowserClient.Acquire] on a
    pool with three free chromes. *)
Lemma acquire_is_exclusive_witness :
  no_faults (world_of three_free_sets [])
  ∧ length (omap client_claim
              (each (client_acquire (H:=sample_libraries) (H0:=sample_platform) "chrome") four_callers
                    (world_of three_free_sets [])).1) = 3%nat
  ∧ length (omap held
              (each (browser_acquire (H:=sample_libraries) "chrome") two_browsers
                    (world_of three_free_sets [])).1) = 2%nat
  ∧ length (omap holding
              (interleave "chrome" round_robin
                 (replicate 4 Starting, world_of three_free_sets [])).1) = 3%nat.
Proof.
  assert (no_faults (world_of three_free_sets [])) as Hnf by constructor.
  split; [exact Hnf|].
  pose proof (acquire_is_exclusive (H:=sample_libraries) (H0:=sample_platform) "chrome"
                (world_of three_free_sets []) four_callers two_browsers Hnf)
    as (_ & Hc & Hb & Hi & _).
  specialize (Hi (world_of three_free_sets []) round_robin 4%nat).
  cbv zeta in Hi. destruct Hi as (_ & _ & _ & Hfin & Hcount).
  assert (forall i, (i < 4)%nat ->
            (3 + length (pool (world_of three_free_sets []))
             <= count_occ Nat.eq_dec round_robin i)%nat) as Hfair.
  { intros [|[|[|[|i]]]] Hi; [vm_compute; lia..|lia]. }
  destruct (Hcount Hnf (Hfin Hfair)) as [-> _].
  destruct (each (client_acquire "chrome") four_callers _) as [rs w'].
  destruct (each (browser_acquire "chrome") two_browsers _) as [rs' w''].
  cbn [fst]. destruct Hc as (_ & -> & _). destruct Hb as (_ & -> & _).
  repeat split; vm_compute; reflexivity.
Defined.
